(** * config-backup.py: versioned configuration backups with a [for-git] mirror

    A shallow embedding of [config-backup.py] and the properties of its
    selection prompt, its generation store, its retention policy and its
    mirror folder.

    The Python code works on the user's home directory through [pathlib] and
    [shutil].  The embedding keeps the functions of the script
    ([get_user_selection], [cleanup_old_backups], [update_for_git],
    [backup_items], and the menu: [get_config_items], [display_items],
    [show_backup_history], [main]) and replaces the operating system by an
    explicit model:
    the home directory is a tree of files and directories, the calls of
    [pathlib] and [shutil] are operations on that tree that either succeed or
    raise one of Python's exceptions, [print] appends to a list of events and
    [input] reads from a list of lines.  Symbolic links are not modelled. *)

From stdpp Require Import gmap strings list sorting.
From Stdlib Require Import ZArith Ascii.

Set Warnings "-clear-no-such-hyp".

Local Open Scope Z_scope.

(** ** Order on names

    [sorted] compares the [Path] objects of one directory, that is their
    names, code point by code point; on UTF-8 bytes this is [String.leb]. *)

Module NameOrder.

Definition name_ge (a b : string) : Prop := String.leb b a = true.
Definition name_gt (a b : string) : Prop := String.ltb b a = true.

#[global] Instance name_ge_dec : RelDecision name_ge.
Proof. intros a b. unfold name_ge. apply _. Defined.

#[global] Instance name_gt_dec : RelDecision name_gt.
Proof. intros a b. unfold name_gt. apply _. Defined.

(** [sorted(..., reverse=True)] *)
Definition sorted_desc (l : list string) : list string := merge_sort name_ge l.

End NameOrder.
Export NameOrder.

(** ** Python values and exceptions *)

Inductive exn :=
| PermissionError
| FileExistsError
| FileNotFoundError
| NotADirectoryError
| IsADirectoryError
| ValueError
| IndexError
| EOFError.

#[global] Instance exn_eq_dec : EqDecision exn.
Proof. solve_decision. Defined.

Inductive res (A : Type) :=
| Ret (a : A)
| Raise (e : exn).
Arguments Ret {A} a.
Arguments Raise {A} e.

#[global] Instance res_eq_dec {A} `{EqDecision A} : EqDecision (res A).
Proof. solve_decision. Defined.

(** What the script prints; one constructor for each message that matters
    here, with the values it interpolates. *)
Inductive event :=
| OutOfRange (num : Z)            (* Number {num} is out of range! *)
| NoValidNumber                   (* Please enter at least one valid number! *)
| ValidNumbersOnly                (* Please enter valid numbers only! *)
| BackingUp (item_name : string)  (* Backing up: {item_name} *)
| BackupSuccessful                (* Backup successful! *)
| ItemNotFound                    (* Item not found! *)
| NoPermission                    (* No permission to backup! *)
| BackupError (e : exn)           (* Error: {e} *)
| UpdatedForGit (item_name : string)        (* Updated for-git/{item_name} *)
| ForGitFailed (e : exn)                    (* Failed to update for-git: {e} *)
| DeletedOld (name : string)                (* Deleted old backup: {name} *)
| DeleteFailed (name : string) (e : exn)    (* Failed to delete {name}: {e} *)
| Results (success fail : nat).             (* Success: .. / Failed: .. *)

(** [items[i]] on a Python list: negative indices count from the end. *)
Definition py_index {A} (items : list A) (i : Z) : res A :=
  let len := Z.of_nat (length items) in
  let j := if i <? 0 then i + len else i in
  if (0 <=? j) && (j <? len) then
    match items !! Z.to_nat j with
    | Some x => Ret x
    | None => Raise IndexError
    end
  else Raise IndexError.

(** ** Text helpers of the prompt: [strip], [lower], [replace], [split]

    Strings are byte strings; the white space of [str.strip] and [str.split]
    is the ASCII one (tab, line feed, vertical tab, form feed, carriage
    return, the separators 28 to 31 and space). *)

Module Text.

Definition is_space (c : ascii) : bool :=
  let n := nat_of_ascii c in
  ((9 <=? n) && (n <=? 13) || (28 <=? n) && (n <=? 32))%nat.

Definition lower_ascii (c : ascii) : ascii :=
  let n := nat_of_ascii c in
  if ((65 <=? n) && (n <=? 90))%nat then ascii_of_nat (n + 32) else c.

Fixpoint lower (s : string) : string :=
  match s with
  | EmptyString => EmptyString
  | String c s' => String (lower_ascii c) (lower s')
  end.

Fixpoint lstrip (s : string) : string :=
  match s with
  | String c s' => if is_space c then lstrip s' else s
  | EmptyString => EmptyString
  end.

Fixpoint rstrip (s : string) : string :=
  match s with
  | EmptyString => EmptyString
  | String c s' =>
      match rstrip s' with
      | EmptyString => if is_space c then EmptyString else String c EmptyString
      | r => String c r
      end
  end.

Definition strip (s : string) : string := rstrip (lstrip s).

(** [s.replace(',', ' ')] *)
Fixpoint replace_commas (s : string) : string :=
  match s with
  | EmptyString => EmptyString
  | String c s' =>
      String (if Ascii.eqb c ","%char then " "%char else c) (replace_commas s')
  end.

(** [s.split()]: the maximal runs of characters that are not white space.
    [cur] is the run being read, in reverse. *)
Fixpoint split_aux (cur : list ascii) (s : string) : list string :=
  let flush (k : list string) :=
    match cur with
    | [] => k
    | _ => String.string_of_list_ascii (rev cur) :: k
    end in
  match s with
  | EmptyString => flush []
  | String c s' =>
      if is_space c then flush (split_aux [] s') else split_aux (c :: cur) s'
  end.

Definition split (s : string) : list string := split_aux [] s.

(** An instance of the builtin [int] on ASCII text: an optional sign, then
    decimal digits, single underscores allowed between digits. *)
Definition digit_of (c : ascii) : option Z :=
  let n := nat_of_ascii c in
  if ((48 <=? n) && (n <=? 57))%nat then Some (Z.of_nat (n - 48)) else None.

(** [after_digit] tells whether the previous character was a digit. *)
Fixpoint digits_aux (acc : Z) (after_digit : bool) (s : string) : option Z :=
  match s with
  | EmptyString => if after_digit then Some acc else None
  | String c s' =>
      match digit_of c with
      | Some d => digits_aux (10 * acc + d) true s'
      | None =>
          if Ascii.eqb c "_"%char && after_digit then
            match s' with
            | EmptyString => None
            | String c' _ =>
                match digit_of c' with
                | Some _ => digits_aux acc false s'
                | None => None
                end
            end
          else None
      end
  end.

Definition int_ascii (s : string) : option Z :=
  match s with
  | String "-"%char s' => Z.opp <$> digits_aux 0 false s'
  | String "+"%char s' => digits_aux 0 false s'
  | _ => digits_aux 0 false s
  end.

End Text.

(** ** The selection prompt *)

Module Selection.
Import Text.

(** What [get_user_selection] returns: [None], ['h'] or a list of numbers. *)
Inductive selection :=
| Quit
| History
| Numbers (numbers : list Z).

Section Prompt.

(** The builtin [int] on a token; [None] stands for [ValueError]. *)
Variable int : string → option Z.

(** The [for part in parts] loop: the numbers accepted after [numbers], and
    what was printed, up to the first token [int] rejects. *)
Fixpoint collect (max_num : Z) (parts : list string) (numbers : list Z)
  : res (list Z) * list event :=
  match parts with
  | [] => (Ret numbers, [])
  | part :: parts' =>
      match int part with
      | None => (Raise ValueError, [])
      | Some num =>
          if (1 <=? num) && (num <=? max_num)
          then collect max_num parts' (numbers ++ [num])
          else
            let '(r, evs) := collect max_num parts' numbers in
            (r, OutOfRange num :: evs)
      end
  end.

(** [get_user_selection(max_num)], reading the lines of [stdin]: the result,
    what was printed, and the lines left unread.  Each round of the
    [while True] loop reads one line; [input] raises [EOFError] at the end of
    the input. *)
Fixpoint get_user_selection (max_num : Z) (stdin : list string)
  : res selection * list event * list string :=
  match stdin with
  | [] => (Raise EOFError, [], [])
  | line :: stdin' =>
      let user_input := strip line in
      if decide (lower user_input = "q") then (Ret Quit, [], stdin')
      else if decide (lower user_input = "h") then (Ret History, [], stdin')
      else if decide (lower user_input = "all")
      then (Ret (Numbers (seqZ 1 max_num)), [], stdin')
      else
        let parts := split (replace_commas user_input) in
        match collect max_num parts [] with
        | (Ret (num :: numbers), evs) =>
            (Ret (Numbers (num :: numbers)), evs, stdin')
        | (Ret [], evs) =>
            let '(r, evs', rest) := get_user_selection max_num stdin' in
            (r, evs ++ NoValidNumber :: evs', rest)
        | (Raise ValueError, evs) =>
            let '(r, evs', rest) := get_user_selection max_num stdin' in
            (r, evs ++ ValidNumbersOnly :: evs', rest)
        | (Raise e, evs) => (Raise e, evs, stdin')
        end
  end.

End Prompt.

End Selection.

(** ** The home directory

    A path is the list of its components below the home directory, so
    [Path.home() / ".config" / item] is [[".config"; item]]. *)

Definition path := list string.

#[warnings="-register-all"]
Inductive node :=
| File (data : string)
| Dir (entries : gmap string node).

Definition is_Dir (n : node) : bool :=
  match n with Dir _ => true | File _ => false end.

Module Tree.

(** The entry at a path, if there is one. *)
Fixpoint fs_get (n : node) (p : path) : option node :=
  match p with
  | [] => Some n
  | x :: p' =>
      match n with
      | Dir es => c ← es !! x; fs_get c p'
      | File _ => None
      end
  end.

(** Put [c] at [p], creating the directories on the way that are missing;
    [None] when a file is on the way. *)
Fixpoint fs_install (p : path) (c : node) (n : node) : option node :=
  match p with
  | [] => Some c
  | x :: p' =>
      match n with
      | Dir es =>
          m ← fs_install p' c (default (Dir ∅) (es !! x));
          Some (Dir (<[x:=m]> es))
      | File _ => None
      end
  end.

(** Remove the entry at [p] with all it contains. *)
Fixpoint fs_remove (p : path) (n : node) : node :=
  match p with
  | [] => n
  | x :: p' =>
      match n with
      | Dir es =>
          match p' with
          | [] => Dir (delete x es)
          | _ => Dir (alter (fs_remove p') x es)
          end
      | File _ => n
      end
  end.

(** [q] is [p] or lies below it: what is left of [q] below [p]. *)
Fixpoint below (p q : path) : option path :=
  match p, q with
  | [], _ => Some q
  | x :: p', y :: q' => if decide (x = y) then below p' q' else None
  | _ :: _, [] => None
  end.

Definition parent (p : path) : path := removelast p.

Definition basename (p : path) : string := List.last p "".

End Tree.
Export Tree.

(** ** State, exceptions and the calls of [pathlib] and [shutil]

    The state holds the home directory, the paths the operating system
    protects, what was printed (oldest first) and the two counters of
    [backup_items].  A protected path stands for an entry that cannot be
    created, replaced or removed (a read-only parent directory, for
    instance): the call that would do so raises [PermissionError].  A call
    that raises leaves the tree as it was. *)

Record state := State {
  tree : node;
  frozen : list path;
  out : list event;
  success_count : nat;
  fail_count : nat;
}.

Definition M (A : Type) : Type := state → res A * state.

#[global] Instance M_ret : MRet M := λ A a s, (Ret a, s).
#[global] Instance M_bind : MBind M := λ A B f m s,
  match m s with
  | (Ret a, s') => f a s'
  | (Raise e, s') => (Raise e, s')
  end.

Module OS.

Definition raise {A} (e : exn) : M A := λ s, (Raise e, s).

(** [try: body except Exception as e: handler] *)
Definition try_except {A} (body : M A) (handler : exn → M A) : M A := λ s,
  match body s with
  | (Ret a, s') => (Ret a, s')
  | (Raise e, s') => handler e s'
  end.

Definition print (e : event) : M unit := λ s,
  (Ret tt, State (tree s) (frozen s) (out s ++ [e]) (success_count s) (fail_count s)).

Definition set_tree (t : node) : M unit := λ s,
  (Ret tt, State t (frozen s) (out s) (success_count s) (fail_count s)).

Definition get_tree : M node := λ s, (Ret (tree s), s).

Definition present (t : node) (p : path) : bool :=
  match fs_get t p with Some _ => true | None => false end.

Definition dir_at (t : node) (p : path) : bool :=
  match fs_get t p with Some (Dir _) => true | _ => false end.

Definition file_at (t : node) (p : path) : bool :=
  match fs_get t p with Some (File _) => true | _ => false end.

(** [Path.exists], [Path.is_dir], [Path.is_file] *)
Definition exists_ (p : path) : M bool := λ s, (Ret (present (tree s) p), s).
Definition is_dir (p : path) : M bool := λ s, (Ret (dir_at (tree s) p), s).
Definition is_file (p : path) : M bool := λ s, (Ret (file_at (tree s) p), s).

(** [p.mkdir(exist_ok=True)]: the parent must be there; an existing
    directory is left alone, an existing file is an error. *)
Definition mkdir_exist_ok (p : path) : M unit := λ s,
  match fs_get (tree s) p with
  | Some (Dir _) => (Ret tt, s)
  | Some (File _) => (Raise FileExistsError, s)
  | None =>
      match fs_get (tree s) (parent p) with
      | Some (Dir _) =>
          if bool_decide (p ∈ frozen s) then (Raise PermissionError, s)
          else
            match fs_install p (Dir ∅) (tree s) with
            | Some t => set_tree t s
            | None => (Raise NotADirectoryError, s)
            end
      | Some (File _) => (Raise NotADirectoryError, s)
      | None => (Raise FileNotFoundError, s)
      end
  end.

(** [p.iterdir()], as the names of the entries. *)
Definition iterdir (p : path) : M (list string) := λ s,
  match fs_get (tree s) p with
  | Some (Dir es) => (Ret (map_to_list es).*1, s)
  | Some (File _) => (Raise NotADirectoryError, s)
  | None => (Raise FileNotFoundError, s)
  end.

(** Some protected entry is at [p] or below it. *)
Definition holds_frozen (s : state) (p : path) : bool :=
  existsb (λ q, match below p q with
                | Some _ => present (tree s) q
                | None => false
                end) (frozen s).

(** [shutil.rmtree(p)] *)
Definition rmtree (p : path) : M unit := λ s,
  match fs_get (tree s) p with
  | Some (Dir _) =>
      if holds_frozen s p then (Raise PermissionError, s)
      else set_tree (fs_remove p (tree s)) s
  | Some (File _) => (Raise NotADirectoryError, s)
  | None => (Raise FileNotFoundError, s)
  end.

(** [p.unlink()] *)
Definition unlink (p : path) : M unit := λ s,
  match fs_get (tree s) p with
  | Some (File _) =>
      if bool_decide (p ∈ frozen s) then (Raise PermissionError, s)
      else set_tree (fs_remove p (tree s)) s
  | Some (Dir _) => (Raise IsADirectoryError, s)
  | None => (Raise FileNotFoundError, s)
  end.

(** Copying [src] to [dst] would create a protected entry: a missing
    directory on the way to [dst], or an entry of the copy. *)
Definition creates_frozen (s : state) (src : node) (dst : path) : bool :=
  existsb (λ q,
    match below q dst with
    | Some _ => negb (present (tree s) q)
    | None =>
        match below dst q with
        | Some r => present src r
        | None => false
        end
    end) (frozen s).

(** [shutil.copytree(src, dst, symlinks=True)]: [dst] must not exist; its
    missing parents are created ([os.makedirs]). *)
Definition copytree (src dst : path) : M unit := λ s,
  match fs_get (tree s) src with
  | Some (Dir es) =>
      if present (tree s) dst then (Raise FileExistsError, s)
      else
        match fs_install dst (Dir es) (tree s) with
        | None => (Raise NotADirectoryError, s)
        | Some t =>
            if creates_frozen s (Dir es) dst then (Raise PermissionError, s)
            else set_tree t s
        end
  | Some (File _) => (Raise NotADirectoryError, s)
  | None => (Raise FileNotFoundError, s)
  end.

(** [shutil.copy2(src, dst)]: when [dst] is a directory the file goes inside
    it, under the name of [src]; an existing file is overwritten. *)
Definition copy2 (src dst : path) : M unit := λ s,
  match fs_get (tree s) src with
  | Some (File data) =>
      let target := if dir_at (tree s) dst then dst ++ [basename src] else dst in
      match fs_get (tree s) target with
      | Some (Dir _) => (Raise IsADirectoryError, s)
      | _ =>
          match fs_get (tree s) (parent target) with
          | Some (Dir _) =>
              if bool_decide (target ∈ frozen s) then (Raise PermissionError, s)
              else
                match fs_install target (File data) (tree s) with
                | Some t => set_tree t s
                | None => (Raise NotADirectoryError, s)
                end
          | Some (File _) => (Raise NotADirectoryError, s)
          | None => (Raise FileNotFoundError, s)
          end
      end
  | Some (Dir _) => (Raise IsADirectoryError, s)
  | None => (Raise FileNotFoundError, s)
  end.

(** [for x in l: body] *)
Fixpoint for_each {A} (l : list A) (body : A → M unit) : M unit :=
  match l with
  | [] => mret tt
  | x :: l' => body x ;; for_each l' body
  end.

(** [[x for x in l if test(x)]] *)
Fixpoint filter_m {A} (test : A → M bool) (l : list A) : M (list A) :=
  match l with
  | [] => mret []
  | x :: l' =>
      b ← test x;
      r ← filter_m test l';
      mret (if b : bool then x :: r else r)
  end.

End OS.
Export OS.

(** ** The backup functions of the script *)

Module Backup.

Definition MAX_BACKUPS : nat := 5.

Definition config_path : path := [".config"].
Definition dotfiles_path : path := ["dotfiles"].
Definition for_git_path : path := dotfiles_path ++ ["for-git"].

(** [index items i] is [items[i]]. *)
Definition index (items : list string) (i : Z) : M string := λ s,
  (py_index items i, s).

Definition incr_success : M unit := λ s,
  (Ret tt, State (tree s) (frozen s) (out s) (S (success_count s)) (fail_count s)).

Definition incr_fail : M unit := λ s,
  (Ret tt, State (tree s) (frozen s) (out s) (success_count s) (S (fail_count s))).

Definition reset_counts : M unit := λ s,
  (Ret tt, State (tree s) (frozen s) (out s) 0 0).

Definition print_results : M unit := λ s,
  print (Results (success_count s) (fail_count s)) s.

(** The retention policy of [cleanup_old_backups]:
    [if len(backups) > MAX_BACKUPS: backups_to_delete = backups[MAX_BACKUPS:]],
    and nothing to delete otherwise. *)
Definition backups_to_delete (backups : list string) : list string :=
  if (MAX_BACKUPS <? length backups)%nat then drop MAX_BACKUPS backups else [].

(** The listing of [cleanup_old_backups]: the directories of
    [program_folder], newest first.  A backup is known by its name: it is the
    directory [program_folder / name]. *)
Definition list_backups (program_folder : path) : M (list string) :=
  names ← iterdir program_folder;
  dirs ← filter_m (λ d, is_dir (program_folder ++ [d])) names;
  mret (sorted_desc dirs).

Definition cleanup_old_backups (program_folder : path) : M unit :=
  found ← exists_ program_folder;
  if negb found then mret tt
  else
    backups ← list_backups program_folder;
    for_each (backups_to_delete backups) (λ old_backup,
      try_except
        (rmtree (program_folder ++ [old_backup]);;
         print (DeletedOld old_backup))
        (λ e, print (DeleteFailed old_backup e))).

Definition update_for_git (item_name : string) (source_path : path) : M bool :=
  mkdir_exist_ok for_git_path;;
  let destination := for_git_path ++ [item_name] in
  (* Remove old version if exists *)
  found ← exists_ destination;
  (if found : bool then
     d ← is_dir destination;
     if d : bool then rmtree destination else unlink destination
   else mret tt : M unit);;
  (* Copy new version *)
  try_except
    (d ← is_dir source_path;
     (if d : bool then copytree source_path destination
      else copy2 source_path destination : M unit);;
     print (UpdatedForGit item_name);;
     mret true)
    (λ e, print (ForGitFailed e);; mret false).

(** The [if / elif / else] at the head of the [try] block of [backup_items]:
    the copy of the item into its new generation.  [false] stands for the
    [continue] of the [else] branch. *)
Definition copy_generation (source backup_folder destination : path) : M bool :=
  d ← is_dir source;
  if d : bool then
    copytree source destination;;
    print BackupSuccessful;;
    mret true
  else
    f ← is_file source;
    if f : bool then
      mkdir_exist_ok backup_folder;;
      copy2 source destination;;
      print BackupSuccessful;;
      mret true
    else
      print ItemNotFound;;
      incr_fail;;
      mret false.

(** The body of the [for idx in selected_indices] loop. *)
Definition backup_item (items : list string) (timestamp : string) (idx : Z)
  : M unit :=
  item_name ← index items (idx - 1);
  let source := config_path ++ [item_name] in
  (* Create program folder *)
  let program_folder := dotfiles_path ++ [item_name] in
  mkdir_exist_ok program_folder;;
  (* Create timestamp folder *)
  let backup_folder := program_folder ++ [timestamp] in
  let destination := backup_folder ++ [item_name] in
  print (BackingUp item_name);;
  try_except
    (copied ← copy_generation source backup_folder destination;
     if copied : bool then
       incr_success;;
       update_for_git item_name source;;
       cleanup_old_backups program_folder
     else mret tt)
    (λ e,
       match e with
       | PermissionError => print NoPermission;; incr_fail
       | _ => print (BackupError e);; incr_fail
       end).

(** [backup_items(items, selected_indices)], with the time stamp that
    [datetime.now().strftime] gave. *)
Definition backup_items (items : list string) (selected_indices : list Z)
    (timestamp : string) : M unit :=
  mkdir_exist_ok dotfiles_path;;
  reset_counts;;
  for_each selected_indices (backup_item items timestamp);;
  print_results.

(** What [cleanup_old_backups] would list for an item: its generations. *)
Definition generations (t : node) (item_name : string) : list string :=
  match fs_get t (dotfiles_path ++ [item_name]) with
  | Some (Dir es) =>
      sorted_desc (filter (λ d, dir_at (Dir es) [d]) (map_to_list es).*1)
  | _ => []
  end.

End Backup.

(** ** Notions used in the statements *)

Module Notions.
Import Backup.

(** Neither path is a prefix of the other: they part at some component. *)
Fixpoint diverge (p q : path) : bool :=
  match p, q with
  | x :: p', y :: q' => if decide (x = y) then diverge p' q' else true
  | _, _ => false
  end.

(** The tokens of an input line, as the prompt splits it. *)
Definition tokens (line : string) : list string :=
  Text.split (Text.replace_commas (Text.strip line)).

(** The line is one of the commands [q], [h] and [all]. *)
Definition is_command (line : string) : Prop :=
  Text.lower (Text.strip line) ∈ ["q"; "h"; "all"].

(** The integers read from the tokens up to the first one [int] rejects. *)
Fixpoint leading_ints (int : string → option Z) (parts : list string) : list Z :=
  match parts with
  | [] => []
  | part :: parts' =>
      match int part with
      | Some num => num :: leading_ints int parts'
      | None => []
      end
  end.

Definition all_ints (int : string → option Z) (parts : list string) : bool :=
  forallb (λ part, bool_decide (is_Some (int part))) parts.

Definition in_range (max_num num : Z) : Prop := 1 ≤ num ≤ max_num.

#[global] Instance in_range_dec max_num num : Decision (in_range max_num num).
Proof. unfold in_range. apply _. Defined.

#[global] Instance is_command_dec line : Decision (is_command line).
Proof. unfold is_command. apply _. Defined.

(** The state with another tree, and the state after a [print]. *)
Definition with_tree (t : node) (s : state) : state :=
  State t (frozen s) (out s) (success_count s) (fail_count s).

Definition emit (e : event) (s : state) : state :=
  State (tree s) (frozen s) (out s ++ [e]) (success_count s) (fail_count s).

(** A relation between the state before a run and the state after it that
    the program keeps. *)
Definition respects (R : state → state → Prop) {A} (m : M A) : Prop :=
  ∀ s r s', m s = (r, s') → R s s'.

(** The counters and the protected paths stay. *)
Definition same_counts (s s' : state) : Prop :=
  success_count s' = success_count s
  ∧ fail_count s' = fail_count s
  ∧ frozen s' = frozen s.

(** The tree stays outside of [p]: at every path that parts from [p]. *)
Definition same_outside (p : path) (s s' : state) : Prop :=
  ∀ q, diverge p q = true → fs_get (tree s') q = fs_get (tree s) q.

(** Nothing printed is taken back. *)
Definition out_grows (s s' : state) : Prop := out s `prefix_of` out s'.

(** Every call of the operating system returns the state with another tree,
    or raises and leaves the state as it was. *)
Definition tree_step (p : path) (m : M unit) : Prop :=
  ∀ s r s', m s = (r, s') →
    s' = s ∨ ∃ t, s' = with_tree t s
                  ∧ ∀ q, diverge p q = true → fs_get t q = fs_get (tree s) q.

(** A program that only looks at the state. *)
Definition reads {A} (m : M A) : Prop := ∀ s r s', m s = (r, s') → s' = s.

Create HintDb frames.

(** Names in strict descending order, newest first. *)
Definition strict_desc (l : list string) : Prop := StronglySorted name_gt l.

(** A name put at its place in a list in strict descending order. *)
Fixpoint insert_desc (a : string) (l : list string) : list string :=
  match l with
  | [] => [a]
  | b :: l' =>
      if decide (name_gt a b) then a :: l
      else if decide (a = b) then l
      else b :: insert_desc a l'
  end.

(** The [MAX_BACKUPS] most recent of the names given, newest first. *)
Definition most_recent (names : list string) : list string :=
  take MAX_BACKUPS (sorted_desc (remove_dups names)).

(** No deletion of an old backup was reported as failed. *)
Definition is_delete_failure (e : event) : bool :=
  match e with DeleteFailed _ _ => true | _ => false end.

Definition no_delete_failure (evs : list event) : bool :=
  forallb (λ e, negb (is_delete_failure e)) evs.

(** A backup of the item at position [idx] that went well: it returns, the
    item is counted as a success and not as a failure, and no deletion of an
    old backup failed. *)
Definition successful_backup (items : list string) (idx : Z)
    (timestamp : string) (s s' : state) : Prop :=
  backup_items items [idx] timestamp s = (Ret tt, s')
  ∧ success_count s' = 1%nat
  ∧ fail_count s' = 0%nat
  ∧ no_delete_failure (out s') = true.

(** A sequence of such backups of one item, one time stamp each. *)
Inductive backup_run (items : list string) (idx : Z)
  : state → list string → state → Prop :=
| run_done s : backup_run items idx s [] s
| run_step s timestamp s1 timestamps s' :
    successful_backup items idx timestamp s s1 →
    backup_run items idx s1 timestamps s' →
    backup_run items idx s (timestamp :: timestamps) s'.


End Notions.
Export Notions.

(** ** Sample homes *)

Module Samples.
Import Backup.

Definition stamp : string := "20240101_120000".

(** [~/.config] with the directory [nvim] and the file [bashrc]. *)
Definition config : node :=
  Dir {[ "nvim" := Dir {[ "init.lua" := File "set number" ]};
         "bashrc" := File "alias ll=ls" ]}.

(** No backup was made yet. *)
Definition fresh : state :=
  State (Dir {[ ".config" := config ]}) [] [] 0 0.

(** [nvim] was already backed up under [stamp], with other content. *)
Definition nvim_backed_up : state :=
  State (Dir {[ ".config" := config;
                "dotfiles" := Dir {[ "nvim" := Dir {[ stamp :=
                  Dir {[ "nvim" := Dir {[ "old.lua" := File "old" ]} ]} ]} ]} ]})
    [] [] 0 0.

(** Under [stamp] the payload of [bashrc] is a directory. *)
Definition bashrc_was_directory : state :=
  State (Dir {[ ".config" := config;
                "dotfiles" := Dir {[ "bashrc" := Dir {[ stamp :=
                  Dir {[ "bashrc" := Dir {[ "old" := File "old" ]} ]} ]} ]} ]})
    [] [] 0 0.

(** The mirror of [nvim] holds a file that cannot be removed. *)
Definition mirror_protected : state :=
  State (Dir {[ ".config" := config;
                "dotfiles" := Dir {[ "for-git" := Dir {[ "nvim" :=
                  Dir {[ "lazy-lock.json" := File "{}" ]} ]} ]} ]})
    [["dotfiles"; "for-git"; "nvim"; "lazy-lock.json"]] [] 0 0.

(** [~/dotfiles/ghost] is a file, and [~/.config/ghost] is missing. *)
Definition ghost_is_file : state :=
  State (Dir {[ ".config" := config;
                "dotfiles" := Dir {[ "ghost" := File "notes" ]} ]})
    [] [] 0 0.

(** The mirror of [bashrc] is a directory left by an older backup. *)
Definition stale_mirror : state :=
  State (Dir {[ ".config" := config;
                "dotfiles" := Dir {[ "for-git" := Dir {[ "bashrc" :=
                  Dir {[ "old" := File "old" ]} ]} ]} ]})
    [] [] 0 0.

(** Five backups of [nvim]. *)
Definition nvim_generation : node :=
  Dir {[ "nvim" := Dir {[ "init.lua" := File "set number" ]} ]}.

Definition five_backups_home : node :=
  Dir {[ ".config" := config;
         "dotfiles" := Dir {[ "nvim" := Dir {[
           "20240101_120000" := nvim_generation;
           "20240102_120000" := nvim_generation;
           "20240103_120000" := nvim_generation;
           "20240104_120000" := nvim_generation;
           "20240105_120000" := nvim_generation ]} ]} ]}.

Definition five_backups : state := State five_backups_home [] [] 0 0.

(** The same, where the oldest backup holds a file that cannot be removed. *)
Definition oldest_protected : state :=
  State five_backups_home
    [["dotfiles"; "nvim"; "20240101_120000"; "nvim"; "init.lua"]] [] 0 0.

(** Two more days. *)
Definition two_days : list string := ["20240106_120000"; "20240107_120000"].

Definition after_two_days : state :=
  foldl (λ s timestamp, (backup_items ["bashrc"; "nvim"] [2] timestamp s).2)
    five_backups two_days.

End Samples.

(** ** Notions used in the statements on the clean-up *)

Module Reports.
Import Backup.

(** What [cleanup_old_backups] prints for an old backup: whether it could be
    deleted depends on the protected entries it holds. *)
Definition deletion_report (s : state) (program_folder : path) (name : string)
  : event :=
  if holds_frozen s (program_folder ++ [name])
  then DeleteFailed name PermissionError
  else DeletedOld name.

(** The generations of an item past the [MAX_BACKUPS] newest. *)
Definition evicted (t : node) (item_name : string) : list string :=
  drop MAX_BACKUPS (generations t item_name).


End Reports.
Export Reports.

(** ** More sample homes *)

Module MoreSamples.
Import Backup Samples.

(** Seven backups of [nvim] and a file of notes beside them; the backup of
    the second day holds a file that cannot be removed. *)
Definition seven_backups : state :=
  State (Dir {[ ".config" := config;
                "dotfiles" := Dir {[ "nvim" := Dir {[
                  "20240101_120000" := nvim_generation;
                  "20240102_120000" := nvim_generation;
                  "20240103_120000" := nvim_generation;
                  "20240104_120000" := nvim_generation;
                  "20240105_120000" := nvim_generation;
                  "20240106_120000" := nvim_generation;
                  "20240107_120000" := nvim_generation;
                  "notes" := File "keep me" ]} ]} ]})
    [["dotfiles"; "nvim"; "20240102_120000"; "nvim"; "init.lua"]] [] 0 0.

(** [bashrc] was backed up under [stamp] when it had another content. *)
Definition bashrc_backed_up : state :=
  State (Dir {[ ".config" := config;
                "dotfiles" := Dir {[
                  "bashrc" := Dir {[ stamp :=
                    Dir {[ "bashrc" := File "alias l=ls" ]} ]};
                  "for-git" := Dir {[ "bashrc" := File "alias l=ls" ]} ]} ]})
    [] [] 0 0.

End MoreSamples.

(** ** Notions used in the statements on the prompt *)

Module PromptNotions.

(** The two messages with which the prompt rejects a line. *)
Definition is_complaint (e : event) : bool :=
  match e with
  | NoValidNumber | ValidNumbersOnly => true
  | _ => false
  end.

Definition complaints (evs : list event) : nat :=
  length (filter (λ e, is_complaint e = true) evs).

End PromptNotions.
Export PromptNotions.

(** ** The menu: listing the items, the history and the main loop

    The functions of the menu print their own messages; these are kept in
    the [screen] of a session, beside the home directory (with what the
    backup functions print), the lines of the standard input that were not
    read yet and the number of times the clock was read.  The rules, the
    headings above the lists and the hints of the prompt, which say nothing
    of the state, are left out.  The file sizes of the history are kept in
    bytes, as [show_backup_history] sums them up, before it prints them in
    megabytes.  [KeyboardInterrupt], which can come at any time, is not
    modelled. *)

Module Menu.
Import Text Selection Backup.

(** [sorted(...)] on the entries of one directory. *)
Definition name_le (a b : string) : Prop := String.leb a b = true.

#[export] Instance name_le_dec : RelDecision name_le.
Proof. intros a b. unfold name_le. apply _. Defined.

Definition sorted_asc (l : list string) : list string := merge_sort name_le l.

Inductive notice :=
| ConfigNotFound                  (* .config directory not found! *)
| ConfigNoPermission              (* No permission to access .config *)
| ItemLine (idx : Z) (is_dir : bool) (item : string)
                                  (* {idx:3d}. {item_type} {item} *)
| NoBackupsYet                    (* No backups yet! *)
| ProgramLine (name : string)     (* {program_folder.name}: *)
| BackupLine (name : string) (size : nat)
                                  (* {backup.name} ({size_mb:.2f} MB) *)
| ForGitHeader                    (* for-git/ folder: *)
| ForGitLine (is_dir : bool) (name : string) (size : nat)
                                  (* {item_type} {item.name} ({size_mb:.2f} MB) *)
| Goodbye                         (* Goodbye! *)
| UnexpectedError (e : exn).      (* Unexpected error: {e} *)

Record session := Session {
  home : state;
  screen : list notice;
  stdin : list string;
  ticks : nat;
}.

Definition U (A : Type) : Type := session → res A * session.

#[export] Instance U_ret : MRet U := λ A a ss, (Ret a, ss).
#[export] Instance U_bind : MBind U := λ A B f m ss,
  match m ss with
  | (Ret a, ss') => f a ss'
  | (Raise e, ss') => (Raise e, ss')
  end.

(** A backup function or a call of [pathlib], run in the session. *)
Definition lift {A} (m : M A) : U A := λ ss,
  let '(r, s') := m (home ss) in
  (r, Session s' (screen ss) (stdin ss) (ticks ss)).

Definition raise_u {A} (e : exn) : U A := λ ss, (Raise e, ss).

Definition try_u {A} (body : U A) (handler : exn → U A) : U A := λ ss,
  match body ss with
  | (Ret a, ss') => (Ret a, ss')
  | (Raise e, ss') => handler e ss'
  end.

Definition say (n : notice) : U unit := λ ss,
  (Ret tt, Session (home ss) (screen ss ++ [n]) (stdin ss) (ticks ss)).

(** [input(...)]: the next line, [EOFError] at the end of the input. *)
Definition input : U string := λ ss,
  match stdin ss with
  | [] => (Raise EOFError, ss)
  | line :: rest => (Ret line, Session (home ss) (screen ss) rest (ticks ss))
  end.

Fixpoint for_each_u {A} (l : list A) (body : A → U unit) : U unit :=
  match l with
  | [] => mret tt
  | x :: l' => body x ;; for_each_u l' body
  end.

(** [get_config_items()] *)
Definition get_config_items : U (list string) :=
  found ← lift (exists_ config_path);
  if negb found then
    say ConfigNotFound;;
    mret []
  else
    try_u
      (names ← lift (iterdir config_path);
       mret (sorted_asc names))
      (λ e,
         match e with
         | PermissionError => say ConfigNoPermission;; mret []
         | _ => raise_u e
         end).

(** [enumerate(items, 1)] *)
Definition enumerate_from_1 (items : list string) : list (Z * string) :=
  imap (λ i item, (Z.of_nat i + 1, item)) items.

(** [display_items(items)] *)
Definition display_items (items : list string) : U unit :=
  for_each_u (enumerate_from_1 items) (λ '(idx, item),
    d ← lift (is_dir (config_path ++ [item]));
    say (ItemLine idx d item)).

(** The bytes of the files in an entry. *)
Fixpoint total_size (n : node) : nat :=
  match n with
  | File data => String.length data
  | Dir es => map_fold (λ _ c acc, total_size c + acc)%nat 0%nat es
  end.

(** [sum(f.stat().st_size for f in p.rglob('*') if f.is_file())]: [rglob]
    yields what lies below a directory, and nothing for a file. *)
Definition rglob_size (p : path) : M nat := λ s,
  (Ret match fs_get (tree s) p with
       | Some (Dir es) => total_size (Dir es)
       | _ => 0%nat
       end, s).

(** [show_backup_history()] *)
Definition show_backup_history : U unit :=
  found ← lift (exists_ dotfiles_path);
  if negb found then say NoBackupsYet
  else
    folders ← lift (iterdir dotfiles_path);
    for_each_u (sorted_asc folders) (λ name,
      let program_folder := dotfiles_path ++ [name] in
      d ← lift (is_dir program_folder);
      if d && bool_decide (name ≠ "for-git") then
        entries ← lift (iterdir program_folder);
        let backups := sorted_desc entries in
        match backups with
        | [] => mret tt
        | _ =>
            say (ProgramLine name);;
            for_each_u (take 5 backups) (λ backup,
              size ← lift (rglob_size (program_folder ++ [backup]));
              say (BackupLine backup size))
        end
      else mret tt);;
    (* Show for-git status *)
    found ← lift (exists_ for_git_path);
    if found : bool then
      say ForGitHeader;;
      entries ← lift (iterdir for_git_path);
      for_each_u (sorted_asc entries) (λ item,
        size ← lift (rglob_size (for_git_path ++ [item]));
        d ← lift (is_dir (for_git_path ++ [item]));
        say (ForGitLine d item size))
    else mret tt.

Section Main.

(** The builtin [int], and the time stamp that [datetime.now().strftime]
    gives at its n-th call. *)
Variable int : string → option Z.
Variable now : nat → string.

(** [get_user_selection(max_num)] on the input of the session. *)
Definition prompt (max_num : Z) : U selection := λ ss,
  let '(r, evs, rest) := get_user_selection int max_num (stdin ss) in
  let h := home ss in
  (r, Session (State (tree h) (frozen h) (out h ++ evs) (success_count h)
                 (fail_count h))
        (screen ss) rest (ticks ss)).

Definition strftime_now : U string := λ ss,
  (Ret (now (ticks ss)),
   Session (home ss) (screen ss) (stdin ss) (S (ticks ss))).

(** One round of the [while True] loop of [main]: [false] stands for
    [break], [true] for the next round. *)
Definition round (items : list string) : U bool :=
  display_items items;;
  selected ← prompt (Z.of_nat (length items));
  match selected with
  | Quit =>
      say Goodbye;;
      mret false
  | History =>
      show_backup_history;;
      mret true
  | Numbers selected_indices =>
      timestamp ← strftime_now;
      lift (backup_items items selected_indices timestamp);;
      choice ← input;
      if decide (lower (strip choice) = "y") then mret true
      else
        say Goodbye;;
        mret false
  end.

(** The loop, for at most [fuel] rounds; [None] when the rounds are used
    up. *)
Fixpoint main_loop (fuel : nat) (items : list string) (ss : session)
  : option (res unit * session) :=
  match fuel with
  | O => None
  | S fuel' =>
      match round items ss with
      | (Ret true, ss') => main_loop fuel' items ss'
      | (Ret false, ss') => Some (Ret tt, ss')
      | (Raise e, ss') => Some (Raise e, ss')
      end
  end.

(** [main()] *)
Definition main (fuel : nat) (ss : session) : option (res unit * session) :=
  match get_config_items ss with
  | (Ret [], ss') => Some (Ret tt, ss')
  | (Ret items, ss') => main_loop fuel items ss'
  | (Raise e, ss') => Some (Raise e, ss')
  end.

(** The script: [main()] under [except Exception as e]. *)
Definition script (fuel : nat) (ss : session) : option session :=
  match main fuel ss with
  | Some (Ret _, ss') => Some ss'
  | Some (Raise e, ss') => Some (say (UnexpectedError e) ss').2
  | None => None
  end.

End Main.

End Menu.

(** ** Notions used in the statements on the menu *)

Module MenuNotions.
Import Backup Menu.

(** A relation between the session before a run and the session after it
    that the program keeps. *)
Definition keeps (R : session → session → Prop) {A} (m : U A) : Prop :=
  ∀ ss r ss', m ss = (r, ss') → R ss ss'.

(** Names in strict ascending order. *)
Definition strict_asc (l : list string) : Prop :=
  StronglySorted (λ a b, name_gt b a) l.

(** The exceptions that stand for a failed call of the operating system. *)
Definition os_error (e : exn) : Prop :=
  e ∈ [PermissionError; FileExistsError; FileNotFoundError;
       NotADirectoryError; IsADirectoryError].

(** The end of the input, or a failed call of the operating system. *)
Definition input_or_os_error (e : exn) : Prop := e = EOFError ∨ os_error e.

(** The only exceptions a program lets out satisfy [P]. *)
Definition raises_only (P : exn → Prop) {A} (m : M A) : Prop :=
  ∀ s e s', m s = (Raise e, s') → P e.

Definition lets_out (P : exn → Prop) {A} (m : U A) : Prop :=
  ∀ ss e ss', m ss = (Raise e, ss') → P e.

(** Nothing changed in the home directory outside of [~/dotfiles]. *)
Definition outside_dotfiles (ss ss' : session) : Prop :=
  ∀ x q, x ≠ "dotfiles" →
    fs_get (tree (home ss')) (x :: q) = fs_get (tree (home ss)) (x :: q).

(** The session after some lines were printed on the screen. *)
Definition with_lines (lines : list notice) (ss : session) : session :=
  Session (home ss) (screen ss ++ lines) (stdin ss) (ticks ss).







End MenuNotions.

(** ** Sample sessions *)

Module MenuSamples.
Import Text Backup Samples MoreSamples Menu.

(** The user asks for the second item and then stops; the clock shows
    [stamp]. *)
Definition one_backup : session := Session fresh [] ["2"; "n"] 0.

Definition after_one_backup : session :=
  match main int_ascii (λ _, stamp) 3 one_backup with
  | Some (_, ss') => ss'
  | None => one_backup
  end.


End MenuSamples.

(** * Properties *)

(** ** The order on names *)

Module OrderFacts.

Lemma ascii_compare_refl a : Ascii.compare a a = Eq.
Proof. unfold Ascii.compare. apply N.compare_refl. Qed.

Lemma ascii_compare_lt_trans a b c :
  Ascii.compare a b = Lt → Ascii.compare b c = Lt → Ascii.compare a c = Lt.
Proof. unfold Ascii.compare. rewrite !N.compare_lt_iff. lia. Qed.

Lemma string_compare_refl s : String.compare s s = Eq.
Proof.
  induction s as [|c s IH]; simpl; [done|]. by rewrite ascii_compare_refl.
Qed.

Lemma string_compare_lt_trans a : ∀ b c,
  String.compare a b = Lt → String.compare b c = Lt → String.compare a c = Lt.
Proof.
  induction a as [|x a IH]; intros [|y b] [|z c]; simpl; try done.
  destruct (Ascii.compare x y) eqn:Hxy; try done.
  - apply Ascii.compare_eq_iff in Hxy as ->.
    destruct (Ascii.compare y z); try done. apply IH.
  - intros _. destruct (Ascii.compare y z) eqn:Hyz; try done.
    + apply Ascii.compare_eq_iff in Hyz as <-. by rewrite Hxy.
    + by rewrite (ascii_compare_lt_trans _ _ _ Hxy Hyz).
Qed.

Lemma name_ge_spec a b : name_ge a b ↔ name_gt a b ∨ a = b.
Proof.
  unfold name_ge, name_gt, String.leb, String.ltb.
  destruct (String.compare b a) eqn:E.
  - split; [|done]. intros _. right. symmetry. by apply String.compare_eq_iff.
  - split; auto.
  - split; [done|]. intros [?| ->]; [done|].
    by rewrite string_compare_refl in E.
Qed.

Lemma name_gt_irrefl a : ¬ name_gt a a.
Proof. unfold name_gt, String.ltb. by rewrite string_compare_refl. Qed.

#[global] Instance name_gt_trans : Transitive name_gt.
Proof.
  intros a b c. unfold name_gt, String.ltb.
  destruct (String.compare b a) eqn:E1; try done.
  destruct (String.compare c b) eqn:E2; try done.
  by rewrite (string_compare_lt_trans _ _ _ E2 E1).
Qed.

Lemma name_gt_asym a b : name_gt a b → name_gt b a → False.
Proof. intros H1 H2. apply (name_gt_irrefl a). by etrans. Qed.

#[global] Instance name_ge_trans : Transitive name_ge.
Proof.
  intros a b c. rewrite !name_ge_spec.
  intros [H1| ->] [H2| ->]; auto. left. by etrans.
Qed.

#[global] Instance name_ge_total : Total name_ge.
Proof. intros a b. unfold name_ge. destruct (String.leb_total a b); auto. Qed.

#[global] Instance name_ge_antisym : AntiSymm eq name_ge.
Proof. intros a b H1 H2. unfold name_ge in *. by apply String.leb_antisym. Qed.

Lemma name_ge_refl a : name_ge a a.
Proof. apply name_ge_spec. by right. Qed.

Lemma sorted_desc_sorted l : StronglySorted name_ge (sorted_desc l).
Proof. apply StronglySorted_merge_sort; apply _. Qed.

Lemma sorted_desc_perm l : sorted_desc l ≡ₚ l.
Proof. apply merge_sort_Permutation. Qed.

Lemma sorted_desc_elem x l : x ∈ sorted_desc l ↔ x ∈ l.
Proof. by rewrite sorted_desc_perm. Qed.

Lemma sorted_desc_length l : length (sorted_desc l) = length l.
Proof. by rewrite sorted_desc_perm. Qed.

Lemma sorted_desc_NoDup l : NoDup l → NoDup (sorted_desc l).
Proof. by rewrite sorted_desc_perm. Qed.

(** A list sorted newest first is left as it is. *)
Lemma sorted_desc_id l : StronglySorted name_ge l → sorted_desc l = l.
Proof.
  intros Hl. eapply (StronglySorted_unique name_ge); eauto.
  - apply sorted_desc_sorted.
  - apply sorted_desc_perm.
Qed.

(** The listing depends on the set of names only. *)
Lemma sorted_desc_ext l1 l2 : l1 ≡ₚ l2 → sorted_desc l1 = sorted_desc l2.
Proof.
  intros Hp. apply (StronglySorted_unique name_ge); try apply sorted_desc_sorted.
  by rewrite !sorted_desc_perm.
Qed.

End OrderFacts.
Export OrderFacts.

(** ** Retention policy *)

Module Retention.
Import Backup.

Lemma backups_to_delete_drop backups :
  backups_to_delete backups = drop MAX_BACKUPS backups.
Proof.
  unfold backups_to_delete. case_match; [done|].
  symmetry. apply drop_ge. apply Nat.ltb_ge in H. lia.
Qed.

(** C2. Eviction selection is a function of the newest-first list alone: it
    selects exactly the elements at index [MAX_BACKUPS] and above, that is
    [max 0 (len - MAX_BACKUPS)] generations; the first [MAX_BACKUPS] are
    kept; nothing is selected when [len <= MAX_BACKUPS]; and on the listing
    [sorted_desc names] every selected generation is at most as recent as
    every kept one. *)
Theorem eviction_selects_oldest (backups names : list string) :
  (∀ i : nat, backups_to_delete backups !! i = backups !! (MAX_BACKUPS + i)%nat)
  ∧ Z.of_nat (length (backups_to_delete backups))
    = Z.max 0 (Z.of_nat (length backups) - Z.of_nat MAX_BACKUPS)
  ∧ backups = take MAX_BACKUPS backups ++ backups_to_delete backups
  ∧ ((length backups ≤ MAX_BACKUPS)%nat → backups_to_delete backups = [])
  ∧ (∀ kept old,
       kept ∈ take MAX_BACKUPS (sorted_desc names) →
       old ∈ backups_to_delete (sorted_desc names) →
       name_ge kept old).
Proof.
  rewrite !backups_to_delete_drop. repeat split.
  - intros i. apply lookup_drop.
  - rewrite length_drop. lia.
  - by rewrite take_drop.
  - intros Hlen. by apply drop_ge.
  - intros kept old Hk Ho.
    eapply (StronglySorted_app_1_elem_of name_ge); [|exact Hk|exact Ho].
    rewrite take_drop. apply sorted_desc_sorted.
Qed.

End Retention.

(** ** The selection prompt *)

Module SelectionFacts.
Import Text Selection.

Section WithInt.
Variable int : string → option Z.

Lemma collect_spec max_num parts : ∀ numbers,
  collect int max_num parts numbers =
    ((if all_ints int parts
      then Ret (numbers ++ filter (in_range max_num) (leading_ints int parts))
      else Raise ValueError),
     OutOfRange <$> filter (λ n, ¬ in_range max_num n) (leading_ints int parts)).
Proof.
  induction parts as [|part parts IH]; intros numbers; simpl.
  { by rewrite app_nil_r. }
  unfold all_ints in *. simpl. destruct (int part) as [num|] eqn:Hint; simpl.
  2: done.
  destruct ((1 <=? num) && (num <=? max_num)) eqn:Hr.
  - assert (in_range max_num num) as Hin by (unfold in_range; lia).
    rewrite IH, filter_cons_True by done.
    rewrite filter_cons_False by tauto.
    by rewrite <-app_assoc.
  - assert (¬ in_range max_num num) as Hout by (unfold in_range; lia).
    rewrite IH, filter_cons_False by done.
    by rewrite filter_cons_True by done.
Qed.

Lemma get_user_selection_line max_num line stdin :
  ¬ is_command line →
  get_user_selection int max_num (line :: stdin) =
    match collect int max_num (tokens line) [] with
    | (Ret (num :: numbers), evs) =>
        (Ret (Numbers (num :: numbers)), evs, stdin)
    | (Ret [], evs) =>
        let '(r, evs', rest) := get_user_selection int max_num stdin in
        (r, evs ++ NoValidNumber :: evs', rest)
    | (Raise ValueError, evs) =>
        let '(r, evs', rest) := get_user_selection int max_num stdin in
        (r, evs ++ ValidNumbersOnly :: evs', rest)
    | (Raise e, evs) => (Raise e, evs, stdin)
    end.
Proof.
  intros Hc. unfold is_command in Hc. simpl.
  repeat case_decide; try done; exfalso; apply Hc; set_solver.
Qed.

(** C7 (amended). On a line that is not a command, every token that is an
    integer out of range is reported for itself and the parse goes on: when
    all tokens are integers, the indices in range are returned, in the order
    given; when none is in range the prompt asks again.  A token that [int]
    rejects ends the parse of the line: the reports printed so far stay, one
    message for the whole line follows, the indices already read are dropped
    and the prompt asks again. *)
Theorem out_of_range_reported_per_token max_num line stdin :
  ¬ is_command line →
  get_user_selection int max_num (line :: stdin) =
    let nums := leading_ints int (tokens line) in
    let reports := OutOfRange <$> filter (λ n, ¬ in_range max_num n) nums in
    let again (msg : event) :=
      let '(r, evs, rest) := get_user_selection int max_num stdin in
      (r, reports ++ msg :: evs, rest) in
    if all_ints int (tokens line) then
      match filter (in_range max_num) nums with
      | [] => again NoValidNumber
      | accepted => (Ret (Numbers accepted), reports, stdin)
      end
    else again ValidNumbersOnly.
Proof.
  intros Hc. rewrite get_user_selection_line by done.
  rewrite collect_spec. simpl.
  destruct (all_ints int (tokens line)); [|done].
  by destruct (filter (in_range max_num) (leading_ints int (tokens line))).
Qed.

Lemma collect_in_range max_num parts numbers r evs :
  collect int max_num parts numbers = (Ret r, evs) →
  Forall (in_range max_num) numbers → Forall (in_range max_num) r.
Proof.
  rewrite collect_spec. destruct (all_ints int parts); [|done].
  intros [= <- _] Hn. apply Forall_app. split; [done|].
  apply Forall_forall. intros x. by rewrite list_elem_of_filter; intros [? _].
Qed.

Lemma index_in_range (items : list string) idx :
  in_range (Z.of_nat (length items)) idx →
  ∃ x, py_index items (idx - 1) = Ret x ∧ items !! Z.to_nat (idx - 1) = Some x.
Proof.
  unfold in_range. intros Hidx.
  destruct (lookup_lt_is_Some_2 items (Z.to_nat (idx - 1))) as [x Hx]; [lia|].
  exists x. split; [|done]. unfold py_index.
  replace (idx - 1 <? 0) with false by lia.
  replace ((0 <=? idx - 1) && (idx - 1 <? Z.of_nat (length items))) with true by lia.
  by rewrite Hx.
Qed.

(** C8 (amended). For [max_num >= 1], as [main] calls it (it returns before
    the prompt when [items] is empty): a list returned by
    [get_user_selection] is not empty, every number [n] in it satisfies
    [1 <= n <= max_num], and [items[n - 1]] is an element of [items] at a
    position that is not negative, for every list [items] of [max_num]
    entries. *)
Theorem selection_indexes_items max_num stdin numbers evs rest (items : list string) :
  1 ≤ max_num →
  Z.of_nat (length items) = max_num →
  get_user_selection int max_num stdin = (Ret (Numbers numbers), evs, rest) →
  numbers ≠ []
  ∧ Forall (λ n, 1 ≤ n ≤ max_num) numbers
  ∧ Forall (λ n, ∃ x, py_index items (n - 1) = Ret x
                      ∧ items !! Z.to_nat (n - 1) = Some x) numbers.
Proof.
  intros Hmax Hlen Hsel.
  assert (numbers ≠ [] ∧ Forall (in_range max_num) numbers) as [Hne Hall].
  { revert evs Hsel. induction stdin as [|line stdin' IH]; intros evs; simpl; [done|].
    repeat case_decide; try done.
    - intros [= <- _ _]. split.
      + intros Heq. apply (f_equal length) in Heq. rewrite length_seqZ in Heq. simpl in Heq. lia.
      + apply Forall_seqZ. unfold in_range. lia.
    - destruct (collect int max_num _ []) as [[[|num nums]|e] evs0] eqn:Hcol.
      + destruct (get_user_selection int max_num stdin') as [[r evs'] rest'].
        intros [= -> _ ->]. by apply (IH evs').
      + intros [= <- _ _]. split; [done|].
        eapply collect_in_range; [exact Hcol|done].
      + destruct e; try done.
        destruct (get_user_selection int max_num stdin') as [[r evs'] rest'].
        intros [= -> _ ->]. by apply (IH evs'). }
  repeat split; [done|done|].
  eapply Forall_impl; [exact Hall|]. intros n Hn. apply index_in_range.
  by rewrite Hlen.
Qed.

End WithInt.

Lemma out_of_range_reported_per_token_witness :
  ¬ is_command "9, 2 7"
  ∧ get_user_selection int_ascii 3 ["9, 2 7"; "q"]
    = (Ret (Numbers [2]), [OutOfRange 9; OutOfRange 7], ["q"]).
Proof.
  assert (¬ is_command "9, 2 7") as H.
  { apply (bool_decide_eq_false_1 _). vm_compute. reflexivity. }
  split; [exact H|].
  rewrite (out_of_range_reported_per_token int_ascii 3 "9, 2 7" ["q"] H).
  vm_compute. reflexivity.
Defined.

(** C7, as stated, fails: [1] is a valid index on the line [1 x], yet the
    token [x] makes the prompt drop the whole line with one message, and the
    next line is read. *)
Lemma valid_index_lost_on_bad_token :
  int_ascii "1" = Some 1 ∧ in_range 3 1 ∧ int_ascii "x" = None
  ∧ get_user_selection int_ascii 3 ["1 x"; "q"]
    = (Ret Quit, [ValidNumbersOnly], []).
Proof. unfold in_range. repeat split; try lia; vm_compute; reflexivity. Qed.

Lemma selection_indexes_items_witness :
  1 ≤ 3
  ∧ Z.of_nat (length ["alacritty"; "bashrc"; "nvim"]) = 3
  ∧ get_user_selection int_ascii 3 ["3, 1"]
    = (Ret (Numbers [3; 1]), [], [])
  ∧ [3; 1] ≠ []
  ∧ Forall (λ n, 1 ≤ n ≤ 3) [3; 1]
  ∧ Forall (λ n, ∃ x, py_index ["alacritty"; "bashrc"; "nvim"] (n - 1) = Ret x
                      ∧ ["alacritty"; "bashrc"; "nvim"] !! Z.to_nat (n - 1) = Some x)
      [3; 1].
Proof.
  assert (1 ≤ 3) as H1 by lia.
  assert (Z.of_nat (length ["alacritty"; "bashrc"; "nvim"]) = 3) as H2
    by reflexivity.
  assert (get_user_selection int_ascii 3 ["3, 1"]
          = (Ret (Numbers [3; 1]), [], [])) as H3 by (vm_compute; reflexivity).
  split; [exact H1|]. split; [exact H2|]. split; [exact H3|].
  apply (selection_indexes_items int_ascii 3 ["3, 1"] [3; 1] [] []
             ["alacritty"; "bashrc"; "nvim"] H1 H2 H3).
Defined.

(** C8, as stated, fails for [max_num = 0]: the answer [all] returns the
    empty list. *)
Lemma all_of_nothing_is_empty :
  get_user_selection int_ascii 0 ["all"] = (Ret (Numbers []), [], []).
Proof. vm_compute. reflexivity. Qed.

End SelectionFacts.

(** ** Paths and trees *)

Module TreeFacts.

Lemma diverge_sym p : ∀ q, diverge p q = diverge q p.
Proof.
  induction p as [|x p IH]; intros [|y q]; simpl; try done.
  repeat case_decide; subst; done.
Qed.

Lemma diverge_app_l p r : ∀ q, diverge p q = true → diverge (p ++ r) q = true.
Proof.
  induction p as [|x p IH]; intros [|y q]; simpl; try done.
  case_decide; auto.
Qed.

Lemma diverge_app_r p q r : diverge p q = true → diverge p (q ++ r) = true.
Proof. rewrite !(diverge_sym p). apply diverge_app_l. Qed.

Lemma diverge_below p : ∀ q, diverge p q = true → below p q = None.
Proof.
  induction p as [|x p IH]; intros [|y q]; simpl; try done.
  case_decide; auto.
Qed.

Lemma below_app p r : below p (p ++ r) = Some r.
Proof. induction p as [|x p IH]; simpl; [done|]. by rewrite decide_True. Qed.

Lemma below_Some p : ∀ q r, below p q = Some r → q = p ++ r.
Proof.
  induction p as [|x p IH]; intros [|y q] r; simpl; try by intros [= ->].
  case_decide; [|done]. subst. intros ?. f_equal. by apply IH.
Qed.

(** A path that is not at or below [p] and that [p] is not below parts
    from [p]. *)
Lemma below_None_diverge p : ∀ q,
  below p q = None → below q p = None → diverge p q = true.
Proof.
  induction p as [|x p IH]; intros [|y q]; simpl; try done.
  repeat case_decide; subst; try done. apply IH.
Qed.

Lemma parent_snoc (p : path) x : parent (p ++ [x]) = p.
Proof. unfold parent. by rewrite removelast_last. Qed.

Lemma basename_snoc (p : path) x : basename (p ++ [x]) = x.
Proof. unfold basename. by rewrite last_last. Qed.

Lemma fs_get_app n p q : fs_get n (p ++ q) = fs_get n p ≫= λ m, fs_get m q.
Proof.
  revert n. induction p as [|x p IH]; intros n; simpl; [done|].
  destruct n as [|es]; [done|]. destruct (es !! x); simpl; [apply IH|done].
Qed.

Lemma fs_get_file data p : p ≠ [] → fs_get (File data) p = None.
Proof. by destruct p. Qed.

Lemma fs_get_empty p : p ≠ [] → fs_get (Dir ∅) p = None.
Proof. destruct p; [done|]. intros _. simpl. by rewrite lookup_empty. Qed.

(** Below an entry that is missing, everything is missing. *)
Lemma fs_get_below_None n p r : fs_get n p = None → fs_get n (p ++ r) = None.
Proof. intros H. by rewrite fs_get_app, H. Qed.

(** An entry that has something below it is a directory. *)
Lemma fs_get_above_dir n p r m :
  r ≠ [] → fs_get n (p ++ r) = Some m → ∃ es, fs_get n p = Some (Dir es).
Proof.
  rewrite fs_get_app. destruct (fs_get n p) as [[d|es]|]; simpl; try done.
  - intros Hr. by rewrite fs_get_file.
  - eauto.
Qed.

Lemma fs_get_install_eq p c : ∀ n n',
  fs_install p c n = Some n' → fs_get n' p = Some c.
Proof.
  induction p as [|x p IH]; intros n n'; simpl; [by intros [= ->]|].
  destruct n as [|es]; [done|].
  destruct (fs_install p c _) as [m|] eqn:Hm; simpl; [|done].
  intros [= <-]. simpl. rewrite lookup_insert_eq. simpl. by eapply IH.
Qed.

Lemma fs_get_install_diverge p c : ∀ q n n',
  fs_install p c n = Some n' → diverge p q = true → fs_get n' q = fs_get n q.
Proof.
  induction p as [|x p IH]; intros [|y q] n n'; simpl; try done.
  destruct n as [|es]; [done|].
  destruct (fs_install p c _) as [m|] eqn:Hm; simpl; [|done].
  intros [= <-]. simpl. case_decide as Hxy.
  - subst y. intros Hd. rewrite lookup_insert_eq. simpl.
    rewrite (IH _ _ _ Hm Hd).
    destruct (es !! x); simpl; [done|].
    destruct q; [by destruct p|]. simpl. by rewrite lookup_empty.
  - intros _. by rewrite lookup_insert_ne.
Qed.

(** Installing below an entry that is there rewrites that entry. *)
Lemma fs_install_app p r c : ∀ n m,
  fs_get n p = Some m →
  fs_install (p ++ r) c n = fs_install r c m ≫= λ m', fs_install p m' n.
Proof.
  induction p as [|x p IH]; intros n m; simpl.
  { intros [= ->]. by destruct (fs_install r c m). }
  destruct n as [|es]; [done|].
  destruct (es !! x) as [k|] eqn:Hk; simpl; [|done].
  intros Hm. rewrite (IH _ _ Hm).
  by destruct (fs_install r c m).
Qed.

(** An entry that is there can be replaced. *)
Lemma fs_install_replace p c : ∀ n m,
  fs_get n p = Some m → is_Some (fs_install p c n).
Proof.
  induction p as [|x p IH]; intros n m; simpl; [eauto|].
  destruct n as [|es]; [done|].
  destruct (es !! x) as [k|] eqn:Hk; simpl; [|done].
  intros Hm. destruct (IH _ _ Hm) as [k' ->]. simpl. eauto.
Qed.

(** A new entry can be put into a directory that is there. *)
Lemma fs_install_child p x c n es :
  fs_get n p = Some (Dir es) → is_Some (fs_install (p ++ [x]) c n).
Proof.
  intros Hp. rewrite (fs_install_app _ _ _ _ _ Hp). simpl.
  eapply fs_install_replace, Hp.
Qed.

Lemma fs_get_install_above p r c n n' :
  r ≠ [] → fs_install (p ++ r) c n = Some n' → OS.dir_at n' p = true.
Proof.
  intros Hr Hi. apply fs_get_install_eq in Hi.
  destruct (fs_get_above_dir _ _ _ _ Hr Hi) as [es Hes].
  unfold dir_at. by rewrite Hes.
Qed.

Lemma fs_get_remove_eq p : ∀ n, p ≠ [] → fs_get (fs_remove p n) p = None.
Proof.
  induction p as [|x p IH]; intros n Hp; [done|]. simpl.
  destruct n as [|es]; [done|]. destruct p as [|y p].
  - simpl. by rewrite lookup_delete_eq.
  - simpl fs_get at 1. rewrite lookup_alter_eq.
    destruct (es !! x); simpl; [|done]. by apply IH.
Qed.

Lemma fs_get_remove_diverge p : ∀ q n,
  diverge p q = true → fs_get (fs_remove p n) q = fs_get n q.
Proof.
  induction p as [|x p IH]; intros [|y q] n; simpl; try done.
  destruct n as [|es]; [done|]. case_decide as Hxy.
  - subst y. intros Hd. destruct p as [|z p]; [by destruct q|].
    simpl fs_get. rewrite lookup_alter_eq.
    destruct (es !! x); simpl; [|done]. by apply IH.
  - intros _. destruct p as [|z p]; simpl.
    + by rewrite lookup_delete_ne.
    + by rewrite lookup_alter_ne.
Qed.

End TreeFacts.

(** ** The calls of the operating system *)

Module OSFacts.
Import TreeFacts Backup.

Lemma bind_unfold {A B} (f : A → M B) (m : M A) s :
  (m ≫= f) s = match m s with
               | (Ret a, s') => f a s'
               | (Raise e, s') => (Raise e, s')
               end.
Proof. reflexivity. Qed.

Lemma try_unfold {A} (body : M A) handler s :
  try_except body handler s = match body s with
                              | (Ret a, s') => (Ret a, s')
                              | (Raise e, s') => handler e s'
                              end.
Proof. reflexivity. Qed.

Lemma with_tree_id s : with_tree (tree s) s = s.
Proof. by destruct s. Qed.


(** A path that is not above [p] parts from [p] or lies strictly below it. *)
Lemma not_above_cases p : ∀ q,
  below q p = None → diverge p q = true ∨ ∃ r, r ≠ [] ∧ q = p ++ r.
Proof.
  induction p as [|x p IH]; intros [|y q]; simpl; try done.
  - intros _. right. by exists (y :: q).
  - case_decide as Hxy; [|rewrite decide_False by done; auto].
    subst y. rewrite decide_True by done. intros Hb.
    destruct (IH _ Hb) as [?|(r & ? & ->)]; [by left|right]. by exists r.
Qed.

(** A path that is not at or below [p] parts from [p] or lies strictly
    above it. *)
Lemma not_below_cases p q :
  below p q = None → diverge p q = true ∨ ∃ r, r ≠ [] ∧ p = q ++ r.
Proof.
  intros Hb. destruct (not_above_cases q p Hb) as [Hd|?]; [left|by right].
  by rewrite diverge_sym.
Qed.

Lemma dir_at_install_keep p c n n' q :
  fs_install p c n = Some n' → below p q = None →
  dir_at n q = true → dir_at n' q = true.
Proof.
  intros Hi Hb Hq. destruct (not_below_cases _ _ Hb) as [Hd|(r & Hr & ->)].
  - unfold dir_at in *. by rewrite (fs_get_install_diverge _ _ _ _ _ Hi Hd).
  - by eapply fs_get_install_above.
Qed.

Lemma fs_get_install_below p r c n n' :
  fs_install p c n = Some n' → fs_get n' (p ++ r) = fs_get c r.
Proof.
  intros Hi. by rewrite fs_get_app, (fs_get_install_eq _ _ _ _ Hi).
Qed.

Lemma fs_remove_cons x p es :
  p ≠ [] → fs_remove (x :: p) (Dir es) = Dir (alter (fs_remove p) x es).
Proof. by destruct p. Qed.

Lemma fs_get_remove_under p r : ∀ n m,
  r ≠ [] → fs_get n p = Some m →
  fs_get (fs_remove (p ++ r) n) p = Some (fs_remove r m).
Proof.
  induction p as [|x p IH]; intros n m Hr.
  { by intros [= ->]. }
  destruct n as [|es]; [done|]. intros Hm.
  simpl in Hm. destruct (es !! x) as [k|] eqn:Hk; simpl in Hm; [|done].
  rewrite <-app_comm_cons, fs_remove_cons by (by destruct p, r).
  simpl. rewrite lookup_alter_eq, Hk. simpl. by apply IH.
Qed.

Lemma fs_remove_dir r es : r ≠ [] → is_Dir (fs_remove r (Dir es)) = true.
Proof. destruct r as [|x [|y r]]; done. Qed.

Lemma dir_at_remove_keep p n q :
  below p q = None → dir_at n q = true → dir_at (fs_remove p n) q = true.
Proof.
  intros Hb Hq. destruct (not_below_cases _ _ Hb) as [Hd|(r & Hr & ->)].
  - unfold dir_at in *. by rewrite (fs_get_remove_diverge _ _ _ Hd).
  - unfold dir_at in *. destruct (fs_get n q) as [[|es]|] eqn:Hn; try done.
    rewrite (fs_get_remove_under _ _ _ _ Hr Hn).
    by destruct r as [|x [|y r]].
Qed.

Lemma present_below_remove p r n :
  p ≠ [] → fs_get (fs_remove p n) (p ++ r) = None.
Proof. intros Hp. apply fs_get_below_None. by apply fs_get_remove_eq. Qed.

(** *** [mkdir] *)

Lemma mkdir_Raise p s e s' : mkdir_exist_ok p s = (Raise e, s') → s' = s.
Proof.
  unfold mkdir_exist_ok, set_tree.
  repeat case_match; by intros [= <-].
Qed.

Lemma mkdir_Ret p s s' :
  mkdir_exist_ok p s = (Ret tt, s') →
  ∃ t, s' = with_tree t s
       ∧ dir_at t p = true
       ∧ (∀ q, below q p = None → fs_get t q = fs_get (tree s) q)
       ∧ (∀ q, dir_at (tree s) q = true → dir_at t q = true)
       ∧ (present (tree s) p = true → t = tree s).
Proof.
  unfold mkdir_exist_ok, set_tree.
  destruct (fs_get (tree s) p) as [[d|es]|] eqn:Hp; [done|..].
  { intros [= <-]. exists (tree s). rewrite with_tree_id. unfold dir_at.
    by rewrite Hp. }
  destruct (fs_get (tree s) (parent p)) as [[d|es]|]; try done.
  case_bool_decide; [done|].
  destruct (fs_install p (Dir ∅) (tree s)) as [t|] eqn:Hi; [|done].
  intros [= <-]. exists t. split; [done|]. split; [|split; [|split]].
  4:{ unfold present. by rewrite Hp. }
  - unfold dir_at. by rewrite (fs_get_install_eq _ _ _ _ Hi).
  - intros q Hq. destruct (not_above_cases _ _ Hq) as [Hd|(r & Hr & ->)].
    + by eapply fs_get_install_diverge.
    + rewrite (fs_get_install_below _ _ _ _ _ Hi), fs_get_empty by done.
      symmetry. by apply fs_get_below_None.
  - intros q Hq. eapply dir_at_install_keep; [done| |done].
    destruct (below p q) as [r|] eqn:Hb; [|done].
    apply below_Some in Hb as ->. unfold dir_at in Hq.
    by rewrite (fs_get_below_None _ _ _ Hp) in Hq.
Qed.

Lemma mkdir_ok p s :
  frozen s = [] → file_at (tree s) p = false →
  dir_at (tree s) (parent p) = true →
  ∃ s', mkdir_exist_ok p s = (Ret tt, s').
Proof.
  unfold mkdir_exist_ok, set_tree, file_at, dir_at. intros Hf Hp Hpar.
  destruct (fs_get (tree s) p) as [[d|es]|] eqn:Hget; try done; [eauto|].
  destruct (fs_get (tree s) (parent p)) as [[d|es]|] eqn:Hgp; try done.
  rewrite Hf. rewrite bool_decide_eq_false_2 by apply not_elem_of_nil.
  destruct p as [|x p _] using rev_ind; [done|].
  rewrite parent_snoc in Hgp.
  destruct (fs_install_child _ x (Dir ∅) _ _ Hgp) as [t ->]. eauto.
Qed.

(** *** [rmtree] and [unlink] *)

Lemma holds_frozen_none s p : frozen s = [] → holds_frozen s p = false.
Proof. unfold holds_frozen. by intros ->. Qed.

Lemma rmtree_Raise p s e s' : rmtree p s = (Raise e, s') → s' = s.
Proof. unfold rmtree, set_tree. repeat case_match; by intros [= <-]. Qed.

Lemma rmtree_Ret p s s' :
  rmtree p s = (Ret tt, s') →
  s' = with_tree (fs_remove p (tree s)) s ∧ dir_at (tree s) p = true.
Proof.
  unfold rmtree, set_tree, dir_at. repeat case_match; by intros [= <-].
Qed.

Lemma rmtree_ok p s :
  frozen s = [] → dir_at (tree s) p = true →
  rmtree p s = (Ret tt, with_tree (fs_remove p (tree s)) s).
Proof.
  unfold rmtree, dir_at. intros Hf Hp. rewrite holds_frozen_none by done.
  by destruct (fs_get (tree s) p) as [[]|].
Qed.

Lemma unlink_Raise p s e s' : unlink p s = (Raise e, s') → s' = s.
Proof. unfold unlink, set_tree. repeat case_match; by intros [= <-]. Qed.

Lemma unlink_Ret p s s' :
  unlink p s = (Ret tt, s') →
  s' = with_tree (fs_remove p (tree s)) s ∧ file_at (tree s) p = true.
Proof.
  unfold unlink, set_tree, file_at. repeat case_match; by intros [= <-].
Qed.

Lemma unlink_ok p s :
  frozen s = [] → file_at (tree s) p = true →
  unlink p s = (Ret tt, with_tree (fs_remove p (tree s)) s).
Proof.
  unfold unlink, file_at. intros -> Hp.
  rewrite bool_decide_eq_false_2 by apply not_elem_of_nil.
  by destruct (fs_get (tree s) p) as [[]|].
Qed.

(** *** [copytree] and [copy2] *)

Lemma creates_frozen_none s src dst : frozen s = [] → creates_frozen s src dst = false.
Proof. unfold creates_frozen. by intros ->. Qed.

Lemma copytree_Raise src dst s e s' : copytree src dst s = (Raise e, s') → s' = s.
Proof. unfold copytree, set_tree. repeat case_match; by intros [= <-]. Qed.

Lemma copytree_Ret src dst s s' :
  copytree src dst s = (Ret tt, s') →
  ∃ es t, fs_get (tree s) src = Some (Dir es)
          ∧ present (tree s) dst = false
          ∧ fs_install dst (Dir es) (tree s) = Some t
          ∧ s' = with_tree t s.
Proof.
  unfold copytree, set_tree.
  destruct (fs_get (tree s) src) as [[d|es]|]; try done.
  destruct (present (tree s) dst); [done|].
  destruct (fs_install dst (Dir es) (tree s)) as [t|] eqn:Hi; [|done].
  case_match; [done|]. intros [= <-]. by exists es, t.
Qed.

Lemma copytree_ok src dst s es t :
  frozen s = [] →
  fs_get (tree s) src = Some (Dir es) →
  present (tree s) dst = false →
  fs_install dst (Dir es) (tree s) = Some t →
  copytree src dst s = (Ret tt, with_tree t s).
Proof.
  unfold copytree. intros Hf -> -> ->. by rewrite creates_frozen_none.
Qed.

Lemma copy2_Raise src dst s e s' : copy2 src dst s = (Raise e, s') → s' = s.
Proof. unfold copy2, set_tree. repeat case_match; by intros [= <-]. Qed.

Lemma copy2_Ret src dst s s' :
  copy2 src dst s = (Ret tt, s') →
  ∃ data t,
    fs_get (tree s) src = Some (File data)
    ∧ fs_install (if dir_at (tree s) dst then dst ++ [basename src] else dst)
        (File data) (tree s) = Some t
    ∧ s' = with_tree t s.
Proof.
  unfold copy2, set_tree.
  destruct (fs_get (tree s) src) as [[data|es]|]; try done.
  repeat case_match; try done; intros [= <-]; eexists data, _; eauto.
Qed.

Lemma copy2_ok src dst s data :
  frozen s = [] →
  fs_get (tree s) src = Some (File data) →
  dir_at (tree s) dst = false →
  dir_at (tree s) (parent dst) = true →
  dst ≠ [] →
  ∃ t, fs_install dst (File data) (tree s) = Some t
       ∧ copy2 src dst s = (Ret tt, with_tree t s).
Proof.
  unfold copy2. intros Hf -> Hd Hp Hne. rewrite Hd, Hf.
  rewrite bool_decide_eq_false_2 by apply not_elem_of_nil.
  unfold dir_at in *.
  destruct (fs_get (tree s) (parent dst)) as [[|pes]|] eqn:Hpar; try done.
  destruct dst as [|x dst _] using rev_ind; [done|].
  rewrite parent_snoc in Hpar.
  destruct (fs_install_child _ x (File data) _ _ Hpar) as [t Ht].
  exists t. split; [done|]. rewrite Ht.
  by destruct (fs_get (tree s) (dst ++ [x])) as [[]|].
Qed.

(** *** Listing the generations *)

Lemma filter_m_is_dir (f : string → path) l s :
  filter_m (λ d, is_dir (f d)) l s
  = (Ret (filter (λ d, dir_at (tree s) (f d)) l), s).
Proof.
  induction l as [|x l IH]; [done|]. simpl.
  rewrite !bind_unfold. unfold is_dir at 1. rewrite bind_unfold, IH.
  unfold mret, M_ret. destruct (dir_at (tree s) (f x)) eqn:Hx.
  - rewrite filter_cons_True; [done|]. simpl. by rewrite Hx.
  - rewrite filter_cons_False; [done|]. simpl. rewrite Hx. simpl. tauto.
Qed.

Lemma list_backups_run item_name s :
  dir_at (tree s) (dotfiles_path ++ [item_name]) = true →
  list_backups (dotfiles_path ++ [item_name]) s
  = (Ret (generations (tree s) item_name), s).
Proof.
  unfold dir_at, list_backups, generations, iterdir. intros Hpf.
  rewrite bind_unfold.
  destruct (fs_get (tree s) (dotfiles_path ++ [item_name])) as [[|es]|] eqn:Hes;
    try done.
  rewrite bind_unfold, filter_m_is_dir. unfold mret, M_ret. do 3 f_equal.
  apply list_filter_iff. intros g. unfold dir_at.
  by rewrite fs_get_app, Hes.
Qed.

Lemma dir_at_child t (p : path) g :
  dir_at t (p ++ [g])
  = match fs_get t p with
    | Some (Dir es) => dir_at (Dir es) [g]
    | _ => false
    end.
Proof.
  unfold dir_at. rewrite fs_get_app.
  by destruct (fs_get t p) as [[|es]|].
Qed.

Lemma elem_generations t item_name g :
  g ∈ generations t item_name
  ↔ dir_at t (dotfiles_path ++ [item_name; g]) = true.
Proof.
  unfold generations.
  replace (dotfiles_path ++ [item_name; g])
    with ((dotfiles_path ++ [item_name]) ++ [g]) by by rewrite <-app_assoc.
  rewrite dir_at_child.
  destruct (fs_get t (dotfiles_path ++ [item_name])) as [[|es]|].
  - split; [by intros ?%elem_of_nil|done].
  - rewrite sorted_desc_elem, list_elem_of_filter. unfold dir_at. simpl.
    destruct (es !! g) as [n|] eqn:Hg; simpl.
    + split; [by intros [? _]; destruct n|]. intros Hn. split.
      * by rewrite Hn.
      * apply list_elem_of_fmap. exists (g, n). split; [done|].
        by apply elem_of_map_to_list.
    + split; [by intros [? _]|done].
  - split; [by intros ?%elem_of_nil|done].
Qed.

Lemma generations_NoDup t item_name : NoDup (generations t item_name).
Proof.
  unfold generations. destruct (fs_get t _) as [[|es]|]; try apply NoDup_nil_2.
  apply sorted_desc_NoDup, NoDup_filter, NoDup_fst_map_to_list.
Qed.

End OSFacts.

(** ** What a run leaves alone *)

Module Frames.
Import TreeFacts OSFacts Backup.

(** A relation between the state before and the state after that every step
    of a program keeps is kept by the program. *)
Section Respects.
Variable R : state → state → Prop.
Hypothesis R_refl : ∀ s, R s s.
Hypothesis R_trans : ∀ s1 s2 s3, R s1 s2 → R s2 s3 → R s1 s3.

Lemma respects_ret {A} (a : A) : respects R (mret a).
Proof. intros s r s' [= _ <-]. apply R_refl. Qed.

Lemma respects_raise {A} e : respects R (@raise A e).
Proof. intros s r s' [= _ <-]. apply R_refl. Qed.

Lemma respects_bind {A B} (m : M A) (f : A → M B) :
  respects R m → (∀ a, respects R (f a)) → respects R (m ≫= f).
Proof.
  intros Hm Hf s r s'. rewrite bind_unfold.
  destruct (m s) as [[a|e] s1] eqn:E.
  - intros Hfa. eapply R_trans; [by eapply Hm|by eapply Hf].
  - intros [= _ <-]. by eapply Hm.
Qed.

Lemma respects_try {A} (body : M A) handler :
  respects R body → (∀ e, respects R (handler e)) → respects R (try_except body handler).
Proof.
  intros Hm Hh s r s'. rewrite try_unfold.
  destruct (body s) as [[a|e] s1] eqn:E.
  - intros [= _ <-]. by eapply Hm.
  - intros Hhe. eapply R_trans; [by eapply Hm|by eapply Hh].
Qed.

Lemma respects_for_each {A} (l : list A) body :
  (∀ x, respects R (body x)) → respects R (for_each l body).
Proof.
  intros Hb. induction l as [|x l IH]; simpl.
  - apply respects_ret.
  - apply respects_bind; auto.
Qed.

Lemma respects_if {A} (b : bool) (m1 m2 : M A) :
  respects R m1 → respects R m2 → respects R (if b then m1 else m2).
Proof. by destruct b. Qed.

End Respects.

Lemma same_counts_refl s : same_counts s s.
Proof. by unfold same_counts. Qed.

Lemma same_counts_trans s1 s2 s3 :
  same_counts s1 s2 → same_counts s2 s3 → same_counts s1 s3.
Proof. unfold same_counts. intros (?&?&?) (?&?&?). repeat split; congruence. Qed.

Lemma same_outside_refl p s : same_outside p s s.
Proof. by intros q. Qed.

Lemma same_outside_trans p s1 s2 s3 :
  same_outside p s1 s2 → same_outside p s2 s3 → same_outside p s1 s3.
Proof. intros H1 H2 q Hq. by rewrite H2, H1. Qed.

Lemma same_outside_app p r s s' : same_outside (p ++ r) s s' → same_outside p s s'.
Proof. intros H q Hq. apply H. by apply diverge_app_l. Qed.

Lemma out_grows_refl s : out_grows s s.
Proof. by unfold out_grows. Qed.

Lemma out_grows_trans s1 s2 s3 : out_grows s1 s2 → out_grows s2 s3 → out_grows s1 s3.
Proof. unfold out_grows. by etrans. Qed.

#[local] Hint Resolve same_counts_refl same_counts_trans same_outside_refl
  same_outside_trans out_grows_refl out_grows_trans : frames.

Lemma tree_step_mkdir p : tree_step p (mkdir_exist_ok p).
Proof.
  intros s [[]|e] s' H.
  - apply mkdir_Ret in H as (t & -> & _ & Hq & _ & _). right. exists t.
    split; [done|]. intros q Hd. apply Hq. apply diverge_below.
    by rewrite diverge_sym.
  - left. by eapply mkdir_Raise.
Qed.

Lemma tree_step_rmtree p : tree_step p (rmtree p).
Proof.
  intros s [[]|e] s' H.
  - apply rmtree_Ret in H as [-> _]. right. eexists. split; [done|].
    intros q Hd. by apply fs_get_remove_diverge.
  - left. by eapply rmtree_Raise.
Qed.

Lemma tree_step_unlink p : tree_step p (unlink p).
Proof.
  intros s [[]|e] s' H.
  - apply unlink_Ret in H as [-> _]. right. eexists. split; [done|].
    intros q Hd. by apply fs_get_remove_diverge.
  - left. by eapply unlink_Raise.
Qed.

Lemma tree_step_copytree src p : tree_step p (copytree src p).
Proof.
  intros s [[]|e] s' H.
  - apply copytree_Ret in H as (es & t & _ & _ & Hi & ->). right. exists t.
    split; [done|]. intros q Hd. by eapply fs_get_install_diverge.
  - left. by eapply copytree_Raise.
Qed.

Lemma tree_step_copy2 src p : tree_step p (copy2 src p).
Proof.
  intros s [[]|e] s' H.
  - apply copy2_Ret in H as (data & t & _ & Hi & ->). right. exists t.
    split; [done|]. intros q Hd. eapply fs_get_install_diverge; [done|].
    destruct (dir_at (tree s) p); [by apply diverge_app_l|done].
  - left. by eapply copy2_Raise.
Qed.

Lemma tree_step_counts p m : tree_step p m → respects same_counts m.
Proof.
  intros Hm s r s' H.
  destruct (Hm _ _ _ H) as [->|(t & -> & _)]; by unfold same_counts.
Qed.

Lemma tree_step_outside p m : tree_step p m → respects (same_outside p) m.
Proof.
  intros Hm s r s' H.
  destruct (Hm _ _ _ H) as [->|(t & -> & Hq)]; [by intros q|].
  intros q Hd. by apply Hq.
Qed.

Lemma tree_step_out p m : tree_step p m → respects out_grows m.
Proof.
  intros Hm s r s' H.
  destruct (Hm _ _ _ H) as [->|(t & -> & _)]; by unfold out_grows.
Qed.

Lemma tree_step_below p r m : tree_step (p ++ r) m → tree_step p m.
Proof.
  intros Hm s res s' H. destruct (Hm _ _ _ H) as [->|(t & -> & Hq)]; [by left|].
  right. exists t. split; [done|]. intros q Hd. apply Hq.
  by apply diverge_app_l.
Qed.

Lemma print_counts e : respects same_counts (print e).
Proof. intros s r s' [= _ <-]. by unfold same_counts. Qed.

Lemma print_outside p e : respects (same_outside p) (print e).
Proof. intros s r s' [= _ <-]. by intros q. Qed.

Lemma print_out e : respects out_grows (print e).
Proof. intros s r s' [= _ <-]. by apply prefix_app_r. Qed.

Lemma query_respects R (m : M bool) :
  (∀ s, R s s) → (∀ s, ∃ b, m s = (Ret b, s)) → respects R m.
Proof. intros HR Hm s r s'. destruct (Hm s) as [b ->]. by intros [= _ <-]. Qed.

Lemma reads_exists p : reads (exists_ p).
Proof. by intros s r s' [= _ <-]. Qed.

Lemma reads_is_dir p : reads (is_dir p).
Proof. by intros s r s' [= _ <-]. Qed.

Lemma reads_is_file p : reads (is_file p).
Proof. by intros s r s' [= _ <-]. Qed.

Lemma reads_list_backups p : reads (list_backups p).
Proof.
  intros s r s'. unfold list_backups, iterdir. rewrite bind_unfold.
  destruct (fs_get (tree s) p) as [[|es]|]; try by intros [= _ <-].
  rewrite bind_unfold, filter_m_is_dir. by intros [= _ <-].
Qed.

Section Programs.
Variable R : state → state → Prop.
Hypothesis R_refl : ∀ s, R s s.
Hypothesis R_trans : ∀ s1 s2 s3, R s1 s2 → R s2 s3 → R s1 s3.
Hypothesis R_print : ∀ e, respects R (print e).
Variable p0 : path.
Hypothesis R_step : ∀ r m, tree_step (p0 ++ r) m → respects R m.

Lemma reads_respects {A} (m : M A) : reads m → respects R m.
Proof. intros Hm s r s' H. by rewrite (Hm _ _ _ H). Qed.

Lemma cleanup_respects : respects R (cleanup_old_backups p0).
Proof.
  unfold cleanup_old_backups.
  apply respects_bind; [done|apply reads_respects, reads_exists|].
  intros found. apply respects_if; [by apply respects_ret|].
  apply respects_bind; [done|apply reads_respects, reads_list_backups|].
  intros backups. apply respects_for_each; [done..|]. intros old.
  apply respects_try; [done|..].
  - apply respects_bind; [done| |intros _; apply R_print].
    apply (R_step [old]), tree_step_rmtree.
  - intros e. apply R_print.
Qed.

Lemma update_for_git_respects item_name source :
  p0 = for_git_path → respects R (update_for_git item_name source).
Proof.
  intros Hp0. unfold update_for_git.
  apply respects_bind; [done| |intros _].
  { apply (R_step []). rewrite app_nil_r, Hp0. apply tree_step_mkdir. }
  apply respects_bind; [done|apply reads_respects, reads_exists|].
  intros found. apply respects_bind; [done| |intros _].
  { apply respects_if; [|by apply respects_ret].
    apply respects_bind; [done|apply reads_respects, reads_is_dir|].
    intros d. rewrite <-Hp0.
    apply respects_if; apply (R_step [item_name]);
      [apply tree_step_rmtree|apply tree_step_unlink]. }
  apply respects_try; [done|..].
  - apply respects_bind; [done|apply reads_respects, reads_is_dir|].
    intros d. apply respects_bind; [done| |intros _].
    { rewrite <-Hp0.
      apply respects_if; apply (R_step [item_name]);
        [apply tree_step_copytree|apply tree_step_copy2]. }
    apply respects_bind; [done|apply R_print|]. intros _.
    by apply respects_ret.
  - intros e. apply respects_bind; [done|apply R_print|]. intros _.
    by apply respects_ret.
Qed.

End Programs.

Lemma cleanup_counts p : respects same_counts (cleanup_old_backups p).
Proof.
  apply cleanup_respects; eauto using print_counts with frames.
  intros r m. apply tree_step_counts.
Qed.

Lemma cleanup_outside p : respects (same_outside p) (cleanup_old_backups p).
Proof.
  apply cleanup_respects; eauto using print_outside with frames.
  intros r m Hm. eapply tree_step_outside, tree_step_below, Hm.
Qed.

Lemma cleanup_out p : respects out_grows (cleanup_old_backups p).
Proof.
  apply cleanup_respects; eauto using print_out with frames.
  intros r m. apply tree_step_out.
Qed.

Lemma update_for_git_counts item_name source :
  respects same_counts (update_for_git item_name source).
Proof.
  eapply update_for_git_respects; eauto using print_counts with frames.
  intros r m. apply tree_step_counts.
Qed.

Lemma update_for_git_outside item_name source :
  respects (same_outside for_git_path) (update_for_git item_name source).
Proof.
  eapply update_for_git_respects; eauto using print_outside with frames.
  intros r m Hm. eapply tree_step_outside, tree_step_below, Hm.
Qed.

Lemma update_for_git_out item_name source :
  respects out_grows (update_for_git item_name source).
Proof.
  eapply update_for_git_respects; eauto using print_out with frames.
  intros r m. apply tree_step_out.
Qed.

End Frames.

(** ** Creating a generation *)

Module Generation.
Import TreeFacts OSFacts Frames Backup.

Lemma mkdir_dir p s : dir_at (tree s) p = true → mkdir_exist_ok p s = (Ret tt, s).
Proof.
  unfold dir_at, mkdir_exist_ok. by destruct (fs_get (tree s) p) as [[]|].
Qed.

Lemma copytree_exists src dst s es :
  fs_get (tree s) src = Some (Dir es) → present (tree s) dst = true →
  copytree src dst s = (Raise FileExistsError, s).
Proof. unfold copytree. by intros -> ->. Qed.

Ltac paths :=
  unfold for_git_path, dotfiles_path, config_path in *; simpl app in *.

(** The copy of an item that does not end well leaves at most a new, empty
    time stamp folder behind. *)
Lemma copy_generation_failed source backup_folder destination s r s' :
  copy_generation source backup_folder destination s = (r, s') →
  r ≠ Ret true →
  ∃ t evs k,
    s' = State t (frozen s) (out s ++ evs) (success_count s) (fail_count s + k)
    ∧ Forall (λ e, e = ItemNotFound) evs
    ∧ (r = Ret false → k = 1%nat)
    ∧ ((∃ e, r = Raise e) → k = 0%nat)
    ∧ (t = tree s ∨ mkdir_exist_ok backup_folder s = (Ret tt, with_tree t s)).
Proof.
  unfold copy_generation. rewrite bind_unfold. unfold is_dir at 1.
  destruct (dir_at (tree s) source).
  { rewrite bind_unfold.
    destruct (copytree source destination s) as [[[]|e] s1] eqn:E1.
    - rewrite bind_unfold. unfold print at 1. by intros [= <- _] ?.
    - apply copytree_Raise in E1 as ->. intros [= <- <-] _.
      exists (tree s), [], 0%nat. rewrite app_nil_r, Nat.add_0_r.
      destruct s; repeat split; eauto; done. }
  rewrite bind_unfold. unfold is_file at 1.
  destruct (file_at (tree s) source).
  - rewrite bind_unfold.
    destruct (mkdir_exist_ok backup_folder s) as [[[]|e] s1] eqn:E1.
    + rewrite bind_unfold.
      destruct (copy2 source destination s1) as [[[]|e] s2] eqn:E2.
      * rewrite bind_unfold. unfold print at 1. by intros [= <- _] ?.
      * apply copy2_Raise in E2 as ->. intros [= <- <-] _.
        destruct (mkdir_Ret _ _ _ E1) as (t & -> & _).
        exists t, [], 0%nat. rewrite app_nil_r, Nat.add_0_r.
        repeat split; eauto; done.
    + apply mkdir_Raise in E1 as ->. intros [= <- <-] _.
      exists (tree s), [], 0%nat. rewrite app_nil_r, Nat.add_0_r.
      destruct s; repeat split; eauto; done.
  - intros [= <- <-] _. exists (tree s), [ItemNotFound], 1%nat.
    rewrite Nat.add_1_r. repeat split; eauto. by intros [e ?].
Qed.

Lemma copy_generation_success_count source backup_folder destination s r s' :
  copy_generation source backup_folder destination s = (r, s') →
  success_count s' = success_count s ∧ frozen s' = frozen s.
Proof.
  intros H. destruct (decide (r = Ret true)) as [->|Hr].
  2:{ by destruct (copy_generation_failed _ _ _ _ _ _ H Hr) as (t&evs&k&->&_). }
  revert H. unfold copy_generation. rewrite bind_unfold. unfold is_dir at 1.
  destruct (dir_at (tree s) source).
  { rewrite bind_unfold.
    destruct (copytree source destination s) as [[[]|e] s1] eqn:E1; [|done].
    apply copytree_Ret in E1 as (es & t & _ & _ & _ & ->).
    by intros [= <-]. }
  rewrite bind_unfold. unfold is_file at 1.
  destruct (file_at (tree s) source); [|done].
  rewrite bind_unfold.
  destruct (mkdir_exist_ok backup_folder s) as [[[]|e] s1] eqn:E1; [|done].
  rewrite bind_unfold.
  destruct (copy2 source destination s1) as [[[]|e] s2] eqn:E2; [|done].
  apply mkdir_Ret in E1 as (t1 & -> & _).
  apply copy2_Ret in E2 as (data & t & _ & _ & ->).
  by intros [= <-].
Qed.

(** What follows the copy in the [try] block, and the handlers, keep the
    count of successes. *)
Lemma after_copy_success_count item_name source program_folder s r s' :
  try_except
    (update_for_git item_name source;; cleanup_old_backups program_folder)
    (λ e, match e with
          | PermissionError => print NoPermission;; incr_fail
          | _ => print (BackupError e);; incr_fail
          end) s = (r, s') →
  success_count s' = success_count s.
Proof.
  rewrite try_unfold, bind_unfold.
  destruct (update_for_git item_name source s) as [[b|e] s1] eqn:E1.
  - apply update_for_git_counts in E1 as (E1 & _ & _).
    destruct (cleanup_old_backups program_folder s1) as [[[]|e] s2] eqn:E2;
      apply cleanup_counts in E2 as (E2 & _ & _).
    + intros [= _ <-]. congruence.
    + destruct e; intros [= _ <-]; simpl; congruence.
  - apply update_for_git_counts in E1 as (E1 & _ & _).
    destruct e; intros [= _ <-]; simpl; congruence.
Qed.

Lemma mkdir_get p s s' q :
  mkdir_exist_ok p s = (Ret tt, s') →
  below q p = None ∨ present (tree s) p = true →
  fs_get (tree s') q = fs_get (tree s) q.
Proof.
  intros H Hq. apply mkdir_Ret in H as (t & -> & _ & Hb & _ & Hp).
  destruct Hq as [Hq|Hq]; [by apply Hb|]. by rewrite (Hp Hq).
Qed.

(** C9. Same-second collision for a directory item: when the payload
    directory of the item is already there under the time stamp of the batch,
    backing the directory up again counts one failure and no success, and the
    whole tree, the generation included, stays as it was: nothing is
    replaced and nothing is merged. *)
Theorem same_second_directory_collision items timestamp idx item_name s src old :
  py_index items (idx - 1) = Ret item_name →
  fs_get (tree s) (config_path ++ [item_name]) = Some (Dir src) →
  fs_get (tree s) (dotfiles_path ++ [item_name; timestamp; item_name])
    = Some (Dir old) →
  backup_item items timestamp idx s =
    (Ret tt, State (tree s) (frozen s)
               (out s ++ [BackingUp item_name; BackupError FileExistsError])
               (success_count s) (S (fail_count s))).
Proof.
  intros Hidx Hsrc Hdst.
  destruct (fs_get_above_dir (tree s) (dotfiles_path ++ [item_name])
              [timestamp; item_name] (Dir old)) as [es Hpf]; [done| |].
  { by rewrite <-app_assoc. }
  unfold backup_item.
  rewrite bind_unfold. unfold index. rewrite Hidx.
  rewrite bind_unfold, mkdir_dir by (unfold dir_at; by rewrite Hpf).
  rewrite bind_unfold. unfold print at 1.
  rewrite try_unfold. unfold copy_generation.
  rewrite !bind_unfold. unfold is_dir at 1, dir_at at 1.
  cbn [tree]. rewrite Hsrc.
  rewrite bind_unfold. paths.
  erewrite copytree_exists;
    [|cbn [tree]; exact Hsrc|unfold present; cbn [tree]; by rewrite Hdst].
  rewrite bind_unfold. unfold print, incr_fail. cbn.
  by rewrite <-app_assoc.
Qed.

(** C10. Frame on a failed generation: when the loop body does not count the
    item as a success (the count is raised right after the copy, so this is
    the case where the generation could not be created: source missing,
    permission error or copy error), the mirror copy of the item is what it
    was, every generation of the item that was there is still there with its
    content, and nothing of the mirror publish or of the cleanup was
    printed.  A time stamp is made of digits and an underscore: it is never
    the name of the mirror folder. *)
Theorem failed_generation_frame items timestamp idx item_name s :
  py_index items (idx - 1) = Ret item_name →
  timestamp ≠ "for-git" →
  success_count (backup_item items timestamp idx s).2 = success_count s →
  let s' := (backup_item items timestamp idx s).2 in
  fs_get (tree s') (for_git_path ++ [item_name])
    = fs_get (tree s) (for_git_path ++ [item_name])
  ∧ (∀ g, g ∈ generations (tree s) item_name →
       g ∈ generations (tree s') item_name
       ∧ fs_get (tree s') (dotfiles_path ++ [item_name; g])
         = fs_get (tree s) (dotfiles_path ++ [item_name; g]))
  ∧ ∃ evs, out s' = out s ++ evs
           ∧ Forall (λ e, e ∈ [BackingUp item_name; ItemNotFound; NoPermission]
                          ∨ ∃ x, e = BackupError x) evs.
Proof.
  intros Hidx Hts. cbn zeta.
  assert (∀ t, (∀ q, (q = for_git_path ++ [item_name]
                      ∨ ∃ g, q = dotfiles_path ++ [item_name; g]
                             ∧ dir_at (tree s) q = true) →
                     fs_get t q = fs_get (tree s) q) →
    fs_get t (for_git_path ++ [item_name])
      = fs_get (tree s) (for_git_path ++ [item_name])
    ∧ (∀ g, g ∈ generations (tree s) item_name →
         g ∈ generations t item_name
         ∧ fs_get t (dotfiles_path ++ [item_name; g])
           = fs_get (tree s) (dotfiles_path ++ [item_name; g]))) as Hframe.
  { intros t Ht. split; [apply Ht; by left|]. intros g Hg.
    apply elem_generations in Hg.
    assert (fs_get t (dotfiles_path ++ [item_name; g])
            = fs_get (tree s) (dotfiles_path ++ [item_name; g])) as Heq.
    { apply Ht. right. by exists g. }
    split; [|done]. apply elem_generations. unfold dir_at in *.
    by rewrite Heq. }
  destruct (backup_item items timestamp idx s) as [r' s'] eqn:E. cbn [snd].
  unfold backup_item in E. rewrite bind_unfold in E. unfold index in E.
  rewrite Hidx, bind_unfold in E.
  destruct (mkdir_exist_ok (dotfiles_path ++ [item_name]) s)
    as [[[]|e] s1] eqn:E1.
  2:{ apply mkdir_Raise in E1 as ->. injection E as _ <-. intros _.
      destruct (Hframe (tree s)) as [? ?]; [done|].
      split; [done|split; [done|]]. exists []. by rewrite app_nil_r. }
  assert (∀ q, (q = for_git_path ++ [item_name]
                ∨ ∃ g, q = dotfiles_path ++ [item_name; g]
                       ∧ dir_at (tree s) q = true) →
               fs_get (tree s1) q = fs_get (tree s) q) as H1.
  { intros q Hq. eapply mkdir_get; [exact E1|]. left.
    destruct Hq as [->|(g & -> & _)]; paths; simpl;
      repeat case_decide; done. }
  destruct (mkdir_Ret _ _ _ E1) as (t1 & -> & _). cbn [tree with_tree] in H1.
  rewrite bind_unfold in E. unfold print at 1 in E.
  cbn [tree frozen out success_count fail_count with_tree] in E.
  rewrite try_unfold, bind_unfold in E.
  match type of E with context [copy_generation ?a ?b ?c ?st] =>
    destruct (copy_generation a b c st) as [r s2] eqn:E2 end.
  destruct (decide (r = Ret true)) as [->|Hr].
  { (* the generation was created: the item counts as a success *)
    rewrite bind_unfold in E. unfold incr_success at 1 in E.
    match type of E with context [(?m ≫= ?f) ?st] =>
      destruct ((m ≫= f) st) as [r3 s3] eqn:E3 end.
    apply copy_generation_success_count in E2 as [E2 _].
    intros Hsucc. exfalso.
    assert (success_count s3 = S (success_count s)) as Hs3.
    { assert (respects same_counts
        (update_for_git item_name (config_path ++ [item_name]);;
         cleanup_old_backups (dotfiles_path ++ [item_name]))) as Hres.
      { apply respects_bind; [apply same_counts_trans
                             |apply update_for_git_counts|].
        intros _. apply cleanup_counts. }
      apply Hres in E3 as (E3 & _). cbn in E3. rewrite E3, E2. done. }
    destruct r3 as [[]|e].
    { injection E as _ <-. lia. }
    destruct e; unfold mbind, M_bind, print, incr_fail in E;
      injection E as _ <-; cbn in Hsucc; lia. }
  destruct (copy_generation_failed _ _ _ _ _ _ E2 Hr)
    as (t & evs & k & -> & Hevs & _ & _ & Ht).
  cbn [tree frozen out success_count fail_count with_tree] in *.
  assert (∀ q, (q = for_git_path ++ [item_name]
                ∨ ∃ g, q = dotfiles_path ++ [item_name; g]
                       ∧ dir_at (tree s) q = true) →
               fs_get t q = fs_get (tree s) q) as H2.
  { intros q Hq. rewrite <-(H1 q Hq). destruct Ht as [->|Ht]; [done|].
    apply (mkdir_get _ _ _ q) in Ht; [done|]. cbn [tree].
    destruct Hq as [->|(g & -> & Hg)].
    - left. paths. simpl. repeat case_decide; congruence.
    - destruct (decide (g = timestamp)) as [->|Hne].
      + right. unfold present. unfold dir_at in Hg.
        rewrite <-app_assoc. simpl app.
        rewrite H1 by (right; by exists timestamp).
        paths.
        by destruct (fs_get (tree s) ["dotfiles"; item_name; timestamp]) as [[]|].
      + left. paths. simpl. repeat case_decide; congruence. }
  destruct (Hframe t H2) as [Hmirror Hgens].
  intros _.
  assert (Forall (λ e, e ∈ [BackingUp item_name; ItemNotFound; NoPermission]
                       ∨ ∃ x, e = BackupError x)
            ([BackingUp item_name] ++ evs)) as Hevs'.
  { apply Forall_app. split.
    - apply Forall_singleton. left. by repeat constructor.
    - eapply Forall_impl; [exact Hevs|]. intros ? ->. left.
      by repeat constructor. }
  destruct r as [[|]|e]; [by destruct Hr|..].
  - injection E as _ <-. cbn [tree out].
    split; [exact Hmirror|split; [exact Hgens|]].
    exists ([BackingUp item_name] ++ evs). by rewrite <-app_assoc.
  - assert (s' = State t (frozen s)
                   (((out s ++ [BackingUp item_name]) ++ evs) ++
                    [match e with
                     | PermissionError => NoPermission
                     | _ => BackupError e
                     end])
                   (success_count s) (S (fail_count s + k))) as ->.
    { destruct e; by injection E as _ <-. }
    cbn [tree out]. split; [exact Hmirror|split; [exact Hgens|]].
    exists (([BackingUp item_name] ++ evs) ++
            [match e with PermissionError => NoPermission | _ => BackupError e end]).
    split; [by rewrite <-!app_assoc|].
    apply Forall_app. split; [done|].
    apply Forall_singleton. destruct e; eauto. left. by repeat constructor.
Qed.

End Generation.

Module GenerationExamples.
Import TreeFacts OSFacts Frames Backup Samples Generation.

Lemma same_second_directory_collision_witness :
  py_index ["bashrc"; "nvim"] (2 - 1) = Ret "nvim"
  ∧ fs_get (tree nvim_backed_up) (config_path ++ ["nvim"])
    = Some (Dir {[ "init.lua" := File "set number" ]})
  ∧ fs_get (tree nvim_backed_up) (dotfiles_path ++ ["nvim"; stamp; "nvim"])
    = Some (Dir {[ "old.lua" := File "old" ]})
  ∧ backup_item ["bashrc"; "nvim"] stamp 2 nvim_backed_up
    = (Ret tt, State (tree nvim_backed_up) []
                 [BackingUp "nvim"; BackupError FileExistsError] 0 1).
Proof.
  assert (py_index ["bashrc"; "nvim"] (2 - 1) = Ret "nvim") as H1
    by reflexivity.
  assert (fs_get (tree nvim_backed_up) (config_path ++ ["nvim"])
          = Some (Dir {[ "init.lua" := File "set number" ]})) as H2
    by (vm_compute; reflexivity).
  assert (fs_get (tree nvim_backed_up) (dotfiles_path ++ ["nvim"; stamp; "nvim"])
          = Some (Dir {[ "old.lua" := File "old" ]})) as H3
    by (vm_compute; reflexivity).
  split; [exact H1|]. split; [exact H2|]. split; [exact H3|].
  exact (same_second_directory_collision _ _ _ _ _ _ _ H1 H2 H3).
Defined.

Lemma failed_generation_frame_witness :
  py_index ["bashrc"; "nvim"] (2 - 1) = Ret "nvim"
  ∧ stamp ≠ "for-git"
  ∧ success_count (backup_item ["bashrc"; "nvim"] stamp 2 nvim_backed_up).2
    = success_count nvim_backed_up
  ∧ stamp ∈ generations
      (tree (backup_item ["bashrc"; "nvim"] stamp 2 nvim_backed_up).2) "nvim".
Proof.
  assert (py_index ["bashrc"; "nvim"] (2 - 1) = Ret "nvim") as H1
    by reflexivity.
  assert (stamp ≠ "for-git") as H2 by discriminate.
  assert (success_count (backup_item ["bashrc"; "nvim"] stamp 2 nvim_backed_up).2
          = success_count nvim_backed_up) as H3 by (vm_compute; reflexivity).
  split; [exact H1|]. split; [exact H2|]. split; [exact H3|].
  destruct (failed_generation_frame _ _ _ _ _ H1 H2 H3) as (_ & Hg & _).
  apply Hg. vm_compute. apply list_elem_of_here.
Defined.

End GenerationExamples.

(** ** The mirror *)

Module Mirror.
Import TreeFacts OSFacts Frames Backup Samples Generation.

(** The removal of the old version leaves nothing at the destination. *)
Lemma remove_old_version destination s r s' :
  (if present (tree s) destination then
     d ← is_dir destination;
     if d : bool then rmtree destination else unlink destination
   else mret tt) s = (r, s') →
  destination ≠ [] →
  match r with
  | Ret _ =>
      present (tree s') destination = false
      ∧ ∀ q, diverge destination q = true → fs_get (tree s') q = fs_get (tree s) q
  | Raise _ => s' = s
  end.
Proof.
  intros H Hne.
  destruct (present (tree s) destination) eqn:Hp.
  - rewrite bind_unfold in H. unfold is_dir at 1 in H.
    destruct (dir_at (tree s) destination).
    + destruct r as [[]|e].
      * apply rmtree_Ret in H as [-> _]. cbn [tree with_tree]. split.
        -- unfold present. by rewrite fs_get_remove_eq.
        -- intros q Hq. by apply fs_get_remove_diverge.
      * by apply rmtree_Raise in H.
    + destruct r as [[]|e].
      * apply unlink_Ret in H as [-> _]. cbn [tree with_tree]. split.
        -- unfold present. by rewrite fs_get_remove_eq.
        -- intros q Hq. by apply fs_get_remove_diverge.
      * by apply unlink_Raise in H.
  - by injection H as <- <-.
Qed.

(** What [update_for_git] leaves at the destination when it returns. *)
Lemma update_for_git_result item_name s b s' :
  update_for_git item_name (config_path ++ [item_name]) s = (Ret b, s') →
  fs_get (tree s') (for_git_path ++ [item_name])
    = (if b then fs_get (tree s) (config_path ++ [item_name]) else None)
  ∧ (b = true → is_Some (fs_get (tree s) (config_path ++ [item_name])))
  ∧ fs_get (tree s') (config_path ++ [item_name])
    = fs_get (tree s) (config_path ++ [item_name]).
Proof.
  unfold update_for_git. intros E. rewrite bind_unfold in E.
  destruct (mkdir_exist_ok for_git_path s) as [[[]|e] s1] eqn:E1; [|done].
  assert (fs_get (tree s1) (config_path ++ [item_name])
          = fs_get (tree s) (config_path ++ [item_name])) as H1.
  { eapply mkdir_get; [exact E1|]. by left. }
  rewrite bind_unfold in E. unfold exists_ at 1 in E.
  rewrite bind_unfold in E.
  match type of E with context [(if ?c then ?m1 else ?m2) s1] =>
    destruct ((if c then m1 else m2) s1) as [[[]|e] s2] eqn:E2 end; [|done].
  apply remove_old_version in E2 as [Habs H2]; [|done].
  assert (fs_get (tree s2) (config_path ++ [item_name])
          = fs_get (tree s) (config_path ++ [item_name])) as H2'.
  { rewrite H2; [done|]. by paths. }
  rewrite try_unfold, bind_unfold in E. unfold is_dir at 1 in E.
  rewrite bind_unfold in E.
  destruct (dir_at (tree s2) (config_path ++ [item_name])).
  - destruct (copytree _ _ s2) as [[[]|e] s3] eqn:E3.
    + apply copytree_Ret in E3 as (es & t & Hsrc & _ & Hi & ->).
      injection E as <- <-. cbn [tree with_tree]. split; [|split].
      * by rewrite (fs_get_install_eq _ _ _ _ Hi), <-H2', Hsrc.
      * intros _. rewrite <-H2', Hsrc. eauto.
      * rewrite (fs_get_install_diverge _ _ _ _ _ Hi); [done|]. by paths.
    + apply copytree_Raise in E3 as ->. injection E as <- <-.
      cbn [tree]. unfold present in Habs.
      by destruct (fs_get (tree s2) (for_git_path ++ [item_name])).
  - destruct (copy2 _ _ s2) as [[[]|e] s3] eqn:E3.
    + apply copy2_Ret in E3 as (data & t & Hsrc & Hi & ->).
      injection E as <- <-. cbn [tree with_tree].
      assert (dir_at (tree s2) (for_git_path ++ [item_name]) = false) as Hd.
      { unfold dir_at, present in *.
        by destruct (fs_get (tree s2) (for_git_path ++ [item_name])). }
      rewrite Hd in Hi. split; [|split].
      * by rewrite (fs_get_install_eq _ _ _ _ Hi), <-H2', Hsrc.
      * intros _. rewrite <-H2', Hsrc. eauto.
      * rewrite (fs_get_install_diverge _ _ _ _ _ Hi); [done|]. by paths.
    + apply copy2_Raise in E3 as ->. injection E as <- <-.
      cbn [tree]. unfold present in Habs.
      by destruct (fs_get (tree s2) (for_git_path ++ [item_name])).
Qed.

(** C4 (amended). The mirror publish removes first: whenever
    [update_for_git] returns, what was at [for-git/<item>] before is gone;
    the destination is the copy of the source and nothing else when the
    result is [True], and it is absent when the result is [False].  The
    source itself is not touched. *)
Theorem mirror_publish_replaces item_name s b s' :
  update_for_git item_name (config_path ++ [item_name]) s = (Ret b, s') →
  fs_get (tree s') (for_git_path ++ [item_name])
    = (if b then fs_get (tree s) (config_path ++ [item_name]) else None)
  ∧ (b = true → is_Some (fs_get (tree s) (config_path ++ [item_name])))
  ∧ fs_get (tree s') (config_path ++ [item_name])
    = fs_get (tree s) (config_path ++ [item_name]).
Proof. apply update_for_git_result. Qed.

Lemma mirror_publish_replaces_witness :
  update_for_git "bashrc" (config_path ++ ["bashrc"]) stale_mirror
    = (Ret true,
       State (Dir {[ ".config" := config;
                     "dotfiles" := Dir {[ "for-git" :=
                       Dir {[ "bashrc" := File "alias ll=ls" ]} ]} ]})
         [] [UpdatedForGit "bashrc"] 0 0)
  ∧ fs_get (tree (update_for_git "bashrc" (config_path ++ ["bashrc"])
                    stale_mirror).2) (for_git_path ++ ["bashrc"])
    = fs_get (tree stale_mirror) (config_path ++ ["bashrc"]).
Proof.
  assert (update_for_git "bashrc" (config_path ++ ["bashrc"]) stale_mirror
    = (Ret true,
       State (Dir {[ ".config" := config;
                     "dotfiles" := Dir {[ "for-git" :=
                       Dir {[ "bashrc" := File "alias ll=ls" ]} ]} ]})
         [] [UpdatedForGit "bashrc"] 0 0)) as H by (vm_compute; reflexivity).
  split; [exact H|].
  rewrite H. exact (proj1 (mirror_publish_replaces _ _ _ _ H)).
Defined.

(** C4, as stated, fails for the creation of a generation, which removes
    nothing.  A payload directory that is already there is left in place and
    the copy of the directory fails; and when the item is a file while the
    payload is a directory, the file is copied into that directory, next to
    what it held, and the backup counts as a success. *)
Lemma generation_copy_removes_nothing :
  (let s' := (backup_item ["bashrc"; "nvim"] stamp 2 nvim_backed_up).2 in
   fs_get (tree s') (dotfiles_path ++ ["nvim"; stamp; "nvim"])
     = Some (Dir {[ "old.lua" := File "old" ]})
   ∧ fs_get (tree s') (config_path ++ ["nvim"])
     = Some (Dir {[ "init.lua" := File "set number" ]})
   ∧ out s' = [BackingUp "nvim"; BackupError FileExistsError])
  ∧ (let s' := (backup_item ["bashrc"; "nvim"] stamp 1 bashrc_was_directory).2 in
     fs_get (tree s') (dotfiles_path ++ ["bashrc"; stamp; "bashrc"])
       = Some (Dir {[ "old" := File "old"; "bashrc" := File "alias ll=ls" ]})
     ∧ success_count s' = 1%nat ∧ fail_count s' = 0%nat).
Proof. vm_compute. repeat split; reflexivity. Qed.

(** C5: a mirror publish that fails while it removes the old mirror.  The
    old mirror of [nvim] holds an entry that cannot be removed; the backup of
    [nvim] creates the generation and counts a success, then [rmtree] raises
    in [update_for_git], outside of its [try], and the handler of
    [backup_items] counts a failure for the same item; the cleanup is
    skipped. *)
Theorem mirror_removal_failure_counts_as_failed :
  let s' := (backup_items ["bashrc"; "nvim"] [2] stamp mirror_protected).2 in
  success_count s' = 1%nat
  ∧ fail_count s' = 1%nat
  ∧ out s' = [BackingUp "nvim"; BackupSuccessful; NoPermission; Results 1 1]
  ∧ fs_get (tree s') (dotfiles_path ++ ["nvim"; stamp; "nvim"])
    = Some (Dir {[ "init.lua" := File "set number" ]}).
Proof. vm_compute. repeat split; reflexivity. Qed.

(** C6: a batch that is aborted.  The folder of the first item cannot be
    made because a file has its name; [mkdir] raises before the [try] of the
    loop body, the exception leaves [backup_items], and the second item,
    whose source is there, is never backed up. *)
Theorem batch_aborts_when_folder_is_a_file :
  present (tree ghost_is_file) (config_path ++ ["ghost"]) = false
  ∧ dir_at (tree ghost_is_file) (config_path ++ ["nvim"]) = true
  ∧ backup_items ["ghost"; "nvim"] [1; 2] stamp ghost_is_file
    = (Raise FileExistsError, ghost_is_file).
Proof. vm_compute. repeat split; reflexivity. Qed.

(** In a home where nothing stands in the way, the same batch goes through:
    one failure for the missing item, one success for the other, whose
    generation and mirror are made. *)
Example batch_with_missing_item :
  let s' := (backup_items ["ghost"; "nvim"] [1; 2] stamp fresh).2 in
  success_count s' = 1%nat
  ∧ fail_count s' = 1%nat
  ∧ fs_get (tree s') (dotfiles_path ++ ["nvim"; stamp; "nvim"])
    = Some (Dir {[ "init.lua" := File "set number" ]})
  ∧ fs_get (tree s') (for_git_path ++ ["nvim"])
    = Some (Dir {[ "init.lua" := File "set number" ]}).
Proof. vm_compute. repeat split; reflexivity. Qed.

End Mirror.

(** ** The most recent names *)

Module Recent.
Import Backup.

Lemma name_gt_ge a b : name_gt a b → name_ge a b.
Proof. intros H. apply name_ge_spec. by left. Qed.

Lemma name_ge_gt a b : name_ge a b → a ≠ b → name_gt a b.
Proof. intros [H| ->]%name_ge_spec ?; done. Qed.

Lemma name_gt_neq a b : name_gt a b → a ≠ b.
Proof. intros H ->. by apply name_gt_irrefl in H. Qed.

Lemma name_gt_total a b : name_gt a b ∨ a = b ∨ name_gt b a.
Proof.
  destruct (decide (a = b)) as [->|Hne]; [auto|].
  destruct (name_ge_total a b) as [H|H].
  - left. by apply name_ge_gt.
  - right. right. by apply name_ge_gt.
Qed.

Lemma strict_desc_NoDup l : strict_desc l → NoDup l.
Proof.
  induction 1 as [|a l Hl IH Ha]; constructor; [|done].
  intros Hin. rewrite Forall_forall in Ha.
  by apply (name_gt_irrefl a), Ha.
Qed.

Lemma strict_desc_ge l : strict_desc l → StronglySorted name_ge l.
Proof.
  induction 1 as [|a l Hl IH Ha]; constructor; [done|].
  eapply Forall_impl; [exact Ha|]. apply name_gt_ge.
Qed.

Lemma ge_NoDup_strict l : StronglySorted name_ge l → NoDup l → strict_desc l.
Proof.
  induction 1 as [|a l Hl IH Ha]; intros Hnd; [constructor|].
  apply NoDup_cons in Hnd as [Hin Hnd]. constructor; [by apply IH|].
  apply Forall_forall. intros x Hx. rewrite Forall_forall in Ha.
  apply name_ge_gt; [by apply Ha|]. by intros ->.
Qed.

(** Two lists in strict descending order with the same names are equal. *)
Lemma strict_desc_ext l1 l2 :
  strict_desc l1 → strict_desc l2 → (∀ x, x ∈ l1 ↔ x ∈ l2) → l1 = l2.
Proof.
  intros H1 H2 Hx.
  apply (StronglySorted_unique name_ge); try by apply strict_desc_ge.
  apply NoDup_Permutation; auto using strict_desc_NoDup.
Qed.

Lemma sorted_desc_strict l : NoDup l → strict_desc (sorted_desc l).
Proof.
  intros Hl. apply ge_NoDup_strict; [apply sorted_desc_sorted|].
  by apply sorted_desc_NoDup.
Qed.

Lemma strict_desc_take k l : strict_desc l → strict_desc (take k l).
Proof.
  intros Hl. rewrite <-(take_drop k l) in Hl.
  by apply StronglySorted_app_1_l in Hl.
Qed.

Lemma strict_desc_id l : strict_desc l → sorted_desc (remove_dups l) = l.
Proof.
  intros Hl. apply strict_desc_ext; [|done|].
  - apply sorted_desc_strict, NoDup_remove_dups.
  - intros x. by rewrite sorted_desc_elem, elem_of_remove_dups.
Qed.

Lemma elem_insert_desc a l x : x ∈ insert_desc a l ↔ x = a ∨ x ∈ l.
Proof.
  induction l as [|b l IH]; simpl.
  - rewrite list_elem_of_singleton. split; [auto|]. intros [?|?%elem_of_nil]; done.
  - repeat case_decide; subst; rewrite ?elem_of_cons, ?IH; naive_solver.
Qed.

Lemma insert_desc_strict a l : strict_desc l → strict_desc (insert_desc a l).
Proof.
  induction 1 as [|b l Hl IH Hb]; simpl.
  - repeat constructor.
  - repeat case_decide; subst.
    + constructor; [by constructor|]. constructor; [done|].
      eapply Forall_impl; [exact Hb|]. intros x Hx. by etrans.
    + by constructor.
    + constructor; [done|]. apply Forall_forall. intros x.
      rewrite elem_insert_desc. intros [->|Hx].
      * destruct (name_gt_total a b) as [?|[?|?]]; done.
      * rewrite Forall_forall in Hb. by apply Hb.
Qed.

Lemma sorted_insert a l :
  sorted_desc (remove_dups (a :: l)) = insert_desc a (sorted_desc (remove_dups l)).
Proof.
  apply strict_desc_ext.
  - apply sorted_desc_strict, NoDup_remove_dups.
  - apply insert_desc_strict, sorted_desc_strict, NoDup_remove_dups.
  - intros x. rewrite elem_insert_desc, !sorted_desc_elem, !elem_of_remove_dups.
    by rewrite elem_of_cons.
Qed.

(** Only the first [k] names matter for the first [k] names after an
    insertion. *)
Lemma take_insert_desc a k : ∀ l,
  take k (insert_desc a (take k l)) = take k (insert_desc a l).
Proof.
  induction k as [|k IH]; intros l; [done|].
  destruct l as [|b l]; [done|]. simpl.
  repeat case_decide; simpl.
  - f_equal. destruct k; [done|]. simpl. rewrite take_take.
    do 2 f_equal. lia.
  - by rewrite take_take, Nat.min_id.
  - by rewrite IH.
Qed.

Lemma most_recent_cons a l :
  most_recent (a :: l) = take MAX_BACKUPS (insert_desc a (most_recent l)).
Proof.
  unfold most_recent. by rewrite sorted_insert, take_insert_desc.
Qed.

Lemma most_recent_strict l : strict_desc (most_recent l).
Proof. apply strict_desc_take, sorted_desc_strict, NoDup_remove_dups. Qed.

Lemma most_recent_idem l : most_recent (most_recent l) = most_recent l.
Proof.
  unfold most_recent at 1. rewrite strict_desc_id by apply most_recent_strict.
  unfold most_recent. by rewrite take_take, Nat.min_id.
Qed.

(** The most recent names can be computed in steps. *)
Lemma most_recent_absorb l1 l2 :
  most_recent (l1 ++ most_recent l2) = most_recent (l1 ++ l2).
Proof.
  induction l1 as [|a l1 IH]; simpl.
  - apply most_recent_idem.
  - by rewrite !most_recent_cons, IH.
Qed.

Lemma most_recent_length l : (length (most_recent l) ≤ MAX_BACKUPS)%nat.
Proof. unfold most_recent. rewrite length_take. lia. Qed.

(** The names kept are among the names given, and a name that is not kept
    is older than each of the [MAX_BACKUPS] names kept. *)
Lemma most_recent_spec l :
  (∀ x, x ∈ most_recent l → x ∈ l)
  ∧ (∀ x y, x ∈ l → x ∉ most_recent l → y ∈ most_recent l → name_gt y x)
  ∧ (∀ x, x ∈ l → x ∉ most_recent l → length (most_recent l) = MAX_BACKUPS).
Proof.
  unfold most_recent. set (S := sorted_desc (remove_dups l)).
  assert (strict_desc S) as HS by apply sorted_desc_strict, NoDup_remove_dups.
  assert (∀ x, x ∈ S ↔ x ∈ l) as HSl.
  { intros x. unfold S. by rewrite sorted_desc_elem, elem_of_remove_dups. }
  assert (∀ x, x ∈ l → x ∉ take MAX_BACKUPS S → x ∈ drop MAX_BACKUPS S) as Hd.
  { intros x Hx Hn. apply HSl in Hx. rewrite <-(take_drop MAX_BACKUPS S) in Hx.
    apply elem_of_app in Hx as [?|?]; done. }
  split; [|split].
  - intros x Hx. apply HSl. rewrite <-(take_drop MAX_BACKUPS S).
    apply elem_of_app. by left.
  - intros x y Hx Hn Hy. rewrite <-(take_drop MAX_BACKUPS S) in HS.
    eapply (StronglySorted_app_1_elem_of name_gt); eauto.
  - intros x Hx Hn. apply Hd in Hx; [|done]. rewrite length_take.
    destruct (decide (length S ≤ MAX_BACKUPS)%nat) as [Hle|]; [|lia].
    rewrite drop_ge in Hx by done. by apply elem_of_nil in Hx.
Qed.

End Recent.

(** ** Retention over a run of backups *)

Module RetentionRun.
Import TreeFacts OSFacts Frames Backup Samples Generation Recent.

Lemma below_app_None (p r : path) : r ≠ [] → below (p ++ r) p = None.
Proof.
  intros Hr. induction p as [|x p IH]; simpl.
  - by destruct r.
  - by rewrite decide_True.
Qed.

Lemma below_app_l_None (p r : path) : ∀ q,
  below p q = None → below (p ++ r) q = None.
Proof.
  induction p as [|x p IH]; intros [|y q]; simpl; try done.
  case_decide; [apply IH|done].
Qed.

Lemma diverge_siblings (p : path) d g r :
  d ≠ g → diverge (p ++ [d]) (p ++ g :: r) = true.
Proof.
  intros Hne. induction p as [|x p IH]; simpl.
  - by rewrite decide_False.
  - by rewrite decide_True.
Qed.

(** The copy of an item that ends well makes the time stamp folder and
    touches nothing beside it. *)
Lemma copy_generation_created source program_folder timestamp x s s' :
  copy_generation source (program_folder ++ [timestamp])
    ((program_folder ++ [timestamp]) ++ [x]) s = (Ret true, s') →
  ∃ t, s' = emit BackupSuccessful (with_tree t s)
       ∧ dir_at t (program_folder ++ [timestamp]) = true
       ∧ (∀ q, diverge (program_folder ++ [timestamp]) q = true →
               fs_get t q = fs_get (tree s) q)
       ∧ (∀ q, below (program_folder ++ [timestamp]) q = None →
               dir_at (tree s) q = true → dir_at t q = true).
Proof.
  unfold copy_generation. rewrite bind_unfold. unfold is_dir at 1.
  destruct (dir_at (tree s) source).
  { rewrite bind_unfold.
    destruct (copytree _ _ s) as [[[]|e] s1] eqn:E1; [|done].
    apply copytree_Ret in E1 as (es & t & _ & _ & Hi & ->).
    intros [= <-]. exists t. split; [done|]. split; [|split].
    - eapply fs_get_install_above; [|exact Hi]. done.
    - intros q Hq. eapply fs_get_install_diverge; [exact Hi|].
      by apply diverge_app_l.
    - intros q Hb Hq. eapply dir_at_install_keep; [exact Hi| |done].
      by apply below_app_l_None. }
  rewrite bind_unfold. unfold is_file at 1.
  destruct (file_at (tree s) source); [|done].
  rewrite bind_unfold.
  destruct (mkdir_exist_ok _ s) as [[[]|e] s1] eqn:E1; [|done].
  rewrite bind_unfold.
  destruct (copy2 _ _ s1) as [[[]|e] s2] eqn:E2; [|done].
  apply mkdir_Ret in E1 as (t1 & -> & Hbf & Hq1 & Hd1 & _).
  apply copy2_Ret in E2 as (data & t & _ & Hi & ->).
  cbn [tree with_tree] in Hi.
  intros [= <-]. exists t. split; [done|].
  assert (∃ r, r ≠ []
               ∧ fs_install ((program_folder ++ [timestamp]) ++ r)
                   (File data) t1 = Some t) as (r & Hr & Hi').
  { destruct (dir_at t1 ((program_folder ++ [timestamp]) ++ [x])).
    - exists [x; basename source]. split; [done|].
      by rewrite <-app_assoc in Hi.
    - by exists [x]. }
  clear Hi. rename Hi' into Hi.
  split; [|split].
  - by eapply fs_get_install_above.
  - intros q Hq. rewrite (fs_get_install_diverge _ _ _ _ _ Hi).
    + apply Hq1. apply diverge_below. by rewrite diverge_sym.
    + by apply diverge_app_l.
  - intros q Hb Hq. eapply dir_at_install_keep; [exact Hi| |by apply Hd1].
    by apply below_app_l_None.
Qed.

(** The loop of [cleanup_old_backups]: it never raises, and when it prints
    no failure it has removed the backups it was given, and only them. *)
Lemma delete_loop program_folder (to_delete : list string) : ∀ s r s',
  for_each to_delete (λ old_backup,
    try_except
      (rmtree (program_folder ++ [old_backup]);; print (DeletedOld old_backup))
      (λ e, print (DeleteFailed old_backup e))) s = (r, s') →
  r = Ret tt
  ∧ same_counts s s'
  ∧ ∃ evs, out s' = out s ++ evs
     ∧ (no_delete_failure evs = true →
        ∀ g q, fs_get (tree s') (program_folder ++ g :: q)
               = if bool_decide (g ∈ to_delete) then None
                 else fs_get (tree s) (program_folder ++ g :: q)).
Proof.
  induction to_delete as [|d D IH]; intros s r s'; simpl.
  { intros [= <- <-]. split; [done|]. split; [by apply same_counts_refl|].
    exists []. by rewrite app_nil_r. }
  rewrite bind_unfold, try_unfold, bind_unfold.
  destruct (rmtree (program_folder ++ [d]) s) as [[[]|e] s1] eqn:E1.
  - apply rmtree_Ret in E1 as [-> _]. unfold print at 1.
    intros H. apply IH in H as (-> & Hc & evs & Hout & Hget).
    split; [done|]. split.
    { eapply same_counts_trans; [|exact Hc]. by unfold same_counts. }
    exists (DeletedOld d :: evs). split.
    { rewrite Hout. cbn [out with_tree]. by rewrite <-app_assoc. }
    intros Hno g q. rewrite (Hget Hno g q). cbn [tree with_tree].
    destruct (decide (g = d)) as [->|Hne].
    + rewrite (bool_decide_eq_true_2 (d ∈ d :: D)) by apply list_elem_of_here.
      replace (program_folder ++ d :: q) with ((program_folder ++ [d]) ++ q)
        by by rewrite <-app_assoc.
      rewrite present_below_remove by (by destruct program_folder).
      by case_bool_decide.
    + rewrite fs_get_remove_diverge by (by apply diverge_siblings).
      rewrite (bool_decide_ext (g ∈ d :: D) (g ∈ D)); [done|].
      rewrite elem_of_cons. naive_solver.
  - apply rmtree_Raise in E1 as ->. unfold print at 1.
    intros H. apply IH in H as (-> & Hc & evs & Hout & _).
    split; [done|]. split.
    { eapply same_counts_trans; [|exact Hc]. by unfold same_counts. }
    exists (DeleteFailed d e :: evs). split; [|done].
    rewrite Hout. cbn [out]. by rewrite <-app_assoc.
Qed.

Lemma generations_strict t item_name : strict_desc (generations t item_name).
Proof.
  apply ge_NoDup_strict; [|apply generations_NoDup].
  unfold generations. destruct (fs_get t _) as [[|es]|]; try constructor.
  apply sorted_desc_sorted.
Qed.

(** The listing is determined by the directories in the folder of the
    item. *)
Lemma generations_ext t item_name (names : list string) :
  strict_desc names →
  (∀ g, dir_at t (dotfiles_path ++ [item_name; g]) = true ↔ g ∈ names) →
  generations t item_name = names.
Proof.
  intros Hn Hg. apply strict_desc_ext; [apply generations_strict|done|].
  intros g. by rewrite elem_generations.
Qed.

Lemma generations_same t t' item_name :
  (∀ g, fs_get t' (dotfiles_path ++ [item_name; g])
        = fs_get t (dotfiles_path ++ [item_name; g])) →
  generations t' item_name = generations t item_name.
Proof.
  intros Hg. apply generations_ext; [apply generations_strict|].
  intros g. rewrite elem_generations. unfold dir_at. by rewrite Hg.
Qed.

Lemma cleanup_generations item_name s r s' :
  cleanup_old_backups (dotfiles_path ++ [item_name]) s = (r, s') →
  dir_at (tree s) (dotfiles_path ++ [item_name]) = true →
  r = Ret tt
  ∧ ∃ evs, out s' = out s ++ evs
     ∧ (no_delete_failure evs = true →
        generations (tree s') item_name
        = take MAX_BACKUPS (generations (tree s) item_name)
        ∧ ∀ g q, g ∈ take MAX_BACKUPS (generations (tree s) item_name) →
                 fs_get (tree s') (dotfiles_path ++ item_name :: g :: q)
                 = fs_get (tree s) (dotfiles_path ++ item_name :: g :: q)).
Proof.
  intros E Hpf. unfold cleanup_old_backups in E.
  rewrite bind_unfold in E. unfold exists_ at 1 in E.
  assert (present (tree s) (dotfiles_path ++ [item_name]) = true) as Hp.
  { unfold present, dir_at in *. by destruct (fs_get (tree s) _). }
  rewrite Hp in E. cbn [negb] in E.
  rewrite bind_unfold, list_backups_run in E by done.
  rewrite Retention.backups_to_delete_drop in E.
  apply delete_loop in E as (-> & _ & evs & Hout & Hget). split; [done|].
  exists evs. split; [done|].
  intros Hno. specialize (Hget Hno).
  set (B := generations (tree s) item_name) in *.
  assert (NoDup B) as HB by apply generations_NoDup.
  assert (∀ g, g ∈ take MAX_BACKUPS B → g ∉ drop MAX_BACKUPS B) as Hsplit.
  { intros g Ht Hd. rewrite <-(take_drop MAX_BACKUPS B) in HB.
    apply NoDup_app in HB as (_ & HB & _). by apply (HB g). }
  split.
  - apply generations_ext.
    { apply strict_desc_take, generations_strict. }
    intros g.
    assert (dir_at (tree s') (dotfiles_path ++ [item_name; g])
            = if bool_decide (g ∈ drop MAX_BACKUPS B) then false
              else dir_at (tree s) (dotfiles_path ++ [item_name; g])) as ->.
    { unfold dir_at.
      replace (dotfiles_path ++ [item_name; g])
        with ((dotfiles_path ++ [item_name]) ++ g :: [])
        by by rewrite <-app_assoc.
      rewrite Hget. by case_bool_decide. }
    case_bool_decide as Hd.
    + split; [done|]. intros Ht. by apply Hsplit in Ht.
    + rewrite <-elem_generations. fold B.
      rewrite <-(take_drop MAX_BACKUPS B) at 1. rewrite elem_of_app.
      naive_solver.
  - intros g q Ht.
    replace (dotfiles_path ++ item_name :: g :: q)
      with ((dotfiles_path ++ [item_name]) ++ g :: q) by by rewrite <-app_assoc.
    rewrite Hget. rewrite bool_decide_eq_false_2; [done|]. by apply Hsplit.
Qed.

Lemma no_delete_failure_app evs1 evs2 :
  no_delete_failure (evs1 ++ evs2) = true →
  no_delete_failure evs1 = true ∧ no_delete_failure evs2 = true.
Proof.
  unfold no_delete_failure. rewrite forallb_app. by intros ?%andb_true_iff.
Qed.

Lemma backup_item_generations items timestamp idx item_name s r s' :
  backup_item items timestamp idx s = (r, s') →
  py_index items (idx - 1) = Ret item_name →
  item_name ≠ "for-git" →
  success_count s' = S (success_count s) →
  fail_count s' = fail_count s →
  no_delete_failure (out s') = true →
  r = Ret tt
  ∧ generations (tree s') item_name
    = most_recent (timestamp :: generations (tree s) item_name).
Proof.
  intros E Hidx Hitem Hsucc Hfail Hno.
  unfold backup_item in E. rewrite bind_unfold in E. unfold index in E.
  rewrite Hidx, bind_unfold in E.
  destruct (mkdir_exist_ok (dotfiles_path ++ [item_name]) s)
    as [[[]|e] s1] eqn:E1.
  2:{ apply mkdir_Raise in E1 as ->. injection E as _ <-. lia. }
  apply mkdir_Ret in E1 as (t1 & -> & Hpf1 & Hq1 & _ & _).
  rewrite bind_unfold in E. unfold print at 1 in E.
  cbn [tree frozen out success_count fail_count with_tree] in E.
  rewrite try_unfold, bind_unfold in E.
  match type of E with context [copy_generation ?a ?b ?c ?st] =>
    destruct (copy_generation a b c st) as [r2 s2] eqn:E2 end.
  destruct (decide (r2 = Ret true)) as [->|Hr].
  2:{ exfalso.
      destruct (copy_generation_failed _ _ _ _ _ _ E2 Hr)
        as (t & evs & k & -> & _ & _ & _ & _).
      destruct r2 as [[|]|e]; [done|..].
      - injection E as _ <-. cbn in Hsucc. lia.
      - destruct e; unfold mbind, M_bind, print, incr_fail in E;
          injection E as _ <-; cbn in Hsucc; lia. }
  apply copy_generation_created in E2 as (t2 & -> & Hbf2 & Hq2 & Hpf2).
  cbn [tree frozen out success_count fail_count with_tree emit] in *.
  specialize (Hpf2 _ (below_app_None _ [timestamp] ltac:(done)) Hpf1).
  rewrite bind_unfold in E. unfold incr_success at 1 in E.
  cbn [tree frozen out success_count fail_count emit with_tree] in E.
  rewrite bind_unfold in E.
  match type of E with context [update_for_git ?a ?b ?st] =>
    destruct (update_for_git a b st) as [r3 s3] eqn:E3 end.
  pose proof (update_for_git_counts _ _ _ _ _ E3) as (Hs3 & Hf3 & _).
  pose proof (update_for_git_outside _ _ _ _ _ E3) as Ho3.
  cbn [tree frozen out success_count fail_count emit with_tree] in *.
  destruct r3 as [b|e].
  2:{ exfalso.
      destruct e; unfold mbind, M_bind, print, incr_fail in E;
        injection E as _ <-; cbn in Hfail; lia. }
  destruct (cleanup_old_backups _ s3) as [r4 s4] eqn:E4.
  pose proof (cleanup_counts _ _ _ _ E4) as (Hs4 & Hf4 & _).
  assert (∀ g q, fs_get (tree s3) (dotfiles_path ++ item_name :: g :: q)
                 = fs_get t2 (dotfiles_path ++ item_name :: g :: q)) as Hsame3.
  { intros g q. apply Ho3. paths. simpl. repeat case_decide; congruence. }
  assert (dir_at (tree s3) (dotfiles_path ++ [item_name]) = true) as Hpf3.
  { unfold dir_at in *. rewrite Ho3; [done|]. paths. simpl.
    repeat case_decide; congruence. }
  apply cleanup_generations in E4 as (-> & evs & Hout4 & Hgens); [|done].
  injection E as <- <-. split; [done|].
  rewrite Hout4 in Hno. apply no_delete_failure_app in Hno as [_ Hno].
  destruct (Hgens Hno) as [-> _].
  unfold most_recent. f_equal.
  apply generations_ext.
  { apply sorted_desc_strict, NoDup_remove_dups. }
  intros g. rewrite sorted_desc_elem, elem_of_remove_dups, elem_of_cons.
  rewrite elem_generations. unfold dir_at.
  rewrite (Hsame3 g []).
  destruct (decide (g = timestamp)) as [->|Hne].
  - split; [auto|]. intros _.
    replace (dotfiles_path ++ [item_name; timestamp])
      with ((dotfiles_path ++ [item_name]) ++ [timestamp])
      by by rewrite <-app_assoc.
    exact Hbf2.
  - rewrite Hq2 by (paths; simpl; repeat case_decide; congruence).
    rewrite Hq1 by (paths; simpl; repeat case_decide; congruence).
    naive_solver.
Qed.

(** One backup that goes well: the listing afterwards holds the most recent
    of the new time stamp and the generations that were there. *)
Lemma successful_backup_generations items idx item_name timestamp s s' :
  py_index items (idx - 1) = Ret item_name →
  item_name ≠ "for-git" →
  successful_backup items idx timestamp s s' →
  generations (tree s') item_name
  = most_recent (timestamp :: generations (tree s) item_name).
Proof.
  intros Hidx Hitem (E & Hsucc & Hfail & Hno).
  unfold backup_items in E. rewrite bind_unfold in E.
  destruct (mkdir_exist_ok dotfiles_path s) as [[[]|e] s1] eqn:E1; [|done].
  assert (generations (tree s1) item_name = generations (tree s) item_name)
    as Hg1.
  { apply generations_same. intros g. eapply mkdir_get; [exact E1|]. by left. }
  apply mkdir_Ret in E1 as (t1 & -> & _).
  rewrite bind_unfold in E. unfold reset_counts at 1 in E.
  cbn [tree frozen out success_count fail_count with_tree] in *.
  rewrite bind_unfold in E. simpl for_each in E. rewrite bind_unfold in E.
  match type of E with context [backup_item ?a ?b ?c ?st] =>
    destruct (backup_item a b c st) as [r2 s2] eqn:E2 end.
  destruct r2 as [[]|e]; [|done].
  unfold mret, M_ret, print_results, print in E. injection E as <-.
  cbn [tree frozen out success_count fail_count] in *.
  apply no_delete_failure_app in Hno as [Hno _].
  eapply backup_item_generations in E2 as [_ ->]; try done.
  cbn [tree]. by rewrite Hg1.
Qed.

Lemma backup_run_generations items idx item_name timestamps s s' :
  py_index items (idx - 1) = Ret item_name →
  item_name ≠ "for-git" →
  backup_run items idx s timestamps s' →
  generations (tree s') item_name
  = match timestamps with
    | [] => generations (tree s) item_name
    | _ => most_recent (reverse timestamps ++ generations (tree s) item_name)
    end.
Proof.
  intros Hidx Hitem. induction 1 as [s|s timestamp s1 timestamps s' H1 Hrun IH].
  { done. }
  rewrite IH. rewrite (successful_backup_generations _ _ _ _ _ _ Hidx Hitem H1).
  destruct timestamps as [|t ts]; [done|].
  rewrite most_recent_absorb, (reverse_cons _ timestamp).
  by rewrite <-!app_assoc.
Qed.

(** The most recent names do not depend on the order in which the names are
    given. *)
Lemma most_recent_perm l1 l2 :
  (∀ x, x ∈ l1 ↔ x ∈ l2) → most_recent l1 = most_recent l2.
Proof.
  intros Hx. unfold most_recent. f_equal. apply strict_desc_ext.
  - apply sorted_desc_strict, NoDup_remove_dups.
  - apply sorted_desc_strict, NoDup_remove_dups.
  - intros x. by rewrite !sorted_desc_elem, !elem_of_remove_dups.
Qed.

(** C1 (amended). After any non-empty sequence of backups of an item (other
    than an item named [for-git]) that went well, each counted as a success
    and not as a failure and none with a failed deletion of an old backup,
    listing the generations of the item returns at most [MAX_BACKUPS]
    entries: the [MAX_BACKUPS] most recent names, newest first, among the
    time stamps of the sequence and the generations that were there before.
    Every name that was dropped is older than every name that is listed. *)
Theorem retention_bound items idx item_name timestamps s s' :
  py_index items (idx - 1) = Ret item_name →
  item_name ≠ "for-git" →
  timestamps ≠ [] →
  backup_run items idx s timestamps s' →
  let listed := generations (tree s') item_name in
  let given := timestamps ++ generations (tree s) item_name in
  (length listed ≤ MAX_BACKUPS)%nat
  ∧ listed = take MAX_BACKUPS (sorted_desc (remove_dups given))
  ∧ (∀ x y, x ∈ given → x ∉ listed → y ∈ listed → name_gt y x).
Proof.
  intros Hidx Hitem Hne Hrun. cbn zeta.
  rewrite (backup_run_generations _ _ _ _ _ _ Hidx Hitem Hrun).
  destruct timestamps as [|t ts]; [done|].
  rewrite (most_recent_perm _ ((t :: ts) ++ generations (tree s) item_name)).
  2:{ intros x. by rewrite !elem_of_app, elem_of_reverse. }
  split; [apply most_recent_length|]. split; [done|].
  apply most_recent_spec.
Qed.

Lemma retention_bound_witness :
  py_index ["bashrc"; "nvim"] (2 - 1) = Ret "nvim"
  ∧ "nvim" ≠ "for-git"
  ∧ two_days ≠ []
  ∧ backup_run ["bashrc"; "nvim"] 2 five_backups two_days after_two_days
  ∧ generations (tree after_two_days) "nvim"
    = ["20240107_120000"; "20240106_120000"; "20240105_120000";
       "20240104_120000"; "20240103_120000"].
Proof.
  assert (py_index ["bashrc"; "nvim"] (2 - 1) = Ret "nvim") as H1
    by reflexivity.
  assert ("nvim" ≠ "for-git") as H2 by discriminate.
  assert (two_days ≠ []) as H3 by discriminate.
  assert (backup_run ["bashrc"; "nvim"] 2 five_backups two_days after_two_days)
    as H4.
  { apply (run_step _ _ _ _
             (backup_items ["bashrc"; "nvim"] [2] "20240106_120000" five_backups).2).
    { split; [|split; [|split]]; vm_compute; reflexivity. }
    apply (run_step _ _ _ _ after_two_days).
    { split; [|split; [|split]]; vm_compute; reflexivity. }
    apply run_done. }
  split; [exact H1|]. split; [exact H2|]. split; [exact H3|].
  split; [exact H4|].
  rewrite (proj1 (proj2 (retention_bound _ _ _ _ _ _ H1 H2 H3 H4))).
  vm_compute. reflexivity.
Defined.

(** C1, as stated, fails when an old backup cannot be deleted: the backup is
    counted as a success, the failed deletion is a warning, and six
    generations are listed. *)
Lemma undeletable_backup_exceeds_bound :
  let s' := (backup_items ["bashrc"; "nvim"] [2] "20240106_120000"
               oldest_protected).2 in
  success_count s' = 1%nat
  ∧ fail_count s' = 0%nat
  ∧ out s' = [BackingUp "nvim"; BackupSuccessful; UpdatedForGit "nvim";
              DeleteFailed "20240101_120000" PermissionError; Results 1 0]
  ∧ generations (tree s') "nvim"
    = ["20240106_120000"; "20240105_120000"; "20240104_120000";
       "20240103_120000"; "20240102_120000"; "20240101_120000"].
Proof. vm_compute. repeat split; reflexivity. Qed.

End RetentionRun.

(** ** The layout of a generation *)

Module Layout.
Import TreeFacts OSFacts Frames Backup Samples Generation Mirror Recent RetentionRun.

Lemma no_delete_failure_deleted (names : list string) :
  no_delete_failure (DeletedOld <$> names) = true.
Proof. by induction names. Qed.

(** Where nothing is protected, the loop of [cleanup_old_backups] removes
    the directories it is given. *)
Lemma delete_loop_ok program_folder (to_delete : list string) : ∀ s,
  frozen s = [] →
  NoDup to_delete →
  (∀ d, d ∈ to_delete → dir_at (tree s) (program_folder ++ [d]) = true) →
  ∃ s',
    for_each to_delete (λ old_backup,
      try_except
        (rmtree (program_folder ++ [old_backup]);; print (DeletedOld old_backup))
        (λ e, print (DeleteFailed old_backup e))) s = (Ret tt, s')
    ∧ out s' = out s ++ (DeletedOld <$> to_delete).
Proof.
  induction to_delete as [|d D IH]; intros s Hf Hnd Hd; simpl.
  { exists s. split; [done|]. by rewrite app_nil_r. }
  apply NoDup_cons in Hnd as [Hin Hnd].
  rewrite bind_unfold, try_unfold, bind_unfold.
  rewrite rmtree_ok by (auto; apply Hd, list_elem_of_here).
  unfold print at 1.
  match goal with |- context [for_each D ?body ?st] =>
    destruct (IH st) as (s' & E & Hout) end; [done|done|..].
  { intros d' Hd'. cbn [tree with_tree]. unfold dir_at.
    rewrite fs_get_remove_diverge.
    - apply Hd. by apply list_elem_of_further.
    - rewrite <-(app_nil_r [d']) at 1. simpl app. apply diverge_siblings.
      by intros ->. }
  exists s'. rewrite E. split; [done|]. rewrite Hout. cbn [out with_tree].
  by rewrite <-app_assoc.
Qed.

Lemma cleanup_ok item_name s :
  frozen s = [] →
  dir_at (tree s) (dotfiles_path ++ [item_name]) = true →
  ∃ s', cleanup_old_backups (dotfiles_path ++ [item_name]) s = (Ret tt, s')
        ∧ out s' = out s ++ (DeletedOld <$>
                      drop MAX_BACKUPS (generations (tree s) item_name)).
Proof.
  intros Hf Hpf. unfold cleanup_old_backups.
  rewrite bind_unfold. unfold exists_ at 1.
  assert (present (tree s) (dotfiles_path ++ [item_name]) = true) as ->.
  { unfold present, dir_at in *. by destruct (fs_get (tree s) _). }
  cbn [negb]. rewrite bind_unfold, list_backups_run by done.
  rewrite Retention.backups_to_delete_drop.
  apply delete_loop_ok; [done|..].
  - eapply sublist_NoDup; first [apply sublist_drop|apply generations_NoDup].
  - intros d Hd. rewrite <-app_assoc. simpl app. apply elem_generations.
    rewrite <-(take_drop MAX_BACKUPS (generations (tree s) item_name)).
    apply elem_of_app. by right.
Qed.

(** The copy of a file item under a time stamp that is new. *)
Lemma copy_generation_file_ok source program_folder timestamp x data s :
  frozen s = [] →
  fs_get (tree s) source = Some (File data) →
  below source (program_folder ++ [timestamp]) = None →
  dir_at (tree s) program_folder = true →
  present (tree s) (program_folder ++ [timestamp]) = false →
  ∃ s', copy_generation source (program_folder ++ [timestamp])
          ((program_folder ++ [timestamp]) ++ [x]) s = (Ret true, s')
        ∧ fs_get (tree s') ((program_folder ++ [timestamp]) ++ [x])
          = Some (File data).
Proof.
  intros Hf Hsrc Hbelow Hpf Hnew. unfold copy_generation.
  rewrite bind_unfold. unfold is_dir at 1, dir_at at 1. rewrite Hsrc.
  rewrite bind_unfold. unfold is_file at 1, file_at at 1. rewrite Hsrc.
  rewrite bind_unfold.
  destruct (mkdir_ok (program_folder ++ [timestamp]) s) as [s1 E1]; [done|..].
  { unfold file_at, present in *.
    by destruct (fs_get (tree s) (program_folder ++ [timestamp])). }
  { by rewrite parent_snoc. }
  rewrite E1. apply mkdir_Ret in E1 as (t1 & -> & Hbf & Hq1 & _ & _).
  rewrite bind_unfold.
  destruct (copy2_ok source ((program_folder ++ [timestamp]) ++ [x])
              (with_tree t1 s) data) as (t & Hi & E2); [done|..].
  { cbn [tree with_tree]. by rewrite Hq1. }
  { cbn [tree with_tree]. unfold dir_at. rewrite Hq1.
    - unfold present in Hnew. rewrite fs_get_below_None; [done|].
      by destruct (fs_get (tree s) (program_folder ++ [timestamp])).
    - by apply below_app_None. }
  { by rewrite parent_snoc. }
  { by destruct (program_folder ++ [timestamp]). }
  rewrite E2. rewrite bind_unfold. unfold print at 1.
  eexists. split; [done|]. cbn [tree with_tree].
  by eapply fs_get_install_eq.
Qed.

(** The mirror publish of a file item where nothing is protected. *)
Lemma update_for_git_file_ok item_name data s :
  frozen s = [] →
  fs_get (tree s) (config_path ++ [item_name]) = Some (File data) →
  dir_at (tree s) dotfiles_path = true →
  file_at (tree s) for_git_path = false →
  ∃ s', update_for_git item_name (config_path ++ [item_name]) s = (Ret true, s').
Proof.
  intros Hf Hsrc Hdot Hfg. unfold update_for_git.
  rewrite bind_unfold.
  destruct (mkdir_ok for_git_path s) as [s1 E1]; [done..|].
  rewrite E1. apply mkdir_Ret in E1 as (t1 & -> & Hfg1 & Hq1 & _ & _).
  rewrite bind_unfold. unfold exists_ at 1. rewrite bind_unfold.
  cbn [tree with_tree].
  set (destination := for_git_path ++ [item_name]).
  assert (fs_get t1 (config_path ++ [item_name]) = Some (File data)) as Hsrc1.
  { by rewrite Hq1. }
  assert (∃ s2,
    (if present t1 destination then
       d ← is_dir destination;
       if d : bool then rmtree destination else unlink destination
     else mret tt) (with_tree t1 s) = (Ret tt, s2)) as [s2 E2].
  { destruct (present t1 destination) eqn:Hp; [|by eexists].
    rewrite bind_unfold. unfold is_dir at 1. cbn [tree with_tree].
    destruct (dir_at t1 destination) eqn:Hd.
    - rewrite rmtree_ok by done. by eexists.
    - rewrite unlink_ok; [by eexists|done|]. cbn [tree with_tree].
      unfold present, dir_at, file_at in *.
      by destruct (fs_get t1 destination) as [[]|]. }
  rewrite E2.
  pose proof (remove_old_version _ _ _ _ E2) as [Habs Hq2].
  { by destruct for_git_path. }
  assert (frozen s2 = [] ∧ dir_at (tree s2) for_git_path = true) as [Hf2 Hfg2].
  { destruct (present t1 destination); [|by injection E2 as <-].
    rewrite bind_unfold in E2. unfold is_dir at 1 in E2.
    cbn [tree with_tree] in E2.
    destruct (dir_at t1 destination).
    - apply rmtree_Ret in E2 as [-> _]. split; [done|].
      apply dir_at_remove_keep; [|done]. by apply below_app_None.
    - apply unlink_Ret in E2 as [-> _]. split; [done|].
      apply dir_at_remove_keep; [|done]. by apply below_app_None. }
  cbn [tree with_tree] in Hq2.
  assert (fs_get (tree s2) (config_path ++ [item_name]) = Some (File data))
    as Hsrc2.
  { rewrite Hq2; [done|]. by paths. }
  rewrite try_unfold, bind_unfold. unfold is_dir at 1, dir_at at 1.
  rewrite Hsrc2, bind_unfold.
  destruct (copy2_ok (config_path ++ [item_name]) destination s2 data)
    as (t & Hi & E3); [done|done|..].
  { unfold dir_at, present in *. by destruct (fs_get (tree s2) destination). }
  { unfold destination. by rewrite parent_snoc. }
  { by destruct for_git_path. }
  rewrite E3, bind_unfold. unfold print at 1. by eexists.
Qed.

Lemma below_app_r_None (q p r : path) :
  below q (p ++ r) = None → below q p = None.
Proof.
  revert p. induction q as [|x q IH]; intros [|y p]; simpl; try done.
  case_decide; [apply IH|done].
Qed.

Ltac solve_path := paths; simpl; repeat case_decide; congruence.

(** C3. On-disk layout of a generation, for a single-file item.  In a home
    where nothing is protected and no file stands where the script needs a
    folder, backing up the file item [X] (not named [for-git]) at a time
    stamp [T] that is new and more recent than the generations of [X]
    succeeds; the time stamp folder [<backupRoot>/X/T], which was not there,
    is a directory afterwards, the payload [<backupRoot>/X/T/X] is a file
    with the content of the source, and the mirror copy
    [<backupRoot>/for-git/X] is a file with that same content. *)
Theorem single_file_layout items timestamp idx item_name data s :
  py_index items (idx - 1) = Ret item_name →
  item_name ≠ "for-git" →
  frozen s = [] →
  fs_get (tree s) (config_path ++ [item_name]) = Some (File data) →
  file_at (tree s) dotfiles_path = false →
  file_at (tree s) (dotfiles_path ++ [item_name]) = false →
  file_at (tree s) for_git_path = false →
  present (tree s) (dotfiles_path ++ [item_name; timestamp]) = false →
  Forall (name_gt timestamp) (generations (tree s) item_name) →
  ∃ s', backup_items items [idx] timestamp s = (Ret tt, s')
        ∧ success_count s' = 1%nat
        ∧ fail_count s' = 0%nat
        ∧ dir_at (tree s') (dotfiles_path ++ [item_name; timestamp]) = true
        ∧ fs_get (tree s') (dotfiles_path ++ [item_name; timestamp; item_name])
          = Some (File data)
        ∧ fs_get (tree s') (for_git_path ++ [item_name]) = Some (File data).
Proof.
  intros Hidx Hitem Hf Hsrc Hdot Hpf Hfg Hnew Hnewest.
  set (source := config_path ++ [item_name]) in *.
  set (program_folder := dotfiles_path ++ [item_name]) in *.
  assert (∀ g, dotfiles_path ++ [item_name; g] = program_folder ++ [g]) as Hpath.
  { intros g. unfold program_folder. by rewrite <-app_assoc. }
  rewrite Hpath in Hnew.
  unfold backup_items. rewrite bind_unfold.
  (* dotfiles_path.mkdir(exist_ok=True) *)
  destruct (mkdir_ok dotfiles_path s) as [s1 E1]; [done|done|..].
  { unfold dir_at, source in *. simpl in *. by destruct (tree s). }
  rewrite E1. apply mkdir_Ret in E1 as (t1 & -> & Hdot1 & Hq1 & _ & _).
  rewrite bind_unfold. unfold reset_counts at 1.
  cbn [tree frozen out success_count fail_count with_tree].
  rewrite bind_unfold. simpl for_each. rewrite bind_unfold.
  unfold backup_item. rewrite bind_unfold. unfold index at 1. rewrite Hidx.
  fold source program_folder. rewrite bind_unfold.
  (* program_folder.mkdir(exist_ok=True) *)
  match goal with |- context [mkdir_exist_ok program_folder ?st] =>
    destruct (mkdir_ok program_folder st) as [s2 E2] end; [done|..].
  { cbn [tree]. unfold file_at in *. rewrite Hq1; [done|]. by solve_path. }
  { unfold program_folder. by rewrite parent_snoc. }
  rewrite E2. apply mkdir_Ret in E2 as (t2 & -> & Hpf2 & Hq2 & Hd2 & _).
  cbn [tree frozen out success_count fail_count with_tree] in *.
  rewrite bind_unfold. unfold print at 1.
  cbn [tree frozen out success_count fail_count with_tree].
  assert (∀ q, below q program_folder = None → fs_get t2 q = fs_get (tree s) q)
    as Hsame2.
  { intros q Hq. rewrite Hq2 by done. apply Hq1.
    by eapply below_app_r_None. }
  (* the copy of the file *)
  rewrite try_unfold, bind_unfold.
  match goal with |- context [copy_generation source ?bf ?dst ?st] =>
    destruct (copy_generation_file_ok source program_folder timestamp
                item_name data st) as (s3 & E3 & Hpay3) end; [done|..].
  { cbn [tree]. rewrite Hsame2; [done|]. by solve_path. }
  { by solve_path. }
  { done. }
  { cbn [tree]. unfold present in *. rewrite Hsame2; [done|].
    by apply below_app_None. }
  rewrite E3.
  apply copy_generation_created in E3 as (t3 & -> & Hbf3 & Hq3 & Hd3).
  cbn [tree frozen out success_count fail_count with_tree emit] in *.
  rewrite bind_unfold. unfold incr_success at 1.
  cbn [tree frozen out success_count fail_count]. rewrite bind_unfold.
  (* update_for_git *)
  match goal with |- context [update_for_git item_name source ?st] =>
    destruct (update_for_git_file_ok item_name data st) as [s4 E4] end;
    [done|..].
  { cbn [tree]. fold source. rewrite Hq3 by solve_path.
    rewrite Hsame2; [done|]. by solve_path. }
  { cbn [tree]. apply Hd3; [by solve_path|]. by apply Hd2. }
  { cbn [tree]. unfold file_at in *. rewrite Hq3 by solve_path.
    rewrite Hsame2; [done|]. by solve_path. }
  fold source in E4. rewrite E4.
  pose proof (update_for_git_result _ _ _ _ E4) as (Hmirror4 & _ & _).
  pose proof (update_for_git_outside _ _ _ _ _ E4) as Ho4.
  pose proof (update_for_git_counts _ _ _ _ _ E4) as (Hs4 & Hf4 & Hfz4).
  cbn [tree frozen out success_count fail_count with_tree emit] in *.
  fold source in Hmirror4. rewrite Hq3 in Hmirror4 by solve_path.
  rewrite Hsame2 in Hmirror4 by solve_path. rewrite Hsrc in Hmirror4.
  assert (∀ q, fs_get (tree s4) (program_folder ++ q)
               = fs_get t3 (program_folder ++ q)) as Hsame4.
  { intros q. apply Ho4. by solve_path. }
  (* cleanup_old_backups *)
  destruct (cleanup_ok item_name s4) as (s5 & E5 & Hout5).
  { by rewrite Hfz4. }
  { fold program_folder. unfold dir_at.
    rewrite <-(app_nil_r program_folder), Hsame4, app_nil_r.
    apply Hd3; [|done]. by apply below_app_None. }
  fold program_folder in E5. rewrite E5.
  pose proof (cleanup_outside _ _ _ _ E5) as Ho5.
  pose proof (cleanup_counts _ _ _ _ E5) as (Hs5 & Hf5 & _).
  apply cleanup_generations in E5 as (_ & evs & Hout5' & Hgens5).
  2:{ fold program_folder. unfold dir_at.
      rewrite <-(app_nil_r program_folder), Hsame4, app_nil_r.
      apply Hd3; [|done]. by apply below_app_None. }
  rewrite Hout5 in Hout5'. apply app_inv_head in Hout5' as <-.
  destruct (Hgens5 (no_delete_failure_deleted _)) as [_ Hkeep5].
  assert (generations (tree s4) item_name
          = timestamp :: generations (tree s) item_name) as Hg4.
  { apply generations_ext.
    { constructor; [apply generations_strict|done]. }
    intros g. rewrite elem_of_cons, elem_generations, !Hpath.
    unfold dir_at. rewrite Hsame4.
    destruct (decide (g = timestamp)) as [->|Hne].
    - split; [auto|]. intros _. exact Hbf3.
    - rewrite Hq3 by (by apply diverge_siblings).
      rewrite Hsame2 by (by apply below_app_None). naive_solver. }
  rewrite Hg4 in Hkeep5.
  assert (timestamp ∈ take MAX_BACKUPS
                          (timestamp :: generations (tree s) item_name)) as Hin.
  { apply list_elem_of_here. }
  unfold mret at 1, M_ret at 1.
  unfold print_results, print. eexists. split; [done|].
  cbn [tree frozen out success_count fail_count].
  split; [lia|]. split; [lia|]. split; [|split].
  - unfold dir_at. rewrite (Hkeep5 timestamp [] Hin).
    replace (dotfiles_path ++ [item_name; timestamp])
      with (program_folder ++ [timestamp]) by by rewrite Hpath.
    by rewrite Hsame4.
  - rewrite (Hkeep5 timestamp [item_name] Hin).
    replace (dotfiles_path ++ [item_name; timestamp; item_name])
      with (program_folder ++ [timestamp; item_name])
      by (unfold program_folder; by rewrite <-app_assoc).
    rewrite Hsame4.
    replace (program_folder ++ [timestamp; item_name])
      with ((program_folder ++ [timestamp]) ++ [item_name])
      by by rewrite <-app_assoc.
    done.
  - rewrite Ho5 by solve_path. done.
Qed.

Lemma single_file_layout_witness :
  py_index ["bashrc"; "nvim"] (1 - 1) = Ret "bashrc"
  ∧ fs_get (tree fresh) (config_path ++ ["bashrc"]) = Some (File "alias ll=ls")
  ∧ present (tree fresh) (dotfiles_path ++ ["bashrc"; stamp]) = false
  ∧ ∃ s', backup_items ["bashrc"; "nvim"] [1] stamp fresh = (Ret tt, s')
          ∧ success_count s' = 1%nat
          ∧ fail_count s' = 0%nat
          ∧ dir_at (tree s') (dotfiles_path ++ ["bashrc"; stamp]) = true
          ∧ fs_get (tree s') (dotfiles_path ++ ["bashrc"; stamp; "bashrc"])
            = Some (File "alias ll=ls")
          ∧ fs_get (tree s') (for_git_path ++ ["bashrc"])
            = Some (File "alias ll=ls").
Proof.
  assert (py_index ["bashrc"; "nvim"] (1 - 1) = Ret "bashrc") as H1
    by reflexivity.
  assert ("bashrc" ≠ "for-git") as H2 by discriminate.
  assert (frozen fresh = []) as H3 by reflexivity.
  assert (fs_get (tree fresh) (config_path ++ ["bashrc"])
          = Some (File "alias ll=ls")) as H4 by (vm_compute; reflexivity).
  assert (file_at (tree fresh) dotfiles_path = false) as H5
    by (vm_compute; reflexivity).
  assert (file_at (tree fresh) (dotfiles_path ++ ["bashrc"]) = false) as H6
    by (vm_compute; reflexivity).
  assert (file_at (tree fresh) for_git_path = false) as H7
    by (vm_compute; reflexivity).
  assert (present (tree fresh) (dotfiles_path ++ ["bashrc"; stamp]) = false)
    as H8 by (vm_compute; reflexivity).
  assert (Forall (name_gt stamp) (generations (tree fresh) "bashrc")) as H9
    by (vm_compute; constructor).
  split; [exact H1|]. split; [exact H4|]. split; [exact H8|].
  exact (single_file_layout _ _ _ _ _ _ H1 H2 H3 H4 H5 H6 H7 H8 H9).
Defined.

End Layout.

(** ** What a batch leaves alone *)

Module BatchFrames.
Import TreeFacts OSFacts Frames Backup Samples Generation RetentionRun.

(** A relation on the trees that the writes below the folders of the items
    in [P] keep is kept by the backup of such an item. *)
Section Kept.
Variable R : state → state → Prop.
Variable P : string → Prop.
Hypothesis R_tree : ∀ s s', tree s' = tree s → frozen s' = frozen s → R s s'.
Hypothesis R_trans : ∀ s1 s2 s3, R s1 s2 → R s2 s3 → R s1 s3.
Hypothesis R_step : ∀ item r m,
  P item → tree_step (dotfiles_path ++ item :: r) m → respects R m.
Hypothesis P_for_git : P "for-git".

Lemma kept_refl s : R s s.
Proof. by apply R_tree. Qed.

Lemma kept_print e : respects R (print e).
Proof. intros s r s' [= _ <-]. by apply R_tree. Qed.

Lemma kept_incr_fail : respects R incr_fail.
Proof. intros s r s' [= _ <-]. by apply R_tree. Qed.

Lemma kept_incr_success : respects R incr_success.
Proof. intros s r s' [= _ <-]. by apply R_tree. Qed.

Lemma kept_reads {A} (m : M A) : reads m → respects R m.
Proof. intros Hm s r s' H. rewrite (Hm _ _ _ H). apply kept_refl. Qed.

#[local] Hint Resolve kept_refl R_trans kept_print kept_incr_fail
  kept_incr_success : core.

Lemma kept_step_at item (r : path) m :
  P item → tree_step ((dotfiles_path ++ [item]) ++ r) m → respects R m.
Proof. rewrite <-app_assoc. simpl. by apply R_step. Qed.

Lemma kept_cleanup item :
  P item → respects R (cleanup_old_backups (dotfiles_path ++ [item])).
Proof.
  intros HP. apply cleanup_respects; auto.
  intros r m. by apply kept_step_at.
Qed.

Lemma kept_update_for_git item_name source :
  respects R (update_for_git item_name source).
Proof.
  apply (update_for_git_respects R kept_refl R_trans kept_print for_git_path);
    [|done].
  intros r m. by apply kept_step_at.
Qed.

Lemma kept_copy_generation item timestamp source :
  P item →
  respects R (copy_generation source ((dotfiles_path ++ [item]) ++ [timestamp])
                (((dotfiles_path ++ [item]) ++ [timestamp]) ++ [item])).
Proof.
  intros HP. unfold copy_generation.
  apply respects_bind; [done|apply kept_reads, reads_is_dir|]. intros d.
  destruct d.
  - apply respects_bind; [done| |intros _].
    { apply (kept_step_at item [timestamp; item] _ HP), tree_step_copytree. }
    apply respects_bind; [done|auto|]. intros _. by apply respects_ret.
  - apply respects_bind; [done|apply kept_reads, reads_is_file|]. intros f.
    destruct f.
    + apply respects_bind; [done| |intros _].
      { apply (kept_step_at item [timestamp] _ HP), tree_step_mkdir. }
      apply respects_bind; [done| |intros _].
      { apply (kept_step_at item [timestamp; item] _ HP), tree_step_copy2. }
      apply respects_bind; [done|auto|]. intros _. by apply respects_ret.
    + apply respects_bind; [done|auto|]. intros _.
      apply respects_bind; [done|auto|]. intros _. by apply respects_ret.
Qed.

Lemma kept_backup_item items timestamp idx :
  (∀ x, py_index items (idx - 1) = Ret x → P x) →
  respects R (backup_item items timestamp idx).
Proof.
  intros HP s r s'. unfold backup_item. rewrite bind_unfold.
  unfold index at 1.
  destruct (py_index items (idx - 1)) as [item_name|e] eqn:Hidx;
    [|intros [= _ <-]; auto].
  specialize (HP _ eq_refl). revert s r s'.
  apply respects_bind; [done| |intros _].
  { apply (kept_step_at item_name []); [done|]. rewrite app_nil_r.
    apply tree_step_mkdir. }
  apply respects_bind; [done|auto|]. intros _.
  apply respects_try; [done|..].
  - apply respects_bind; [done|by apply kept_copy_generation|].
    intros copied. destruct copied; [|by apply respects_ret].
    apply respects_bind; [done|auto|]. intros _.
    apply respects_bind; [done|apply kept_update_for_git|]. intros _.
    by apply kept_cleanup.
  - intros e. destruct e; apply respects_bind; auto.
Qed.

Hypothesis R_root : respects R (mkdir_exist_ok dotfiles_path).

Lemma kept_backup_items items selected_indices timestamp :
  (∀ idx x, idx ∈ selected_indices → py_index items (idx - 1) = Ret x → P x) →
  respects R (backup_items items selected_indices timestamp).
Proof.
  intros HP. unfold backup_items.
  apply respects_bind; [done|done|]. intros _.
  apply respects_bind; [done| |intros _].
  { intros s r s' [= _ <-]. by apply R_tree. }
  apply respects_bind; [done| |intros _].
  - clear R_root. induction selected_indices as [|idx l IH]; simpl.
    + by apply respects_ret.
    + apply respects_bind; [done| |intros _].
      * apply kept_backup_item. intros x. apply HP. by left.
      * apply IH. intros idx' x Hin. apply HP. by right.
  - intros s r s'. unfold print_results. apply kept_print.
Qed.

End Kept.

Lemma tree_step_inside p r m :
  tree_step (p ++ r) m →
  respects (λ s s', same_outside p s s' ∧ frozen s' = frozen s) m.
Proof.
  intros Hm s res s' H.
  destruct (Hm _ _ _ H) as [->|(t & -> & Hq)]; [by split|].
  split; [|done]. intros q Hd. apply Hq. by apply diverge_app_l.
Qed.

Lemma backup_items_inside items selected_indices timestamp :
  respects (λ s s', same_outside dotfiles_path s s' ∧ frozen s' = frozen s)
    (backup_items items selected_indices timestamp).
Proof.
  apply (kept_backup_items
           (λ s s', same_outside dotfiles_path s s' ∧ frozen s' = frozen s)
           (λ _, True)); try done.
  - intros s1 s2 Ht Hf. split; [|done]. intros q _. by rewrite Ht.
  - intros s1 s2 s3 [H1 Hf1] [H2 Hf2]. split; [|congruence].
    by eapply same_outside_trans.
  - intros item r0 m _. apply tree_step_inside.
  - apply (tree_step_inside dotfiles_path []). rewrite app_nil_r.
    apply tree_step_mkdir.
Qed.

(** X1. Whatever is selected and whatever happens, a batch changes nothing in
    the home directory outside of [~/dotfiles]: in particular [~/.config],
    the source of the backups, is only read. *)
Theorem backup_changes_dotfiles_only items selected_indices timestamp s :
  let s' := (backup_items items selected_indices timestamp s).2 in
  (∀ q, fs_get (tree s') (config_path ++ q) = fs_get (tree s) (config_path ++ q))
  ∧ (∀ x q, x ≠ "dotfiles" → fs_get (tree s') (x :: q) = fs_get (tree s) (x :: q))
  ∧ frozen s' = frozen s.
Proof.
  cbn zeta.
  destruct (backup_items items selected_indices timestamp s) as [r s'] eqn:E.
  cbn [snd]. apply backup_items_inside in E as [Ho Hf].
  split; [|split; [|done]].
  - intros q. by apply Ho.
  - intros x q Hx. apply Ho. simpl. by rewrite decide_False by done.
Qed.

(** X2. A batch changes nothing in the folder [~/dotfiles/<other>] of an item
    that is not selected ([for-git] apart, which holds the mirror). *)
Theorem backup_leaves_other_items items selected_indices timestamp other s :
  other ≠ "for-git" →
  (∀ idx, idx ∈ selected_indices → py_index items (idx - 1) ≠ Ret other) →
  let s' := (backup_items items selected_indices timestamp s).2 in
  ∀ q, fs_get (tree s') (dotfiles_path ++ other :: q)
       = fs_get (tree s) (dotfiles_path ++ other :: q).
Proof.
  intros Hfg Hsel. cbn zeta.
  destruct (backup_items items selected_indices timestamp s) as [r s'] eqn:E.
  cbn [snd]. revert E.
  apply (kept_backup_items
           (λ s s', ∀ q, fs_get (tree s') (dotfiles_path ++ other :: q)
                         = fs_get (tree s) (dotfiles_path ++ other :: q))
           (λ item, item ≠ other)); try done.
  - intros s1 s2 Ht _ q. by rewrite Ht.
  - intros s1 s2 s3 H1 H2 q. by rewrite H2, H1.
  - intros item r0 m Hne Hm s1 res s2 H q.
    destruct (Hm _ _ _ H) as [->|(t & -> & Hq)]; [done|].
    apply Hq. simpl. by rewrite decide_False.
  - intros s1 res s2 H q. destruct res as [[]|e].
    + eapply mkdir_get; [done|]. left. done.
    + by rewrite (mkdir_Raise _ _ _ _ H).
  - intros idx x Hin Hx ->. by apply (Hsel idx).
Qed.

Lemma backup_leaves_other_items_witness :
  "bashrc" ≠ "for-git"
  ∧ (∀ idx, idx ∈ [2] → py_index ["bashrc"; "nvim"] (idx - 1) ≠ Ret "bashrc")
  ∧ ∀ q, fs_get (tree (backup_items ["bashrc"; "nvim"] [2] "20240106_120000"
                         bashrc_was_directory).2)
           (dotfiles_path ++ "bashrc" :: q)
         = fs_get (tree bashrc_was_directory) (dotfiles_path ++ "bashrc" :: q).
Proof.
  assert ("bashrc" ≠ "for-git") as H1 by discriminate.
  assert (∀ idx, idx ∈ [2] → py_index ["bashrc"; "nvim"] (idx - 1) ≠ Ret "bashrc")
    as H2.
  { intros idx ->%list_elem_of_singleton. discriminate. }
  split; [exact H1|]. split; [exact H2|].
  exact (backup_leaves_other_items _ _ _ _ _ H1 H2).
Defined.

End BatchFrames.

(** ** The counters of a batch *)

Module Counters.
Import TreeFacts OSFacts Frames Backup Samples Generation RetentionRun.





End Counters.

(** ** Indices at the bounds *)

Module Indices.
Import TreeFacts OSFacts Frames Backup Samples Generation RetentionRun.

Lemma py_index_wrap {A} (items : list A) (i : Z) :
  - Z.of_nat (length items) ≤ i < 0 →
  py_index items i = py_index items (i + Z.of_nat (length items)).
Proof.
  intros Hi. unfold py_index.
  rewrite (proj2 (Z.ltb_lt i 0)) by lia.
  by rewrite (proj2 (Z.ltb_ge (i + Z.of_nat (length items)) 0)) by lia.
Qed.

Lemma py_index_out {A} (items : list A) (i : Z) :
  i < - Z.of_nat (length items) ∨ Z.of_nat (length items) ≤ i →
  py_index items i = Raise IndexError.
Proof.
  intros Hi. unfold py_index.
  destruct (Z.ltb_spec i 0).
  - rewrite (proj2 (andb_false_iff _ _)); [done|]. left. apply Z.leb_gt. lia.
  - rewrite (proj2 (andb_false_iff _ _)); [done|]. right. apply Z.ltb_ge. lia.
Qed.

(** X4. [items[idx - 1]] follows Python's indexing: the index 0 and the negative
    indices down to [1 - len(items)] are not out of range, they count from
    the end of the list.  A batch for the index 0 is the batch for the last
    item. *)
Theorem index_zero_is_last_item items selected_indices idx timestamp s :
  - Z.of_nat (length items) < idx ≤ 0 →
  backup_items items (idx :: selected_indices) timestamp s
  = backup_items items (idx + Z.of_nat (length items) :: selected_indices)
      timestamp s.
Proof.
  intros Hidx. unfold backup_items. rewrite !bind_unfold.
  destruct (mkdir_exist_ok dotfiles_path s) as [[[]|e] s1]; [|done].
  rewrite !bind_unfold. destruct (reset_counts s1) as [[[]|e] s2]; [|done].
  rewrite !bind_unfold. simpl for_each. rewrite !bind_unfold.
  replace (backup_item items timestamp (idx + Z.of_nat (length items)) s2)
    with (backup_item items timestamp idx s2); [done|].
  unfold backup_item. rewrite !bind_unfold. unfold index.
  rewrite (py_index_wrap items (idx - 1)) by lia.
  by replace (idx + Z.of_nat (length items) - 1)
    with (idx - 1 + Z.of_nat (length items)) by lia.
Qed.

Lemma index_zero_is_last_item_witness :
  - Z.of_nat (length ["bashrc"; "nvim"]) < 0 ≤ 0
  ∧ backup_items ["bashrc"; "nvim"] [0] stamp fresh
    = backup_items ["bashrc"; "nvim"] [2] stamp fresh
  ∧ fs_get (tree (backup_items ["bashrc"; "nvim"] [0] stamp fresh).2)
      (dotfiles_path ++ ["nvim"; stamp; "nvim"])
    = Some (Dir {[ "init.lua" := File "set number" ]}).
Proof.
  assert (- Z.of_nat (length ["bashrc"; "nvim"]) < 0 ≤ 0) as H
    by (simpl; lia).
  split; [exact H|].
  pose proof (index_zero_is_last_item ["bashrc"; "nvim"] [] 0 stamp fresh H)
    as Heq.
  split; [exact Heq|]. rewrite Heq. vm_compute. reflexivity.
Defined.

Lemma for_each_raises {A} (body : A → M unit) x l2 : ∀ l1 s,
  (∀ s, ∃ e, body x s = (Raise e, s)) →
  ∃ e s', for_each (l1 ++ x :: l2) body s = (Raise e, s').
Proof.
  induction l1 as [|y l1 IH]; intros s Hx; simpl; rewrite bind_unfold.
  - destruct (Hx s) as [e ->]. eauto.
  - destruct (body y s) as [[[]|e] s1]; [by apply IH|eauto].
Qed.

(** X5. An index past the end of [items] (or before [-len(items)]) is not
    caught: [IndexError] is raised before the [try] of the loop body, the
    batch stops there, and neither the items that follow in the selection
    are backed up nor the results are printed. *)
Theorem index_out_of_range_aborts items done idx rest timestamp s :
  idx ≤ - Z.of_nat (length items) ∨ Z.of_nat (length items) < idx →
  ∃ e s', backup_items items (done ++ idx :: rest) timestamp s = (Raise e, s')
          ∧ (done = [] → dir_at (tree s) dotfiles_path = true →
             e = IndexError ∧ tree s' = tree s ∧ out s' = out s).
Proof.
  intros Hidx.
  assert (∀ s, backup_item items timestamp idx s = (Raise IndexError, s))
    as Hraise.
  { intros s0. unfold backup_item. rewrite bind_unfold. unfold index.
    by rewrite py_index_out by lia. }
  unfold backup_items. rewrite bind_unfold.
  destruct (mkdir_exist_ok dotfiles_path s) as [[[]|e] s1] eqn:E1.
  2:{ exists e, s1. split; [done|]. intros _ Hd.
      by rewrite (mkdir_dir _ _ Hd) in E1. }
  rewrite bind_unfold. unfold reset_counts at 1. rewrite bind_unfold.
  match goal with |- context [for_each _ _ ?st] =>
    destruct (for_each_raises (backup_item items timestamp) idx rest done st)
      as (e & s' & E) end.
  { intros s0. exists IndexError. apply Hraise. }
  rewrite E. exists e, s'. split; [done|]. intros -> Hd.
  rewrite (mkdir_dir _ _ Hd) in E1. injection E1 as <-.
  simpl in E. rewrite bind_unfold, Hraise in E. by injection E as <- <-.
Qed.

Lemma index_out_of_range_aborts_witness :
  (3 ≤ - Z.of_nat (length ["bashrc"; "nvim"])
   ∨ Z.of_nat (length ["bashrc"; "nvim"]) < 3)
  ∧ dir_at (tree nvim_backed_up) dotfiles_path = true
  ∧ ∃ s', backup_items ["bashrc"; "nvim"] ([] ++ 3 :: [2]) stamp nvim_backed_up
          = (Raise IndexError, s')
          ∧ tree s' = tree nvim_backed_up ∧ out s' = out nvim_backed_up.
Proof.
  assert (3 ≤ - Z.of_nat (length ["bashrc"; "nvim"])
          ∨ Z.of_nat (length ["bashrc"; "nvim"]) < 3) as H
    by (right; simpl; lia).
  assert (dir_at (tree nvim_backed_up) dotfiles_path = true) as Hd
    by (vm_compute; reflexivity).
  split; [exact H|]. split; [exact Hd|].
  destruct (index_out_of_range_aborts ["bashrc"; "nvim"] [] 3 [2] stamp
              nvim_backed_up H) as (e & s' & E & Hfirst).
  destruct (Hfirst eq_refl Hd) as (-> & Ht & Ho).
  exists s'. split; [exact E|]. split; [exact Ht|exact Ho].
Defined.

End Indices.

(** ** The clean-up, with deletions that fail *)

Module Cleanup.
Import TreeFacts OSFacts Frames Backup Samples MoreSamples Generation RetentionRun.

Lemma holds_frozen_sibling s t (p : path) d g :
  d ≠ g →
  holds_frozen (with_tree (fs_remove (p ++ [d]) t) s) (p ++ [g])
  = holds_frozen (with_tree t s) (p ++ [g]).
Proof.
  intros Hne. unfold holds_frozen. cbn [tree frozen with_tree].
  induction (frozen s) as [|q l IH]; [done|]. simpl. rewrite IH. f_equal.
  destruct (below (p ++ [g]) q) as [r|] eqn:Hb; [|done].
  apply below_Some in Hb as ->. unfold present.
  rewrite fs_get_remove_diverge; [done|].
  rewrite <-app_assoc. by apply diverge_siblings.
Qed.

Lemma holds_frozen_emit e s p : holds_frozen (emit e s) p = holds_frozen s p.
Proof. done. Qed.

Lemma deletion_report_with_tree s (p : path) d g :
  d ≠ g →
  deletion_report (with_tree (fs_remove (p ++ [d]) (tree s)) s) p g
  = deletion_report s p g.
Proof.
  intros Hne. unfold deletion_report. rewrite holds_frozen_sibling by done.
  by rewrite with_tree_id.
Qed.

(** The loop of [cleanup_old_backups] on directories: every one is tried,
    whatever happened to the ones before. *)
Lemma delete_loop_reports program_folder (to_delete : list string) : ∀ s,
  NoDup to_delete →
  (∀ g, g ∈ to_delete → dir_at (tree s) (program_folder ++ [g]) = true) →
  ∃ t,
    for_each to_delete (λ old_backup,
      try_except
        (rmtree (program_folder ++ [old_backup]);; print (DeletedOld old_backup))
        (λ e, print (DeleteFailed old_backup e))) s
    = (Ret tt, State t (frozen s)
                 (out s ++ (deletion_report s program_folder <$> to_delete))
                 (success_count s) (fail_count s))
    ∧ (∀ g, g ∈ to_delete →
         present t (program_folder ++ [g])
         = holds_frozen s (program_folder ++ [g]))
    ∧ (∀ g q, g ∉ to_delete →
         fs_get t (program_folder ++ g :: q)
         = fs_get (tree s) (program_folder ++ g :: q)).
Proof.
  induction to_delete as [|d D IH]; intros s Hnd Hdirs; simpl.
  { exists (tree s). rewrite app_nil_r. split; [by destruct s|].
    split; [by intros g ?%elem_of_nil|done]. }
  apply NoDup_cons in Hnd as [Hd HD].
  assert (dir_at (tree s) (program_folder ++ [d]) = true) as Hdir.
  { apply Hdirs. by left. }
  rewrite bind_unfold, try_unfold, bind_unfold.
  unfold rmtree at 1. unfold dir_at in Hdir.
  destruct (fs_get (tree s) (program_folder ++ [d])) as [[|es]|] eqn:Hget;
    try done.
  destruct (holds_frozen s (program_folder ++ [d])) eqn:Hfz.
  - (* the deletion fails *)
    unfold print at 1.
    match goal with |- context [for_each _ _ ?st] =>
      destruct (IH st) as (t & E & Hpres & Hkeep) end; [done|..].
    { intros g Hg. apply Hdirs. by right. }
    exists t. rewrite E. cbn [tree frozen out success_count fail_count].
    split.
    { f_equal. f_equal. rewrite <-app_assoc. f_equal. simpl.
      f_equal. unfold deletion_report. by rewrite Hfz. }
    split.
    + intros g [->|Hg]%elem_of_cons.
      * unfold present. rewrite (Hkeep d [] Hd). cbn [tree].
        by rewrite Hget.
      * by rewrite Hpres.
    + intros g q [Hne Hg]%not_elem_of_cons. by rewrite Hkeep.
  - (* the deletion succeeds *)
    unfold set_tree at 1. unfold print at 1.
    cbn [tree frozen out success_count fail_count].
    match goal with |- context [for_each _ _ ?st] =>
      destruct (IH st) as (t & E & Hpres & Hkeep) end; [done|..].
    { intros g Hg. cbn [tree]. unfold dir_at.
      rewrite fs_get_remove_diverge.
      - apply Hdirs. by right.
      - apply (diverge_siblings program_folder d g []). by intros ->. }
    exists t. rewrite E. cbn [tree frozen out success_count fail_count].
    assert (∀ g, g ∈ D →
      holds_frozen
        {| tree := fs_remove (program_folder ++ [d]) (tree s);
           frozen := frozen s; out := out s ++ [DeletedOld d];
           success_count := success_count s; fail_count := fail_count s |}
        (program_folder ++ [g])
      = holds_frozen s (program_folder ++ [g])) as Hsame.
    { intros g Hg.
      transitivity (holds_frozen
        (with_tree (fs_remove (program_folder ++ [d]) (tree s)) s)
        (program_folder ++ [g])); [done|].
      rewrite holds_frozen_sibling by (by intros ->).
      by rewrite with_tree_id. }
    split.
    { f_equal. f_equal. rewrite <-app_assoc. f_equal. simpl.
      f_equal; [unfold deletion_report; by rewrite Hfz|].
      apply list_fmap_ext. intros i g Hi. unfold deletion_report.
      rewrite Hsame; [done|]. by eapply list_elem_of_lookup_2. }
    split.
    + intros g [->|Hg]%elem_of_cons.
      * unfold present. rewrite (Hkeep d [] Hd). cbn [tree].
        by rewrite fs_get_remove_eq by (by destruct program_folder).
      * by rewrite Hpres, Hsame.
    + intros g q [Hne Hg]%not_elem_of_cons. rewrite Hkeep by done.
      cbn [tree]. apply fs_get_remove_diverge.
      apply diverge_siblings. by intros ->.
Qed.

Lemma evicted_dirs t item_name g :
  g ∈ evicted t item_name →
  dir_at t ((dotfiles_path ++ [item_name]) ++ [g]) = true.
Proof.
  intros Hg. rewrite <-app_assoc. apply elem_generations.
  rewrite <-(take_drop MAX_BACKUPS (generations t item_name)).
  apply elem_of_app. by right.
Qed.

(** X6. [cleanup_old_backups] on the folder of an item: it
    returns, it prints one line for each generation past the [MAX_BACKUPS]
    newest, oldest last, and a generation that cannot be deleted does not
    keep the others from being deleted. *)
Theorem cleanup_tries_every_old_backup item_name s :
  let program_folder := dotfiles_path ++ [item_name] in
  dir_at (tree s) program_folder = true →
  ∃ s', cleanup_old_backups program_folder s = (Ret tt, s')
        ∧ out s' = out s ++ (deletion_report s program_folder
                               <$> evicted (tree s) item_name)
        ∧ (∀ g, g ∈ evicted (tree s) item_name →
             present (tree s') (program_folder ++ [g])
             = holds_frozen s (program_folder ++ [g]))
        ∧ success_count s' = success_count s
        ∧ fail_count s' = fail_count s.
Proof.
  cbn zeta. intros Hpf. unfold cleanup_old_backups.
  rewrite bind_unfold. unfold exists_ at 1.
  assert (present (tree s) (dotfiles_path ++ [item_name]) = true) as Hp.
  { unfold present, dir_at in *. by destruct (fs_get (tree s) _). }
  rewrite Hp. cbn [negb].
  rewrite bind_unfold, list_backups_run by done.
  rewrite Retention.backups_to_delete_drop. fold (evicted (tree s) item_name).
  destruct (delete_loop_reports (dotfiles_path ++ [item_name])
              (evicted (tree s) item_name) s) as (t & E & Hpres & _).
  { eapply sublist_NoDup; first [apply sublist_drop|apply generations_NoDup]. }
  { intros g. apply evicted_dirs. }
  rewrite E. eexists. split; [done|]. by cbn.
Qed.

Lemma cleanup_tries_every_old_backup_witness :
  dir_at (tree seven_backups) (dotfiles_path ++ ["nvim"]) = true
  ∧ evicted (tree seven_backups) "nvim" = ["20240102_120000"; "20240101_120000"]
  ∧ ∃ s', cleanup_old_backups (dotfiles_path ++ ["nvim"]) seven_backups
          = (Ret tt, s')
          ∧ out s' = [DeleteFailed "20240102_120000" PermissionError;
                      DeletedOld "20240101_120000"]
          ∧ present (tree s') (dotfiles_path ++ ["nvim"; "20240102_120000"])
            = true
          ∧ present (tree s') (dotfiles_path ++ ["nvim"; "20240101_120000"])
            = false.
Proof.
  assert (dir_at (tree seven_backups) (dotfiles_path ++ ["nvim"]) = true) as Hd
    by (vm_compute; reflexivity).
  assert (evicted (tree seven_backups) "nvim"
          = ["20240102_120000"; "20240101_120000"]) as He
    by (vm_compute; reflexivity).
  split; [exact Hd|]. split; [exact He|].
  destruct (cleanup_tries_every_old_backup "nvim" seven_backups Hd)
    as (s' & E & Hout & Hpres & _).
  exists s'. split; [exact E|]. rewrite He in Hout, Hpres. split; [exact Hout|].
  split.
  - change (dotfiles_path ++ ["nvim"; "20240102_120000"])
      with ((dotfiles_path ++ ["nvim"]) ++ ["20240102_120000"]).
    rewrite Hpres by (by repeat constructor). vm_compute. reflexivity.
  - change (dotfiles_path ++ ["nvim"; "20240101_120000"])
      with ((dotfiles_path ++ ["nvim"]) ++ ["20240101_120000"]).
    rewrite Hpres by (by repeat constructor). vm_compute. reflexivity.
Defined.

(** X7. With at most [MAX_BACKUPS] generations in the folder of the item, or
    with no folder at all, the clean-up does nothing: it deletes nothing and
    prints nothing. *)
Theorem cleanup_within_bound_does_nothing item_name s :
  file_at (tree s) (dotfiles_path ++ [item_name]) = false →
  (length (generations (tree s) item_name) ≤ MAX_BACKUPS)%nat →
  cleanup_old_backups (dotfiles_path ++ [item_name]) s = (Ret tt, s).
Proof.
  intros Hfile Hlen. unfold cleanup_old_backups.
  rewrite bind_unfold. unfold exists_ at 1.
  destruct (present (tree s) (dotfiles_path ++ [item_name])) eqn:Hp; [|done].
  cbn [negb].
  assert (dir_at (tree s) (dotfiles_path ++ [item_name]) = true) as Hd.
  { unfold present, dir_at, file_at in *.
    by destruct (fs_get (tree s) _) as [[]|]. }
  rewrite bind_unfold, list_backups_run by done.
  rewrite Retention.backups_to_delete_drop, drop_ge by done. done.
Qed.

Lemma cleanup_within_bound_does_nothing_witness :
  file_at (tree five_backups) (dotfiles_path ++ ["nvim"]) = false
  ∧ (length (generations (tree five_backups) "nvim") ≤ MAX_BACKUPS)%nat
  ∧ cleanup_old_backups (dotfiles_path ++ ["nvim"]) five_backups
    = (Ret tt, five_backups).
Proof.
  assert (file_at (tree five_backups) (dotfiles_path ++ ["nvim"]) = false) as H1
    by (vm_compute; reflexivity).
  assert (length (generations (tree five_backups) "nvim") ≤ MAX_BACKUPS)%nat
    as H2 by (vm_compute; lia).
  split; [exact H1|]. split; [exact H2|].
  exact (cleanup_within_bound_does_nothing "nvim" five_backups H1 H2).
Defined.

(** X8. Whatever fails, the clean-up changes nothing but the generations past
    the [MAX_BACKUPS] newest: the newest generations, the files that lie
    beside the generations and all that lies outside of the folder of the
    item stay as they are. *)
Theorem cleanup_removes_old_backups_only item_name s x :
  x ∉ evicted (tree s) item_name →
  let program_folder := dotfiles_path ++ [item_name] in
  let s' := (cleanup_old_backups program_folder s).2 in
  (∀ q, fs_get (tree s') (program_folder ++ x :: q)
        = fs_get (tree s) (program_folder ++ x :: q))
  ∧ (∀ p, diverge program_folder p = true →
          fs_get (tree s') p = fs_get (tree s) p).
Proof.
  intros Hx. cbn zeta.
  destruct (cleanup_old_backups (dotfiles_path ++ [item_name]) s)
    as [r s'] eqn:E. cbn [snd].
  split; [|by apply (cleanup_outside _ _ _ _ E)].
  intros q. unfold cleanup_old_backups in E.
  rewrite bind_unfold in E. unfold exists_ at 1 in E.
  destruct (present (tree s) (dotfiles_path ++ [item_name])) eqn:Hp;
    [|by injection E as _ <-].
  cbn [negb] in E. rewrite bind_unfold in E.
  destruct (dir_at (tree s) (dotfiles_path ++ [item_name])) eqn:Hd.
  - rewrite list_backups_run in E by done.
    rewrite Retention.backups_to_delete_drop in E.
    fold (evicted (tree s) item_name) in E.
    destruct (delete_loop_reports (dotfiles_path ++ [item_name])
                (evicted (tree s) item_name) s) as (t & E' & _ & Hkeep).
    { eapply sublist_NoDup; first [apply sublist_drop|apply generations_NoDup]. }
    { intros g. apply evicted_dirs. }
    rewrite E' in E. injection E as _ <-. cbn [tree]. by apply Hkeep.
  - destruct (list_backups (dotfiles_path ++ [item_name]) s)
      as [[backups|e] s1] eqn:E1.
    + exfalso. unfold list_backups, iterdir in E1. rewrite bind_unfold in E1.
      unfold dir_at in Hd.
      by destruct (fs_get (tree s) (dotfiles_path ++ [item_name])) as [[]|].
    + apply reads_list_backups in E1 as ->. by injection E as _ <-.
Qed.

Lemma cleanup_removes_old_backups_only_witness :
  ("notes" ∉ evicted (tree seven_backups) "nvim")
  ∧ fs_get (tree (cleanup_old_backups (dotfiles_path ++ ["nvim"])
                    seven_backups).2) (dotfiles_path ++ ["nvim"; "notes"])
    = Some (File "keep me").
Proof.
  assert ("notes" ∉ evicted (tree seven_backups) "nvim") as H.
  { vm_compute. intros Hin. apply list_elem_of_In in Hin.
    simpl in Hin. destruct Hin as [|[|[]]]; discriminate. }
  split; [exact H|].
  pose proof (proj1 (cleanup_removes_old_backups_only "nvim" seven_backups
                       "notes" H) []) as Hq.
  cbn zeta in Hq.
  change ((dotfiles_path ++ ["nvim"]) ++ ["notes"])
    with (dotfiles_path ++ ["nvim"; "notes"]) in Hq.
  rewrite Hq. vm_compute. reflexivity.
Defined.

End Cleanup.

(** ** Publishing the mirror twice *)

Module MirrorTwice.
Import TreeFacts OSFacts Frames Backup Samples Generation Mirror RetentionRun.











End MirrorTwice.

(** ** The layout of a generation of a directory *)

Module DirectoryLayout.
Import TreeFacts OSFacts Frames Backup Samples Generation Mirror Recent
  RetentionRun Layout.

Lemma fs_install_fresh (p : path) x y c n :
  dir_at n p = true → present n (p ++ [x]) = false →
  is_Some (fs_install ((p ++ [x]) ++ [y]) c n).
Proof.
  intros Hd Hp. unfold dir_at, present in *.
  destruct (fs_get n p) as [[|es]|] eqn:Hget; try done.
  rewrite <-app_assoc. rewrite (fs_install_app _ _ _ _ _ Hget).
  rewrite fs_get_app, Hget in Hp. simpl in Hp. simpl.
  destruct (es !! x) eqn:Hx; [done|]. simpl.
  by eapply fs_install_replace.
Qed.

(** The copy of a directory item under a time stamp that is new. *)
Lemma copy_generation_dir_ok source program_folder timestamp x es s :
  frozen s = [] →
  fs_get (tree s) source = Some (Dir es) →
  dir_at (tree s) program_folder = true →
  present (tree s) (program_folder ++ [timestamp]) = false →
  ∃ s', copy_generation source (program_folder ++ [timestamp])
          ((program_folder ++ [timestamp]) ++ [x]) s = (Ret true, s')
        ∧ fs_get (tree s') ((program_folder ++ [timestamp]) ++ [x])
          = Some (Dir es).
Proof.
  intros Hf Hsrc Hpf Hnew. unfold copy_generation.
  rewrite bind_unfold. unfold is_dir at 1, dir_at at 1. rewrite Hsrc.
  rewrite bind_unfold.
  destruct (fs_install_fresh program_folder timestamp x (Dir es) (tree s))
    as [t Hi]; [done..|].
  rewrite (copytree_ok _ _ _ es t); [|done|done| |done].
  2:{ unfold present in *. rewrite fs_get_below_None; [done|].
      by destruct (fs_get (tree s) (program_folder ++ [timestamp])). }
  rewrite bind_unfold. unfold print at 1.
  eexists. split; [done|]. cbn [tree with_tree].
  by eapply fs_get_install_eq.
Qed.

(** The mirror publish of a directory item where nothing is protected. *)
Lemma update_for_git_dir_ok item_name es s :
  frozen s = [] →
  fs_get (tree s) (config_path ++ [item_name]) = Some (Dir es) →
  dir_at (tree s) dotfiles_path = true →
  file_at (tree s) for_git_path = false →
  ∃ s', update_for_git item_name (config_path ++ [item_name]) s = (Ret true, s').
Proof.
  intros Hf Hsrc Hdot Hfg. unfold update_for_git.
  rewrite bind_unfold.
  destruct (mkdir_ok for_git_path s) as [s1 E1]; [done..|].
  rewrite E1. apply mkdir_Ret in E1 as (t1 & -> & Hfg1 & Hq1 & _ & _).
  rewrite bind_unfold. unfold exists_ at 1. rewrite bind_unfold.
  cbn [tree with_tree].
  set (destination := for_git_path ++ [item_name]).
  assert (∃ s2,
    (if present t1 destination then
       d ← is_dir destination;
       if d : bool then rmtree destination else unlink destination
     else mret tt) (with_tree t1 s) = (Ret tt, s2)) as [s2 E2].
  { destruct (present t1 destination) eqn:Hp; [|by eexists].
    rewrite bind_unfold. unfold is_dir at 1. cbn [tree with_tree].
    destruct (dir_at t1 destination) eqn:Hd.
    - rewrite rmtree_ok by done. by eexists.
    - rewrite unlink_ok; [by eexists|done|]. cbn [tree with_tree].
      unfold present, dir_at, file_at in *.
      by destruct (fs_get t1 destination) as [[]|]. }
  rewrite E2.
  pose proof (remove_old_version _ _ _ _ E2) as [Habs Hq2].
  { by destruct for_git_path. }
  assert (frozen s2 = [] ∧ dir_at (tree s2) for_git_path = true) as [Hf2 Hfg2].
  { destruct (present t1 destination); [|by injection E2 as <-].
    rewrite bind_unfold in E2. unfold is_dir at 1 in E2.
    cbn [tree with_tree] in E2.
    destruct (dir_at t1 destination).
    - apply rmtree_Ret in E2 as [-> _]. split; [done|].
      apply dir_at_remove_keep; [|done]. by apply below_app_None.
    - apply unlink_Ret in E2 as [-> _]. split; [done|].
      apply dir_at_remove_keep; [|done]. by apply below_app_None. }
  cbn [tree with_tree] in Hq2.
  assert (fs_get (tree s2) (config_path ++ [item_name]) = Some (Dir es))
    as Hsrc2.
  { rewrite Hq2 by (by paths). by rewrite Hq1. }
  rewrite try_unfold, bind_unfold. unfold is_dir at 1, dir_at at 1.
  rewrite Hsrc2, bind_unfold.
  assert (∃ t, fs_install destination (Dir es) (tree s2) = Some t) as [t Hi].
  { unfold dir_at in Hfg2.
    destruct (fs_get (tree s2) for_git_path) as [[|es2]|] eqn:Hg; try done.
    by destruct (fs_install_child for_git_path item_name (Dir es) (tree s2)
                   es2 Hg) as [t Hi]; exists t. }
  rewrite (copytree_ok _ _ _ es t) by done.
  rewrite bind_unfold. unfold print at 1. by eexists.
Qed.

(** The loop body on a directory item, where it goes well. *)
Lemma backup_item_dir_ok items timestamp idx item_name es s :
  py_index items (idx - 1) = Ret item_name →
  item_name ≠ "for-git" →
  frozen s = [] →
  fs_get (tree s) (config_path ++ [item_name]) = Some (Dir es) →
  dir_at (tree s) dotfiles_path = true →
  file_at (tree s) (dotfiles_path ++ [item_name]) = false →
  file_at (tree s) for_git_path = false →
  present (tree s) (dotfiles_path ++ [item_name; timestamp]) = false →
  Forall (name_gt timestamp) (generations (tree s) item_name) →
  ∃ s', backup_item items timestamp idx s = (Ret tt, s')
        ∧ success_count s' = S (success_count s)
        ∧ fail_count s' = fail_count s
        ∧ frozen s' = []
        ∧ fs_get (tree s') (dotfiles_path ++ [item_name; timestamp; item_name])
          = Some (Dir es)
        ∧ fs_get (tree s') (for_git_path ++ [item_name]) = Some (Dir es)
        ∧ fs_get (tree s') (config_path ++ [item_name]) = Some (Dir es)
        ∧ generations (tree s') item_name
          = take MAX_BACKUPS (timestamp :: generations (tree s) item_name).
Proof.
  intros Hidx Hitem Hf Hsrc Hdot Hpf Hfg Hnew Hnewest.
  set (source := config_path ++ [item_name]) in *.
  set (program_folder := dotfiles_path ++ [item_name]) in *.
  assert (∀ g, dotfiles_path ++ [item_name; g] = program_folder ++ [g]) as Hpath.
  { intros g. unfold program_folder. by rewrite <-app_assoc. }
  rewrite Hpath in Hnew.
  unfold backup_item. rewrite bind_unfold. unfold index at 1. rewrite Hidx.
  fold source program_folder. rewrite bind_unfold.
  (* program_folder.mkdir(exist_ok=True) *)
  destruct (mkdir_ok program_folder s) as [s2 E2]; [done|done|..].
  { unfold program_folder. by rewrite parent_snoc. }
  rewrite E2. apply mkdir_Ret in E2 as (t2 & -> & Hpf2 & Hq2 & Hd2 & _).
  cbn [tree frozen out success_count fail_count with_tree] in *.
  rewrite bind_unfold. unfold print at 1.
  cbn [tree frozen out success_count fail_count with_tree].
  assert (∀ q, below q program_folder = None → fs_get t2 q = fs_get (tree s) q)
    as Hsame2.
  { intros q Hq. by rewrite Hq2. }
  (* the copy of the directory *)
  rewrite try_unfold, bind_unfold.
  match goal with |- context [copy_generation source ?bf ?dst ?st] =>
    destruct (copy_generation_dir_ok source program_folder timestamp
                item_name es st) as (s3 & E3 & Hpay3) end; [done|..].
  { cbn [tree]. rewrite Hsame2; [done|]. by solve_path. }
  { done. }
  { cbn [tree]. unfold present in *. rewrite Hsame2; [done|].
    by apply below_app_None. }
  rewrite E3.
  apply copy_generation_created in E3 as (t3 & -> & Hbf3 & Hq3 & Hd3).
  cbn [tree frozen out success_count fail_count with_tree emit] in *.
  rewrite bind_unfold. unfold incr_success at 1.
  cbn [tree frozen out success_count fail_count]. rewrite bind_unfold.
  assert (fs_get t3 source = Some (Dir es)) as Hsrc3.
  { rewrite Hq3 by solve_path. rewrite Hsame2; [done|]. by solve_path. }
  (* update_for_git *)
  match goal with |- context [update_for_git item_name source ?st] =>
    destruct (update_for_git_dir_ok item_name es st) as [s4 E4] end;
    [done|..].
  { done. }
  { cbn [tree]. apply Hd3; [by solve_path|]. by apply Hd2. }
  { cbn [tree]. unfold file_at in *. rewrite Hq3 by solve_path.
    rewrite Hsame2; [done|]. by solve_path. }
  fold source in E4. rewrite E4.
  pose proof (update_for_git_result _ _ _ _ E4) as (Hmirror4 & _ & Hsrc4).
  pose proof (update_for_git_outside _ _ _ _ _ E4) as Ho4.
  pose proof (update_for_git_counts _ _ _ _ _ E4) as (Hs4 & Hf4 & Hfz4).
  cbn [tree frozen out success_count fail_count with_tree emit] in *.
  fold source in Hmirror4, Hsrc4. rewrite Hsrc3 in Hmirror4, Hsrc4.
  assert (∀ q, fs_get (tree s4) (program_folder ++ q)
               = fs_get t3 (program_folder ++ q)) as Hsame4.
  { intros q. apply Ho4. by solve_path. }
  (* cleanup_old_backups *)
  destruct (cleanup_ok item_name s4) as (s5 & E5 & Hout5).
  { by rewrite Hfz4. }
  { fold program_folder. unfold dir_at.
    rewrite <-(app_nil_r program_folder), Hsame4, app_nil_r.
    apply Hd3; [|done]. by apply below_app_None. }
  fold program_folder in E5. rewrite E5.
  pose proof (cleanup_outside _ _ _ _ E5) as Ho5.
  pose proof (cleanup_counts _ _ _ _ E5) as (Hs5 & Hf5 & Hfz5).
  apply cleanup_generations in E5 as (_ & evs & Hout5' & Hgens5).
  2:{ fold program_folder. unfold dir_at.
      rewrite <-(app_nil_r program_folder), Hsame4, app_nil_r.
      apply Hd3; [|done]. by apply below_app_None. }
  rewrite Hout5 in Hout5'. apply app_inv_head in Hout5' as <-.
  destruct (Hgens5 (no_delete_failure_deleted _)) as [Hg5 Hkeep5].
  assert (generations (tree s4) item_name
          = timestamp :: generations (tree s) item_name) as Hg4.
  { apply generations_ext.
    { constructor; [apply generations_strict|done]. }
    intros g. rewrite elem_of_cons, elem_generations, !Hpath.
    unfold dir_at. rewrite Hsame4.
    destruct (decide (g = timestamp)) as [->|Hne].
    - split; [auto|]. intros _. exact Hbf3.
    - rewrite Hq3 by (by apply diverge_siblings).
      rewrite Hsame2 by (by apply below_app_None). naive_solver. }
  rewrite Hg4 in Hkeep5, Hg5.
  assert (timestamp ∈ take MAX_BACKUPS
                          (timestamp :: generations (tree s) item_name)) as Hin.
  { apply list_elem_of_here. }
  eexists. split; [done|].
  split; [lia|]. split; [lia|]. split; [congruence|].
  split; [|split; [|split]].
  - rewrite (Hkeep5 timestamp [item_name] Hin).
    replace (dotfiles_path ++ [item_name; timestamp; item_name])
      with (program_folder ++ [timestamp; item_name])
      by (unfold program_folder; by rewrite <-app_assoc).
    rewrite Hsame4.
    replace (program_folder ++ [timestamp; item_name])
      with ((program_folder ++ [timestamp]) ++ [item_name])
      by by rewrite <-app_assoc.
    done.
  - rewrite Ho5 by solve_path. done.
  - rewrite Ho5 by solve_path. done.
  - done.
Qed.

(** The loop body on a directory item whose payload is there already. *)
Lemma backup_item_dir_exists items timestamp idx item_name s src old :
  py_index items (idx - 1) = Ret item_name →
  fs_get (tree s) (config_path ++ [item_name]) = Some (Dir src) →
  fs_get (tree s) (dotfiles_path ++ [item_name; timestamp; item_name])
    = Some (Dir old) →
  backup_item items timestamp idx s =
    (Ret tt, State (tree s) (frozen s)
               (out s ++ [BackingUp item_name; BackupError FileExistsError])
               (success_count s) (S (fail_count s))).
Proof.
  intros Hidx Hsrc Hdst.
  destruct (fs_get_above_dir (tree s) (dotfiles_path ++ [item_name])
              [timestamp; item_name] (Dir old)) as [es Hpf]; [done| |].
  { by rewrite <-app_assoc. }
  unfold backup_item.
  rewrite bind_unfold. unfold index. rewrite Hidx.
  rewrite bind_unfold, mkdir_dir by (unfold dir_at; by rewrite Hpf).
  rewrite bind_unfold. unfold print at 1.
  rewrite try_unfold. unfold copy_generation.
  rewrite !bind_unfold. unfold is_dir at 1, dir_at at 1.
  cbn [tree]. rewrite Hsrc.
  rewrite bind_unfold. paths.
  erewrite copytree_exists;
    [|cbn [tree]; exact Hsrc|unfold present; cbn [tree]; by rewrite Hdst].
  rewrite bind_unfold. unfold print, incr_fail. cbn.
  by rewrite <-app_assoc.
Qed.

Lemma backup_items_start items selected_indices timestamp s :
  frozen s = [] →
  is_Dir (tree s) = true →
  file_at (tree s) dotfiles_path = false →
  ∃ t, dir_at t dotfiles_path = true
       ∧ (∀ q, below q dotfiles_path = None → fs_get t q = fs_get (tree s) q)
       ∧ backup_items items selected_indices timestamp s
         = (for_each selected_indices (backup_item items timestamp);;
            print_results)
             (State t (frozen s) (out s) 0 0).
Proof.
  intros Hf Hroot Hdot. unfold backup_items. rewrite bind_unfold.
  destruct (mkdir_ok dotfiles_path s) as [s1 E1]; [done|done|..].
  { unfold dir_at. simpl. by destruct (tree s). }
  rewrite E1. apply mkdir_Ret in E1 as (t1 & -> & Hdot1 & Hq1 & _ & _).
  exists t1. split; [done|]. split; [done|].
  by rewrite bind_unfold.
Qed.

(** X10. Backing up a directory.  In a home where nothing is protected and no
    file stands where the script needs a folder, backing up the directory
    item [X] (not named [for-git]) at a time stamp [T] that is new and more
    recent than the generations of [X] succeeds: the payload
    [<backupRoot>/X/T/X] and the mirror [<backupRoot>/for-git/X] are
    directories with the entries of the source, whatever was in the mirror
    before, and the source is as it was. *)
Theorem directory_layout items timestamp idx item_name es s :
  py_index items (idx - 1) = Ret item_name →
  item_name ≠ "for-git" →
  frozen s = [] →
  fs_get (tree s) (config_path ++ [item_name]) = Some (Dir es) →
  file_at (tree s) dotfiles_path = false →
  file_at (tree s) (dotfiles_path ++ [item_name]) = false →
  file_at (tree s) for_git_path = false →
  present (tree s) (dotfiles_path ++ [item_name; timestamp]) = false →
  Forall (name_gt timestamp) (generations (tree s) item_name) →
  ∃ s', backup_items items [idx] timestamp s = (Ret tt, s')
        ∧ success_count s' = 1%nat
        ∧ fail_count s' = 0%nat
        ∧ fs_get (tree s') (dotfiles_path ++ [item_name; timestamp; item_name])
          = Some (Dir es)
        ∧ fs_get (tree s') (for_git_path ++ [item_name]) = Some (Dir es)
        ∧ fs_get (tree s') (config_path ++ [item_name]) = Some (Dir es)
        ∧ generations (tree s') item_name
          = take MAX_BACKUPS (timestamp :: generations (tree s) item_name).
Proof.
  intros Hidx Hitem Hf Hsrc Hdot Hpf Hfg Hnew Hnewest.
  assert (is_Dir (tree s) = true) as Hroot.
  { simpl in Hsrc. by destruct (tree s). }
  destruct (backup_items_start items [idx] timestamp s Hf Hroot Hdot)
    as (t1 & Hdot1 & Hq1 & ->).
  assert (generations t1 item_name = generations (tree s) item_name) as Hg1.
  { apply generations_same. intros g. apply Hq1. by solve_path. }
  rewrite bind_unfold. simpl for_each. rewrite bind_unfold.
  destruct (backup_item_dir_ok items timestamp idx item_name es
              (State t1 (frozen s) (out s) 0 0))
    as (s2 & E2 & Hs2 & Hf2 & _ & Hpay & Hmir & Hsrc2 & Hg2); try done.
  { cbn [tree]. rewrite Hq1; [done|]. by solve_path. }
  { cbn [tree]. unfold file_at in *. rewrite Hq1; [done|]. by solve_path. }
  { cbn [tree]. unfold file_at in *. rewrite Hq1; [done|]. by solve_path. }
  { cbn [tree]. unfold present in *. rewrite Hq1; [done|]. by solve_path. }
  { cbn [tree]. by rewrite Hg1. }
  rewrite E2. unfold mret at 1, M_ret at 1.
  unfold print_results, print. eexists. split; [done|].
  cbn [tree frozen out success_count fail_count] in *.
  rewrite Hg1 in Hg2. done.
Qed.

(** X11. An item selected twice.  In the same conditions, a batch that names the
    directory item twice backs it up once: the second copy finds the
    payload of the first and fails, the batch counts one success and one
    failure, and the payload and the mirror are those of the first copy. *)
Theorem directory_selected_twice items timestamp idx item_name es s :
  py_index items (idx - 1) = Ret item_name →
  item_name ≠ "for-git" →
  frozen s = [] →
  fs_get (tree s) (config_path ++ [item_name]) = Some (Dir es) →
  file_at (tree s) dotfiles_path = false →
  file_at (tree s) (dotfiles_path ++ [item_name]) = false →
  file_at (tree s) for_git_path = false →
  present (tree s) (dotfiles_path ++ [item_name; timestamp]) = false →
  Forall (name_gt timestamp) (generations (tree s) item_name) →
  ∃ s', backup_items items [idx; idx] timestamp s = (Ret tt, s')
        ∧ success_count s' = 1%nat
        ∧ fail_count s' = 1%nat
        ∧ BackupError FileExistsError ∈ out s'
        ∧ fs_get (tree s') (dotfiles_path ++ [item_name; timestamp; item_name])
          = Some (Dir es)
        ∧ fs_get (tree s') (for_git_path ++ [item_name]) = Some (Dir es).
Proof.
  intros Hidx Hitem Hf Hsrc Hdot Hpf Hfg Hnew Hnewest.
  assert (is_Dir (tree s) = true) as Hroot.
  { simpl in Hsrc. by destruct (tree s). }
  destruct (backup_items_start items [idx; idx] timestamp s Hf Hroot Hdot)
    as (t1 & Hdot1 & Hq1 & ->).
  assert (generations t1 item_name = generations (tree s) item_name) as Hg1.
  { apply generations_same. intros g. apply Hq1. by solve_path. }
  rewrite bind_unfold. simpl for_each. rewrite bind_unfold.
  destruct (backup_item_dir_ok items timestamp idx item_name es
              (State t1 (frozen s) (out s) 0 0))
    as (s2 & E2 & Hs2 & Hf2 & _ & Hpay & Hmir & Hsrc2 & Hg2); try done.
  { cbn [tree]. rewrite Hq1; [done|]. by solve_path. }
  { cbn [tree]. unfold file_at in *. rewrite Hq1; [done|]. by solve_path. }
  { cbn [tree]. unfold file_at in *. rewrite Hq1; [done|]. by solve_path. }
  { cbn [tree]. unfold present in *. rewrite Hq1; [done|]. by solve_path. }
  { cbn [tree]. by rewrite Hg1. }
  rewrite E2, bind_unfold.
  rewrite (backup_item_dir_exists items timestamp idx item_name s2 es es)
    by done.
  unfold mret at 1, M_ret at 1.
  unfold print_results, print. eexists. split; [done|].
  cbn [tree frozen out success_count fail_count] in *.
  split; [lia|]. split; [lia|]. split; [|done].
  rewrite !elem_of_app, !elem_of_cons. auto.
Qed.

Lemma directory_layout_witness :
  py_index ["bashrc"; "nvim"] (2 - 1) = Ret "nvim"
  ∧ fs_get (tree stale_mirror) (config_path ++ ["nvim"])
    = Some (Dir {[ "init.lua" := File "set number" ]})
  ∧ present (tree stale_mirror) (dotfiles_path ++ ["nvim"; stamp]) = false
  ∧ ∃ s', backup_items ["bashrc"; "nvim"] [2] stamp stale_mirror = (Ret tt, s')
          ∧ fs_get (tree s') (dotfiles_path ++ ["nvim"; stamp; "nvim"])
            = Some (Dir {[ "init.lua" := File "set number" ]})
          ∧ fs_get (tree s') (for_git_path ++ ["nvim"])
            = Some (Dir {[ "init.lua" := File "set number" ]})
          ∧ generations (tree s') "nvim" = [stamp].
Proof.
  assert (py_index ["bashrc"; "nvim"] (2 - 1) = Ret "nvim") as H1
    by reflexivity.
  assert ("nvim" ≠ "for-git") as H2 by discriminate.
  assert (frozen stale_mirror = []) as H3 by reflexivity.
  assert (fs_get (tree stale_mirror) (config_path ++ ["nvim"])
          = Some (Dir {[ "init.lua" := File "set number" ]})) as H4
    by (vm_compute; reflexivity).
  assert (file_at (tree stale_mirror) dotfiles_path = false) as H5
    by (vm_compute; reflexivity).
  assert (file_at (tree stale_mirror) (dotfiles_path ++ ["nvim"]) = false) as H6
    by (vm_compute; reflexivity).
  assert (file_at (tree stale_mirror) for_git_path = false) as H7
    by (vm_compute; reflexivity).
  assert (present (tree stale_mirror) (dotfiles_path ++ ["nvim"; stamp]) = false)
    as H8 by (vm_compute; reflexivity).
  assert (Forall (name_gt stamp) (generations (tree stale_mirror) "nvim")) as H9
    by (vm_compute; constructor).
  split; [exact H1|]. split; [exact H4|]. split; [exact H8|].
  destruct (directory_layout _ _ _ _ _ _ H1 H2 H3 H4 H5 H6 H7 H8 H9)
    as (s' & E & _ & _ & Hpay & Hmir & _ & Hgen).
  exists s'. split; [exact E|]. split; [exact Hpay|]. split; [exact Hmir|].
  rewrite Hgen. vm_compute. reflexivity.
Defined.

Lemma directory_selected_twice_witness :
  py_index ["bashrc"; "nvim"] (2 - 1) = Ret "nvim"
  ∧ present (tree fresh) (dotfiles_path ++ ["nvim"; stamp]) = false
  ∧ ∃ s', backup_items ["bashrc"; "nvim"] [2; 2] stamp fresh = (Ret tt, s')
          ∧ success_count s' = 1%nat
          ∧ fail_count s' = 1%nat
          ∧ fs_get (tree s') (dotfiles_path ++ ["nvim"; stamp; "nvim"])
            = Some (Dir {[ "init.lua" := File "set number" ]}).
Proof.
  assert (py_index ["bashrc"; "nvim"] (2 - 1) = Ret "nvim") as H1
    by reflexivity.
  assert ("nvim" ≠ "for-git") as H2 by discriminate.
  assert (frozen fresh = []) as H3 by reflexivity.
  assert (fs_get (tree fresh) (config_path ++ ["nvim"])
          = Some (Dir {[ "init.lua" := File "set number" ]})) as H4
    by (vm_compute; reflexivity).
  assert (file_at (tree fresh) dotfiles_path = false) as H5
    by (vm_compute; reflexivity).
  assert (file_at (tree fresh) (dotfiles_path ++ ["nvim"]) = false) as H6
    by (vm_compute; reflexivity).
  assert (file_at (tree fresh) for_git_path = false) as H7
    by (vm_compute; reflexivity).
  assert (present (tree fresh) (dotfiles_path ++ ["nvim"; stamp]) = false)
    as H8 by (vm_compute; reflexivity).
  assert (Forall (name_gt stamp) (generations (tree fresh) "nvim")) as H9
    by (vm_compute; constructor).
  split; [exact H1|]. split; [exact H8|].
  destruct (directory_selected_twice _ _ _ _ _ _ H1 H2 H3 H4 H5 H6 H7 H8 H9)
    as (s' & E & Hs & Hfl & _ & Hpay & _).
  exists s'. split; [exact E|]. split; [exact Hs|]. split; [exact Hfl|].
  exact Hpay.
Defined.

End DirectoryLayout.

(** ** A second backup of a file in the same second *)

Module SameSecondFile.
Import TreeFacts OSFacts Frames Backup Samples MoreSamples Generation Mirror
  Recent RetentionRun Layout.

(** The copy of a file item over the payload of an existing generation. *)
Lemma copy_generation_file_over source program_folder timestamp x data old s :
  frozen s = [] →
  fs_get (tree s) source = Some (File data) →
  fs_get (tree s) ((program_folder ++ [timestamp]) ++ [x]) = Some (File old) →
  ∃ s', copy_generation source (program_folder ++ [timestamp])
          ((program_folder ++ [timestamp]) ++ [x]) s = (Ret true, s')
        ∧ fs_get (tree s') ((program_folder ++ [timestamp]) ++ [x])
          = Some (File data).
Proof.
  intros Hf Hsrc Hold. unfold copy_generation.
  rewrite bind_unfold. unfold is_dir at 1, dir_at at 1. rewrite Hsrc.
  rewrite bind_unfold. unfold is_file at 1, file_at at 1. rewrite Hsrc.
  rewrite bind_unfold.
  assert (dir_at (tree s) (program_folder ++ [timestamp]) = true) as Hbf.
  { destruct (fs_get_above_dir (tree s) (program_folder ++ [timestamp]) [x]
                (File old)) as [es Hes]; [done|done|].
    unfold dir_at. by rewrite Hes. }
  rewrite mkdir_dir by done. rewrite bind_unfold.
  destruct (copy2_ok source ((program_folder ++ [timestamp]) ++ [x]) s data)
    as (t & Hi & E2); [done|done|..].
  { unfold dir_at. by rewrite Hold. }
  { by rewrite parent_snoc. }
  { by destruct (program_folder ++ [timestamp]). }
  rewrite E2. rewrite bind_unfold. unfold print at 1.
  eexists. split; [done|]. cbn [tree with_tree].
  by eapply fs_get_install_eq.
Qed.

(** X12. A second backup of a file item in the same second.  Where nothing is
    protected, if the generation of the time stamp [T] already holds the
    payload [<backupRoot>/X/T/X] as a file and [T] is among the
    [MAX_BACKUPS] newest generations of [X], the backup of the file item
    [X] (not named [for-git]) at [T] succeeds: the payload and the mirror
    are overwritten with the content of the source, the item counts as a
    success, and no generation is added. *)
Theorem same_second_file_overwrites items timestamp idx item_name data old s :
  py_index items (idx - 1) = Ret item_name →
  item_name ≠ "for-git" →
  frozen s = [] →
  fs_get (tree s) (config_path ++ [item_name]) = Some (File data) →
  fs_get (tree s) (dotfiles_path ++ [item_name; timestamp; item_name])
    = Some (File old) →
  file_at (tree s) for_git_path = false →
  timestamp ∈ take MAX_BACKUPS (generations (tree s) item_name) →
  ∃ s', backup_items items [idx] timestamp s = (Ret tt, s')
        ∧ success_count s' = 1%nat
        ∧ fail_count s' = 0%nat
        ∧ fs_get (tree s') (dotfiles_path ++ [item_name; timestamp; item_name])
          = Some (File data)
        ∧ fs_get (tree s') (for_git_path ++ [item_name]) = Some (File data)
        ∧ generations (tree s') item_name
          = take MAX_BACKUPS (generations (tree s) item_name).
Proof.
  intros Hidx Hitem Hf Hsrc Hold Hfg Hkept.
  set (source := config_path ++ [item_name]) in *.
  set (program_folder := dotfiles_path ++ [item_name]) in *.
  assert (∀ g, dotfiles_path ++ [item_name; g] = program_folder ++ [g]) as Hpath.
  { intros g. unfold program_folder. by rewrite <-app_assoc. }
  assert (dotfiles_path ++ [item_name; timestamp; item_name]
          = (program_folder ++ [timestamp]) ++ [item_name]) as Hdest.
  { unfold program_folder. by rewrite <-!app_assoc. }
  rewrite Hdest in Hold.
  assert (dir_at (tree s) (program_folder ++ [timestamp]) = true) as Hbf.
  { destruct (fs_get_above_dir (tree s) (program_folder ++ [timestamp])
                [item_name] (File old)) as [es Hes]; [done|done|].
    unfold dir_at. by rewrite Hes. }
  assert (dir_at (tree s) program_folder = true) as Hpf.
  { destruct (fs_get_above_dir (tree s) program_folder [timestamp; item_name]
                (File old)) as [es Hes]; [done| |].
    - by rewrite <-Hold, <-!app_assoc.
    - unfold dir_at. by rewrite Hes. }
  assert (dir_at (tree s) dotfiles_path = true) as Hdot.
  { destruct (fs_get_above_dir (tree s) dotfiles_path
                [item_name; timestamp; item_name] (File old)) as [es Hes];
      [done| |].
    - by rewrite <-Hold, Hdest.
    - unfold dir_at. by rewrite Hes. }
  unfold backup_items. rewrite bind_unfold.
  rewrite mkdir_dir by done.
  rewrite bind_unfold. unfold reset_counts at 1.
  cbn [tree frozen out success_count fail_count with_tree].
  rewrite bind_unfold. simpl for_each. rewrite bind_unfold.
  unfold backup_item. rewrite bind_unfold. unfold index at 1. rewrite Hidx.
  fold source program_folder. rewrite bind_unfold.
  rewrite mkdir_dir by done.
  rewrite bind_unfold. unfold print at 1.
  cbn [tree frozen out success_count fail_count with_tree].
  (* the copy of the file *)
  rewrite try_unfold, bind_unfold.
  match goal with |- context [copy_generation source ?bf ?dst ?st] =>
    destruct (copy_generation_file_over source program_folder timestamp
                item_name data old st) as (s3 & E3 & Hpay3) end; [done..|].
  rewrite E3.
  apply copy_generation_created in E3 as (t3 & -> & Hbf3 & Hq3 & Hd3).
  cbn [tree frozen out success_count fail_count with_tree emit] in *.
  rewrite bind_unfold. unfold incr_success at 1.
  cbn [tree frozen out success_count fail_count]. rewrite bind_unfold.
  (* update_for_git *)
  match goal with |- context [update_for_git item_name source ?st] =>
    destruct (update_for_git_file_ok item_name data st) as [s4 E4] end;
    [done|..].
  { cbn [tree]. fold source. by rewrite Hq3 by solve_path. }
  { cbn [tree]. apply Hd3; [by solve_path|done]. }
  { cbn [tree]. unfold file_at in *. by rewrite Hq3 by solve_path. }
  fold source in E4. rewrite E4.
  pose proof (update_for_git_result _ _ _ _ E4) as (Hmirror4 & _ & _).
  pose proof (update_for_git_outside _ _ _ _ _ E4) as Ho4.
  pose proof (update_for_git_counts _ _ _ _ _ E4) as (Hs4 & Hf4 & Hfz4).
  cbn [tree frozen out success_count fail_count with_tree emit] in *.
  fold source in Hmirror4. rewrite Hq3 in Hmirror4 by solve_path.
  rewrite Hsrc in Hmirror4.
  assert (∀ q, fs_get (tree s4) (program_folder ++ q)
               = fs_get t3 (program_folder ++ q)) as Hsame4.
  { intros q. apply Ho4. by solve_path. }
  (* cleanup_old_backups *)
  destruct (cleanup_ok item_name s4) as (s5 & E5 & Hout5).
  { by rewrite Hfz4. }
  { fold program_folder. unfold dir_at.
    rewrite <-(app_nil_r program_folder), Hsame4, app_nil_r.
    apply Hd3; [|done]. by apply below_app_None. }
  fold program_folder in E5. rewrite E5.
  pose proof (cleanup_outside _ _ _ _ E5) as Ho5.
  pose proof (cleanup_counts _ _ _ _ E5) as (Hs5 & Hf5 & _).
  apply cleanup_generations in E5 as (_ & evs & Hout5' & Hgens5).
  2:{ fold program_folder. unfold dir_at.
      rewrite <-(app_nil_r program_folder), Hsame4, app_nil_r.
      apply Hd3; [|done]. by apply below_app_None. }
  rewrite Hout5 in Hout5'. apply app_inv_head in Hout5' as <-.
  destruct (Hgens5 (no_delete_failure_deleted _)) as [Hg5 Hkeep5].
  assert (generations (tree s4) item_name = generations (tree s) item_name)
    as Hg4.
  { apply generations_ext; [apply generations_strict|].
    intros g. rewrite elem_generations, !Hpath.
    unfold dir_at. rewrite Hsame4.
    destruct (decide (g = timestamp)) as [->|Hne].
    - fold (dir_at t3 (program_folder ++ [timestamp])).
      fold (dir_at (tree s) (program_folder ++ [timestamp])).
      by rewrite Hbf3, Hbf.
    - by rewrite Hq3 by (by apply diverge_siblings). }
  rewrite Hg4 in Hkeep5, Hg5.
  unfold mret at 1, M_ret at 1.
  unfold print_results, print. eexists. split; [done|].
  cbn [tree frozen out success_count fail_count].
  split; [lia|]. split; [lia|]. split; [|split].
  - rewrite (Hkeep5 timestamp [item_name] Hkept).
    replace (dotfiles_path ++ [item_name; timestamp; item_name])
      with (program_folder ++ [timestamp; item_name])
      by (unfold program_folder; by rewrite <-app_assoc).
    rewrite Hsame4.
    replace (program_folder ++ [timestamp; item_name])
      with ((program_folder ++ [timestamp]) ++ [item_name])
      by by rewrite <-app_assoc.
    done.
  - rewrite Ho5 by solve_path. done.
  - done.
Qed.

Lemma same_second_file_overwrites_witness :
  py_index ["bashrc"; "nvim"] (1 - 1) = Ret "bashrc"
  ∧ fs_get (tree bashrc_backed_up) (dotfiles_path ++ ["bashrc"; stamp; "bashrc"])
    = Some (File "alias l=ls")
  ∧ ∃ s', backup_items ["bashrc"; "nvim"] [1] stamp bashrc_backed_up
          = (Ret tt, s')
          ∧ success_count s' = 1%nat
          ∧ fs_get (tree s') (dotfiles_path ++ ["bashrc"; stamp; "bashrc"])
            = Some (File "alias ll=ls")
          ∧ generations (tree s') "bashrc" = [stamp].
Proof.
  assert (py_index ["bashrc"; "nvim"] (1 - 1) = Ret "bashrc") as H1
    by reflexivity.
  assert ("bashrc" ≠ "for-git") as H2 by discriminate.
  assert (frozen bashrc_backed_up = []) as H3 by reflexivity.
  assert (fs_get (tree bashrc_backed_up) (config_path ++ ["bashrc"])
          = Some (File "alias ll=ls")) as H4 by (vm_compute; reflexivity).
  assert (fs_get (tree bashrc_backed_up)
            (dotfiles_path ++ ["bashrc"; stamp; "bashrc"])
          = Some (File "alias l=ls")) as H5 by (vm_compute; reflexivity).
  assert (file_at (tree bashrc_backed_up) for_git_path = false) as H6
    by (vm_compute; reflexivity).
  assert (stamp ∈ take MAX_BACKUPS (generations (tree bashrc_backed_up) "bashrc"))
    as H7 by (vm_compute; apply list_elem_of_here).
  split; [exact H1|]. split; [exact H5|].
  destruct (same_second_file_overwrites _ _ _ _ _ _ _ H1 H2 H3 H4 H5 H6 H7)
    as (s' & E & Hs & _ & Hpay & _ & Hgen).
  exists s'. split; [exact E|]. split; [exact Hs|]. split; [exact Hpay|].
  rewrite Hgen. vm_compute. reflexivity.
Defined.

End SameSecondFile.

(** ** The prompt, line by line *)

Module PromptFacts.
Import Text Selection SelectionFacts.

Section WithInt.
Variable int : string → option Z.

Lemma complaints_app evs1 evs2 :
  complaints (evs1 ++ evs2) = (complaints evs1 + complaints evs2)%nat.
Proof. unfold complaints. by rewrite filter_app, length_app. Qed.

Lemma complaints_out_of_range (nums : list Z) :
  complaints (OutOfRange <$> nums) = 0%nat.
Proof. by induction nums. Qed.

Lemma collect_raises max_num parts numbers e evs :
  collect int max_num parts numbers = (Raise e, evs) → e = ValueError.
Proof.
  rewrite collect_spec. destruct (all_ints int parts); congruence.
Qed.

Lemma collect_complaints max_num parts numbers r evs :
  collect int max_num parts numbers = (r, evs) → complaints evs = 0%nat.
Proof.
  rewrite collect_spec. intros [= _ <-]. apply complaints_out_of_range.
Qed.

Lemma get_user_selection_outcome max_num stdin r evs rest :
  get_user_selection int max_num stdin = (r, evs, rest) →
  match r with
  | Ret _ =>
      ∃ read, stdin = read ++ rest ∧ length read = S (complaints evs)
  | Raise e =>
      e = EOFError ∧ rest = [] ∧ complaints evs = length stdin
  end.
Proof.
  revert r evs rest.
  induction stdin as [|line stdin IH]; intros r evs rest; simpl.
  { by intros [= <- <- <-]. }
  repeat case_decide; try (intros [= <- <- <-]; by exists [line]).
  destruct (collect int max_num _ []) as [[[|num numbers]|e] evs0] eqn:Ec.
  - destruct (get_user_selection int max_num stdin) as [[r' evs'] rest'].
    intros [= <- <- <-]. specialize (IH _ _ _ eq_refl).
    rewrite complaints_app, (collect_complaints _ _ _ _ _ Ec). simpl.
    change (complaints (NoValidNumber :: evs')) with (S (complaints evs')).
    destruct r' as [sel|e].
    + destruct IH as (read & -> & Hlen). exists (line :: read).
      split; [done|]. simpl. by rewrite Hlen.
    + destruct IH as (-> & -> & ->). done.
  - intros [= <- <- <-]. exists [line]. split; [done|]. simpl.
    by rewrite (collect_complaints _ _ _ _ _ Ec).
  - rewrite (collect_raises _ _ _ _ _ Ec).
    destruct (get_user_selection int max_num stdin) as [[r' evs'] rest'].
    intros [= <- <- <-]. specialize (IH _ _ _ eq_refl).
    rewrite complaints_app, (collect_complaints _ _ _ _ _ Ec). simpl.
    change (complaints (ValidNumbersOnly :: evs')) with (S (complaints evs')).
    destruct r' as [sel|e'].
    + destruct IH as (read & -> & Hlen). exists (line :: read).
      split; [done|]. simpl. by rewrite Hlen.
    + destruct IH as (-> & -> & ->). done.
Qed.

(** X13. The prompt asks until a line gives an answer: every line it read but
    the last was rejected with one message, [ValueError] never leaves it,
    and the only exception is [EOFError], when all the input was read and
    every line was rejected. *)
Theorem prompt_asks_until_answered max_num stdin r evs rest :
  get_user_selection int max_num stdin = (r, evs, rest) →
  match r with
  | Ret _ =>
      ∃ read, stdin = read ++ rest ∧ length read = S (complaints evs)
  | Raise e =>
      e = EOFError ∧ rest = [] ∧ complaints evs = length stdin
  end.
Proof. apply get_user_selection_outcome. Qed.

(** The numbers the prompt returns index [items]. *)
Lemma get_user_selection_in_range max_num stdin numbers evs rest :
  get_user_selection int max_num stdin = (Ret (Numbers numbers), evs, rest) →
  Forall (in_range max_num) numbers.
Proof.
  revert evs rest. induction stdin as [|line stdin IH]; intros evs rest; simpl.
  { done. }
  repeat case_decide; try done.
  { intros [= <- _ _]. apply Forall_forall. intros n Hn.
    apply elem_of_seqZ in Hn. unfold in_range. lia. }
  destruct (collect int max_num _ []) as [[[|num nums]|e] evs0] eqn:Ec.
  - destruct (get_user_selection int max_num stdin) as [[r' evs'] rest'].
    intros [= -> _ _]. by eapply IH.
  - intros [= <- _ _]. by eapply collect_in_range.
  - destruct e; try done.
    destruct (get_user_selection int max_num stdin) as [[r' evs'] rest'].
    intros [= -> _ _]. by eapply IH.
Qed.

End WithInt.

Lemma prompt_asks_until_answered_witness :
  get_user_selection int_ascii 3 ["0"; "two"; ""; "2 3"; "q"]
  = (Ret (Numbers [2; 3]),
     [OutOfRange 0; NoValidNumber; ValidNumbersOnly; NoValidNumber], ["q"])
  ∧ ∃ read, ["0"; "two"; ""; "2 3"; "q"] = read ++ ["q"]
            ∧ length read = 4%nat.
Proof.
  assert (get_user_selection int_ascii 3 ["0"; "two"; ""; "2 3"; "q"]
          = (Ret (Numbers [2; 3]),
             [OutOfRange 0; NoValidNumber; ValidNumbersOnly; NoValidNumber],
             ["q"])) as H by (vm_compute; reflexivity).
  split; [exact H|].
  exact (prompt_asks_until_answered int_ascii _ _ _ _ _ H).
Defined.

End PromptFacts.

(** ** The menu *)

Module MenuFacts.
Import TreeFacts OSFacts Frames Backup Samples Generation RetentionRun.
Import Text Selection SelectionFacts PromptFacts BatchFrames.
Import MoreSamples Menu MenuNotions MenuSamples.

Lemma bind_unfold_u {A B} (f : A → U B) (m : U A) ss :
  (m ≫= f) ss = match m ss with
                | (Ret a, ss') => f a ss'
                | (Raise e, ss') => (Raise e, ss')
                end.
Proof. done. Qed.

Lemma try_unfold_u {A} (body : U A) handler ss :
  try_u body handler ss = match body ss with
                          | (Ret a, ss') => (Ret a, ss')
                          | (Raise e, ss') => handler e ss'
                          end.
Proof. done. Qed.

Lemma lift_unfold {A} (m : M A) ss :
  lift m ss = ((m (home ss)).1,
               Session (m (home ss)).2 (screen ss) (stdin ss) (ticks ss)).
Proof. unfold lift. by destruct (m (home ss)). Qed.

Lemma lift_reads {A} (m : M A) ss :
  reads m → lift m ss = ((m (home ss)).1, ss).
Proof.
  intros Hm. rewrite lift_unfold.
  destruct (m (home ss)) as [r s'] eqn:E. rewrite (Hm _ _ _ E).
  by destruct ss.
Qed.

Lemma reads_iterdir p : reads (iterdir p).
Proof.
  intros s r s'. unfold iterdir.
  by destruct (fs_get (tree s) p) as [[]|]; intros [= _ <-].
Qed.

Lemma reads_rglob_size p : reads (rglob_size p).
Proof. by intros s r s' [= _ <-]. Qed.

(** *** Relations that the menu keeps *)

Section Keeps.
Variable R : session → session → Prop.
Hypothesis R_refl : ∀ ss, R ss ss.
Hypothesis R_trans : ∀ s1 s2 s3, R s1 s2 → R s2 s3 → R s1 s3.

Lemma keeps_ret {A} (a : A) : keeps R (mret a).
Proof. intros ss r ss' [= _ <-]. apply R_refl. Qed.

Lemma keeps_raise {A} e : keeps R (@raise_u A e).
Proof. intros ss r ss' [= _ <-]. apply R_refl. Qed.

Lemma keeps_bind {A B} (m : U A) (f : A → U B) :
  keeps R m → (∀ a, keeps R (f a)) → keeps R (m ≫= f).
Proof.
  intros Hm Hf ss r ss'. rewrite bind_unfold_u.
  destruct (m ss) as [[a|e] s1] eqn:E.
  - intros Hfa. eapply R_trans; [by eapply Hm|by eapply Hf].
  - intros [= _ <-]. by eapply Hm.
Qed.

Lemma keeps_try {A} (body : U A) handler :
  keeps R body → (∀ e, keeps R (handler e)) → keeps R (try_u body handler).
Proof.
  intros Hm Hh ss r ss'. rewrite try_unfold_u.
  destruct (body ss) as [[a|e] s1] eqn:E.
  - intros [= _ <-]. by eapply Hm.
  - intros Hhe. eapply R_trans; [by eapply Hm|by eapply Hh].
Qed.

Lemma keeps_for_each {A} (l : list A) body :
  (∀ x, keeps R (body x)) → keeps R (for_each_u l body).
Proof.
  intros Hb. induction l as [|x l IH]; simpl.
  - apply keeps_ret.
  - apply keeps_bind; auto.
Qed.

Lemma keeps_lift_reads {A} (m : M A) : reads m → keeps R (lift m).
Proof. intros Hm ss r ss'. rewrite lift_reads by done. by intros [= _ <-]. Qed.

Hypothesis R_say : ∀ n, keeps R (say n).

Lemma keeps_get_config_items : keeps R get_config_items.
Proof.
  unfold get_config_items.
  apply keeps_bind; [apply keeps_lift_reads, reads_exists|]. intros found.
  destruct (negb found).
  - apply keeps_bind; [done|]. intros _. apply keeps_ret.
  - apply keeps_try.
    + apply keeps_bind; [apply keeps_lift_reads, reads_iterdir|].
      intros names. apply keeps_ret.
    + intros e. destruct e; try apply keeps_raise.
      apply keeps_bind; [done|]. intros _. apply keeps_ret.
Qed.

Lemma keeps_display_items items : keeps R (display_items items).
Proof.
  unfold display_items. apply keeps_for_each. intros [idx item].
  apply keeps_bind; [apply keeps_lift_reads, reads_is_dir|]. by intros d.
Qed.

Lemma keeps_show_backup_history : keeps R show_backup_history.
Proof.
  unfold show_backup_history.
  apply keeps_bind; [apply keeps_lift_reads, reads_exists|]. intros found.
  destruct (negb found); [done|].
  apply keeps_bind; [apply keeps_lift_reads, reads_iterdir|]. intros folders.
  apply keeps_bind.
  { apply keeps_for_each. intros name.
    apply keeps_bind; [apply keeps_lift_reads, reads_is_dir|]. intros d.
    destruct (d && _); [|apply keeps_ret].
    apply keeps_bind; [apply keeps_lift_reads, reads_iterdir|]. intros entries.
    destruct (sorted_desc entries) as [|b bs]; [apply keeps_ret|].
    apply keeps_bind; [done|]. intros _.
    apply keeps_for_each. intros backup.
    apply keeps_bind; [apply keeps_lift_reads, reads_rglob_size|].
    by intros size. }
  intros _.
  apply keeps_bind; [apply keeps_lift_reads, reads_exists|]. intros fg.
  destruct fg; [|apply keeps_ret].
  apply keeps_bind; [done|]. intros _.
  apply keeps_bind; [apply keeps_lift_reads, reads_iterdir|]. intros entries.
  apply keeps_for_each. intros item.
  apply keeps_bind; [apply keeps_lift_reads, reads_rglob_size|]. intros size.
  apply keeps_bind; [apply keeps_lift_reads, reads_is_dir|]. by intros d.
Qed.

Variable int : string → option Z.
Variable now : nat → string.
Hypothesis R_prompt : ∀ max_num, keeps R (prompt int max_num).
Hypothesis R_now : keeps R (strftime_now now).
Hypothesis R_input : keeps R input.
Hypothesis R_backup : ∀ items selected_indices timestamp,
  keeps R (lift (backup_items items selected_indices timestamp)).

Lemma keeps_round items : keeps R (round int now items).
Proof.
  unfold round.
  apply keeps_bind; [apply keeps_display_items|]. intros _.
  apply keeps_bind; [done|]. intros [| |numbers].
  - apply keeps_bind; [done|]. intros _. apply keeps_ret.
  - apply keeps_bind; [apply keeps_show_backup_history|]. intros _.
    apply keeps_ret.
  - apply keeps_bind; [done|]. intros timestamp.
    apply keeps_bind; [done|]. intros _.
    apply keeps_bind; [done|]. intros choice.
    case_decide; [apply keeps_ret|].
    apply keeps_bind; [done|]. intros _. apply keeps_ret.
Qed.

Lemma keeps_main_loop items fuel : ∀ ss r ss',
  main_loop int now fuel items ss = Some (r, ss') → R ss ss'.
Proof.
  induction fuel as [|fuel IH]; intros ss r ss'; simpl; [done|].
  destruct (round int now items ss) as [[[|]|e] s1] eqn:E.
  - intros H. eapply R_trans; [by eapply keeps_round|by eapply IH].
  - intros [= _ <-]. by eapply keeps_round.
  - intros [= _ <-]. by eapply keeps_round.
Qed.

Lemma keeps_main fuel ss r ss' :
  main int now fuel ss = Some (r, ss') → R ss ss'.
Proof.
  unfold main.
  destruct (get_config_items ss) as [[[|item items]|e] s1] eqn:E.
  - intros [= _ <-]. by eapply keeps_get_config_items.
  - intros H. eapply R_trans; [by eapply keeps_get_config_items|].
    by eapply keeps_main_loop.
  - intros [= _ <-]. by eapply keeps_get_config_items.
Qed.

End Keeps.

(** *** What the menu changes *)

Lemma say_unfold n ss :
  say n ss = (Ret tt, Session (home ss) (screen ss ++ [n]) (stdin ss) (ticks ss)).
Proof. done. Qed.

Lemma main_inside int now fuel ss r ss' :
  main int now fuel ss = Some (r, ss') →
  same_outside dotfiles_path (home ss) (home ss')
  ∧ frozen (home ss') = frozen (home ss).
Proof.
  apply (keeps_main
    (λ ss ss', same_outside dotfiles_path (home ss) (home ss')
               ∧ frozen (home ss') = frozen (home ss))).
  - intros s. split; [apply same_outside_refl|done].
  - intros s1 s2 s3 [H1 Hf1] [H2 Hf2]. split; [|congruence].
    by eapply same_outside_trans.
  - intros n s1 r1 s2 [= _ <-]. split; [apply same_outside_refl|done].
  - intros max_num s1 r1 s2. unfold prompt.
    destruct (get_user_selection _ _ _) as [[r' evs] rest].
    intros [= _ <-]. split; [by intros q|done].
  - intros s1 r1 s2 [= _ <-]. split; [apply same_outside_refl|done].
  - intros s1 r1 s2. unfold input. destruct (stdin s1); intros [= _ <-];
      (split; [apply same_outside_refl|done]).
  - intros items sel timestamp s1 r1 s2. rewrite lift_unfold.
    intros [= _ <-]. cbn [home].
    destruct (backup_items items sel timestamp (home s1)) as [r2 h2] eqn:E.
    by apply backup_items_inside in E.
Qed.

(** X14. Whatever the user types, the program changes nothing in the home
    directory outside of [~/dotfiles]; [~/.config] is only read. *)
Theorem menu_changes_dotfiles_only int now fuel ss r ss' :
  main int now fuel ss = Some (r, ss') →
  outside_dotfiles ss ss'
  ∧ (∀ q, fs_get (tree (home ss')) (config_path ++ q)
          = fs_get (tree (home ss)) (config_path ++ q)).
Proof.
  intros [Ho _]%main_inside. split.
  - intros x q Hx. apply Ho. simpl. by rewrite decide_False by done.
  - intros q. by apply Ho.
Qed.

(** *** The loop ends with the input *)

Lemma stdin_trans (s1 s2 s3 : session) :
  stdin s2 = stdin s1 → stdin s3 = stdin s2 → stdin s3 = stdin s1.
Proof. congruence. Qed.

Lemma say_stdin n : keeps (λ ss ss', stdin ss' = stdin ss) (say n).
Proof. by intros ss r ss' [= _ <-]. Qed.

Lemma get_config_items_stdin ss r ss' :
  get_config_items ss = (r, ss') → stdin ss' = stdin ss.
Proof.
  apply (keeps_get_config_items _ (λ _, eq_refl) stdin_trans say_stdin).
Qed.

Lemma round_reads_a_line int now items ss ss' :
  round int now items ss = (Ret true, ss') →
  (length (stdin ss') < length (stdin ss))%nat.
Proof.
  unfold round. rewrite bind_unfold_u.
  destruct (display_items items ss) as [[[]|e] s1] eqn:E1; [|done].
  apply (keeps_display_items _ (λ _, eq_refl) stdin_trans say_stdin) in E1.
  rewrite bind_unfold_u. unfold prompt at 1.
  destruct (get_user_selection int _ (stdin s1)) as [[r evs] rest] eqn:E2.
  apply get_user_selection_outcome in E2.
  destruct r as [sel|e]; [|done].
  destruct E2 as (read & Hread & Hlen).
  assert (length rest < length (stdin ss))%nat as Hrest.
  { rewrite <-E1, Hread, length_app. lia. }
  destruct sel as [| |numbers].
  - rewrite bind_unfold_u, say_unfold. done.
  - rewrite bind_unfold_u.
    match goal with |- context [show_backup_history ?st] =>
      destruct (show_backup_history st) as [[[]|e] s2] eqn:E3 end; [|done].
    apply (keeps_show_backup_history _ (λ _, eq_refl) stdin_trans say_stdin)
      in E3.
    intros [= <-]. by rewrite E3.
  - rewrite bind_unfold_u. unfold strftime_now at 1. rewrite bind_unfold_u.
    rewrite lift_unfold. cbn [home screen stdin ticks].
    destruct (backup_items _ _ _ _) as [[[]|e] h2]; [|done]. cbn [fst snd].
    rewrite bind_unfold_u. unfold input at 1. cbn [home screen stdin ticks].
    destruct rest as [|choice rest']; [done|].
    case_decide; [|by rewrite bind_unfold_u, say_unfold].
    intros [= <-]. cbn [stdin]. simpl in Hrest. lia.
Qed.

Lemma main_loop_ends int now items fuel : ∀ ss,
  (length (stdin ss) < fuel)%nat →
  ∃ r ss', main_loop int now fuel items ss = Some (r, ss').
Proof.
  induction fuel as [|fuel IH]; intros ss Hlen; [lia|]. simpl.
  destruct (round int now items ss) as [[[|]|e] s1] eqn:E; [|by eauto..].
  apply IH. apply round_reads_a_line in E. lia.
Qed.

(** X15. The [while True] loop of [main] ends when the input ends: with more
    rounds allowed than there are lines to read, [main] returns or raises,
    and the script comes to its end. *)
Theorem menu_ends_with_the_input int now fuel ss :
  (length (stdin ss) < fuel)%nat →
  (∃ r ss', main int now fuel ss = Some (r, ss'))
  ∧ is_Some (script int now fuel ss).
Proof.
  intros Hlen.
  assert (∃ r ss', main int now fuel ss = Some (r, ss')) as (r & ss' & E).
  { unfold main.
    destruct (get_config_items ss) as [[[|item items]|e] s1] eqn:E;
      [by eauto| |by eauto].
    apply main_loop_ends. by rewrite (get_config_items_stdin _ _ _ E). }
  split; [by eauto|]. unfold script. rewrite E. by destruct r.
Qed.

(** *** The exceptions that leave the menu *)

Section RaisesOnly.
Variable P : exn → Prop.

Lemma ro_ret {A} (a : A) : raises_only P (mret a).
Proof. by intros s e s'. Qed.

Lemma ro_bind {A B} (m : M A) (f : A → M B) :
  raises_only P m → (∀ a, raises_only P (f a)) → raises_only P (m ≫= f).
Proof.
  intros Hm Hf s e s'. rewrite bind_unfold.
  destruct (m s) as [[a|e1] s1] eqn:E.
  - apply Hf.
  - intros [= <- _]. by eapply Hm.
Qed.

Lemma ro_try {A} (body : M A) handler :
  (∀ e, raises_only P (handler e)) → raises_only P (try_except body handler).
Proof.
  intros Hh s e s'. rewrite try_unfold.
  destruct (body s) as [[a|e1] s1]; [done|apply Hh].
Qed.

Lemma ro_for_each {A} (l : list A) body :
  (∀ x, x ∈ l → raises_only P (body x)) → raises_only P (for_each l body).
Proof.
  induction l as [|x l IH]; intros Hb; simpl; [apply ro_ret|].
  apply ro_bind; [apply Hb; by left|]. intros _. apply IH.
  intros y Hy. apply Hb. by right.
Qed.

Lemma ro_print ev : raises_only P (print ev).
Proof. by intros s e s'. Qed.

Lemma lo_ret {A} (a : A) : lets_out P (mret a).
Proof. by intros s e s'. Qed.

Lemma lo_bind {A B} (m : U A) (f : A → U B) :
  lets_out P m → (∀ a, lets_out P (f a)) → lets_out P (m ≫= f).
Proof.
  intros Hm Hf s e s'. rewrite bind_unfold_u.
  destruct (m s) as [[a|e1] s1] eqn:E.
  - apply Hf.
  - intros [= <- _]. by eapply Hm.
Qed.

Lemma lo_for_each {A} (l : list A) body :
  (∀ x, lets_out P (body x)) → lets_out P (for_each_u l body).
Proof.
  intros Hb. induction l as [|x l IH]; simpl; [apply lo_ret|].
  apply lo_bind; [apply Hb|]. by intros _.
Qed.

Lemma lo_say n : lets_out P (say n).
Proof. by intros s e s'. Qed.

Lemma lo_lift {A} (m : M A) : raises_only P m → lets_out P (lift m).
Proof.
  intros Hm ss e ss'. rewrite lift_unfold. intros [= He _].
  destruct (m (home ss)) as [r s'] eqn:E. simpl in He. subst r.
  by eapply Hm.
Qed.

Lemma ro_query (m : M bool) :
  (∀ s, ∃ b, m s = (Ret b, s)) → raises_only P m.
Proof. intros Hm s e s'. by destruct (Hm s) as [b ->]. Qed.

Lemma ro_exists p : raises_only P (exists_ p).
Proof. by intros s e s'. Qed.

Lemma ro_is_dir p : raises_only P (is_dir p).
Proof. by intros s e s'. Qed.

Lemma ro_rglob_size p : raises_only P (rglob_size p).
Proof. by intros s e s'. Qed.

End RaisesOnly.

Lemma ro_mkdir p : raises_only os_error (mkdir_exist_ok p).
Proof.
  intros s e s'. unfold mkdir_exist_ok, set_tree, os_error.
  destruct (fs_get (tree s) p) as [[]|];
    [intros [= <- _]; set_solver|done|].
  destruct (fs_get (tree s) (parent p)) as [[]|];
    [intros [= <- _]; set_solver| |intros [= <- _]; set_solver].
  case_bool_decide; [intros [= <- _]; set_solver|].
  destruct (fs_install p (Dir ∅) (tree s)); [done|].
  intros [= <- _]; set_solver.
Qed.

Lemma ro_iterdir p : raises_only os_error (iterdir p).
Proof.
  intros s e s'. unfold iterdir, os_error.
  destruct (fs_get (tree s) p) as [[]|]; [|done|];
    intros [= <- _]; set_solver.
Qed.

(** With an index in range, the only exceptions that leave the backup of
    an item are those of the [mkdir] before the [try]. *)
Lemma ro_backup_item items timestamp idx :
  in_range (Z.of_nat (length items)) idx →
  raises_only os_error (backup_item items timestamp idx).
Proof.
  intros Hidx. destruct (index_in_range items idx Hidx) as (x & Hx & _).
  intros s e s'. unfold backup_item. rewrite bind_unfold. unfold index at 1.
  rewrite Hx. revert s e s'.
  apply ro_bind; [apply ro_mkdir|]. intros _.
  apply ro_bind; [apply ro_print|]. intros _.
  apply ro_try. intros e.
  destruct e; apply ro_bind; try apply ro_print; by intros _ s e s'.
Qed.

Lemma ro_backup_items items selected_indices timestamp :
  Forall (in_range (Z.of_nat (length items))) selected_indices →
  raises_only os_error (backup_items items selected_indices timestamp).
Proof.
  intros Hsel. unfold backup_items.
  apply ro_bind; [apply ro_mkdir|]. intros _.
  apply ro_bind; [by intros s e s'|]. intros _.
  apply ro_bind.
  - apply ro_for_each. intros idx Hidx. apply ro_backup_item.
    by eapply Forall_forall in Hsel.
  - intros _. by intros s e s'.
Qed.

Section LetsOut.
Variable int : string → option Z.
Variable now : nat → string.

Lemma lo_os {A} (m : M A) : raises_only os_error m → lets_out input_or_os_error (lift m).
Proof.
  intros Hm. apply lo_lift. intros s e s' H. right. by eapply Hm.
Qed.

Lemma lo_get_config_items : lets_out input_or_os_error get_config_items.
Proof.
  unfold get_config_items.
  apply lo_bind; [apply lo_lift, ro_exists|]. intros found.
  destruct (negb found).
  { apply lo_bind; [apply lo_say|]. intros _. apply lo_ret. }
  intros ss e ss'. rewrite try_unfold_u, bind_unfold_u.
  rewrite lift_reads by apply reads_iterdir.
  destruct (iterdir config_path (home ss)) as [[names|e1] s1] eqn:E;
    cbn [fst]; [done|].
  apply ro_iterdir in E.
  destruct e1; intros [= <- _]; by right.
Qed.

Lemma lo_display_items items : lets_out input_or_os_error (display_items items).
Proof.
  unfold display_items. apply lo_for_each. intros [idx item].
  apply lo_bind; [apply lo_lift, ro_is_dir|]. intros d. apply lo_say.
Qed.

Lemma lo_show_backup_history : lets_out input_or_os_error show_backup_history.
Proof.
  unfold show_backup_history.
  apply lo_bind; [apply lo_lift, ro_exists|]. intros found.
  destruct (negb found); [apply lo_say|].
  apply lo_bind; [apply lo_os, ro_iterdir|]. intros folders.
  apply lo_bind.
  { apply lo_for_each. intros name.
    apply lo_bind; [apply lo_lift, ro_is_dir|]. intros d.
    destruct (d && _); [|apply lo_ret].
    apply lo_bind; [apply lo_os, ro_iterdir|]. intros entries.
    destruct (sorted_desc entries) as [|b bs]; [apply lo_ret|].
    apply lo_bind; [apply lo_say|]. intros _.
    apply lo_for_each. intros backup.
    apply lo_bind; [apply lo_lift, ro_rglob_size|]. intros size.
    apply lo_say. }
  intros _.
  apply lo_bind; [apply lo_lift, ro_exists|]. intros fg.
  destruct fg; [|apply lo_ret].
  apply lo_bind; [apply lo_say|]. intros _.
  apply lo_bind; [apply lo_os, ro_iterdir|]. intros entries.
  apply lo_for_each. intros item.
  apply lo_bind; [apply lo_lift, ro_rglob_size|]. intros size.
  apply lo_bind; [apply lo_lift, ro_is_dir|]. intros d. apply lo_say.
Qed.

Lemma lo_round items : lets_out input_or_os_error (round int now items).
Proof.
  intros ss e ss'. unfold round. rewrite bind_unfold_u.
  destruct (display_items items ss) as [[[]|e1] s1] eqn:E1.
  2:{ intros [= <- _]. by eapply lo_display_items. }
  rewrite bind_unfold_u. unfold prompt at 1.
  destruct (get_user_selection int _ (stdin s1)) as [[r evs] rest] eqn:E2.
  pose proof (get_user_selection_outcome _ _ _ _ _ _ E2) as Hout.
  destruct r as [sel|e2].
  2:{ intros [= <- _]. left. by destruct Hout. }
  destruct sel as [| |numbers].
  - by rewrite bind_unfold_u, say_unfold.
  - rewrite bind_unfold_u.
    match goal with |- context [show_backup_history ?st] =>
      destruct (show_backup_history st) as [[[]|e3] s3] eqn:E3 end; [done|].
    intros [= <- _]. by eapply lo_show_backup_history.
  - apply get_user_selection_in_range in E2.
    rewrite bind_unfold_u. unfold strftime_now at 1. rewrite bind_unfold_u.
    match goal with |- context [lift (backup_items ?a ?b ?c) ?st] =>
      destruct (lift (backup_items a b c) st) as [[[]|e3] s3] eqn:E3 end.
    2:{ intros [= <- _]. eapply lo_os; [|exact E3]. by apply ro_backup_items. }
    rewrite bind_unfold_u. unfold input at 1.
    destruct (stdin s3) as [|choice rest'].
    { intros [= <- _]. by left. }
    case_decide; [done|]. by rewrite bind_unfold_u, say_unfold.
Qed.

Lemma lo_main_loop items fuel : ∀ ss e ss',
  main_loop int now fuel items ss = Some (Raise e, ss') → input_or_os_error e.
Proof.
  induction fuel as [|fuel IH]; intros ss e ss'; simpl; [done|].
  destruct (round int now items ss) as [[[|]|e1] s1] eqn:E.
  - apply IH.
  - done.
  - intros [= <- _]. by eapply lo_round.
Qed.

Lemma lo_main fuel ss e ss' :
  main int now fuel ss = Some (Raise e, ss') → input_or_os_error e.
Proof.
  unfold main.
  destruct (get_config_items ss) as [[[|item items]|e1] s1] eqn:E.
  - done.
  - apply lo_main_loop.
  - intros [= <- _]. by eapply lo_get_config_items.
Qed.

End LetsOut.

(** X16. Nothing the user types makes the program fail in its own code: when
    [main] raises, the input has come to its end ([EOFError]) or a call of
    the operating system failed; neither [int(part)] ([ValueError]) nor
    [items[idx - 1]] ([IndexError]) lets an exception out. *)
Theorem menu_input_never_crashes int now fuel ss e ss' :
  main int now fuel ss = Some (Raise e, ss') →
  (e = EOFError ∨ os_error e) ∧ e ≠ IndexError ∧ e ≠ ValueError.
Proof.
  intros H. apply lo_main in H. unfold input_or_os_error in H. split; [done|].
  destruct H as [->|H]; [done|]. unfold os_error in H.
  split; intros ->; set_solver.
Qed.

(** *** The list of the items *)

Lemma name_le_ge a b : name_le a b ↔ name_ge b a.
Proof. done. Qed.

#[local] Instance name_le_trans : Transitive name_le.
Proof.
  intros a b c. rewrite !name_le_ge. intros H1 H2.
  by apply (OrderFacts.name_ge_trans c b a).
Qed.

#[local] Instance name_le_total : Total name_le.
Proof.
  intros a b. rewrite !name_le_ge.
  destruct (OrderFacts.name_ge_total a b); auto.
Qed.

Lemma sorted_asc_strict l : NoDup l → strict_asc (sorted_asc l).
Proof.
  intros Hnd.
  assert (StronglySorted name_le (sorted_asc l)) as Hs
    by (apply StronglySorted_merge_sort; apply _).
  assert (NoDup (sorted_asc l)) as Hnd'.
  { unfold sorted_asc. by rewrite merge_sort_Permutation. }
  unfold strict_asc. induction Hs as [|a k Hk IH Ha]; [constructor|].
  apply NoDup_cons in Hnd' as [Hin Hnd']. constructor; [by apply IH|].
  apply Forall_forall. intros x Hx. rewrite Forall_forall in Ha.
  apply Recent.name_ge_gt; [by apply name_le_ge, Ha|]. by intros ->.
Qed.

Lemma sorted_asc_elem x l : x ∈ sorted_asc l ↔ x ∈ l.
Proof. unfold sorted_asc. by rewrite merge_sort_Permutation. Qed.

(** X17. [get_config_items] gives the names of the entries of [~/.config], each
    one once, in ascending order, and prints nothing. *)
Theorem config_items_are_the_sorted_entries ss es :
  fs_get (tree (home ss)) config_path = Some (Dir es) →
  ∃ items, get_config_items ss = (Ret items, ss)
           ∧ strict_asc items
           ∧ length items = size es
           ∧ ∀ x, x ∈ items ↔ is_Some (es !! x).
Proof.
  intros Hcfg. exists (sorted_asc (map_to_list es).*1).
  split; [|split; [|split]].
  - unfold get_config_items. rewrite bind_unfold_u.
    rewrite lift_reads by apply reads_exists. unfold exists_ at 1, present.
    rewrite Hcfg. cbn [fst negb].
    rewrite try_unfold_u, bind_unfold_u.
    rewrite lift_reads by apply reads_iterdir. unfold iterdir at 1.
    by rewrite Hcfg.
  - apply sorted_asc_strict, NoDup_fst_map_to_list.
  - unfold sorted_asc. rewrite merge_sort_Permutation, length_fmap.
    by rewrite length_map_to_list.
  - intros x. rewrite sorted_asc_elem, list_elem_of_fmap. split.
    + intros ([y n] & -> & Hn). apply elem_of_map_to_list in Hn. eauto.
    + intros [n Hn]. exists (x, n). split; [done|].
      by apply elem_of_map_to_list.
Qed.

Lemma config_items_are_the_sorted_entries_witness :
  fs_get (tree fresh) config_path
  = Some (Dir {[ "nvim" := Dir {[ "init.lua" := File "set number" ]};
                 "bashrc" := File "alias ll=ls" ]})
  ∧ ∃ items, get_config_items (Session fresh [] [] 0)
             = (Ret items, Session fresh [] [] 0)
             ∧ length items = 2%nat
             ∧ "nvim" ∈ items.
Proof.
  assert (fs_get (tree fresh) config_path
          = Some (Dir {[ "nvim" := Dir {[ "init.lua" := File "set number" ]};
                         "bashrc" := File "alias ll=ls" ]})) as H
    by (vm_compute; reflexivity).
  split; [exact H|].
  destruct (config_items_are_the_sorted_entries (Session fresh [] [] 0) _ H)
    as (items & E & _ & Hlen & Hin).
  exists items. split; [exact E|]. split.
  - rewrite Hlen. vm_compute. reflexivity.
  - apply Hin. exists (Dir {[ "init.lua" := File "set number" ]}).
    vm_compute. reflexivity.
Defined.

(** *** The numbers of the list *)

Lemma display_loop (l : list string) : ∀ k ss,
  for_each_u (imap (λ i item, (Z.of_nat i + k, item)) l) (λ '(idx, item),
    d ← lift (is_dir (config_path ++ [item]));
    say (ItemLine idx d item)) ss
  = (Ret tt,
     with_lines (imap (λ i item,
       ItemLine (Z.of_nat i + k)
         (dir_at (tree (home ss)) (config_path ++ [item])) item) l) ss).
Proof.
  induction l as [|x l IH]; intros k ss; simpl.
  { unfold with_lines. rewrite app_nil_r. by destruct ss. }
  rewrite bind_unfold_u, bind_unfold_u.
  rewrite lift_reads by apply reads_is_dir. unfold is_dir at 1. cbn [fst].
  rewrite say_unfold.
  rewrite (imap_ext _ (λ i item, (Z.of_nat i + (k + 1), item))).
  2:{ intros i y _. simpl. f_equal. lia. }
  rewrite IH. unfold with_lines. cbn [home screen stdin ticks].
  f_equal. f_equal. rewrite <-app_assoc. simpl. do 2 f_equal.
  apply imap_ext. intros i y _. simpl. f_equal. lia.
Qed.

(** X18. The number that [display_items] prints beside an item is the index
    under which [backup_items] finds it: the lines are numbered from 1 to
    [len(items)], and the line with the number [idx] shows
    [items[idx - 1]], with its kind. *)
Theorem display_numbers_are_indices items ss :
  ∃ lines,
    display_items items ss = (Ret tt, with_lines lines ss)
    ∧ length lines = length items
    ∧ ∀ idx d x,
        ItemLine idx d x ∈ lines
        ↔ 1 ≤ idx
          ∧ py_index items (idx - 1) = Ret x
          ∧ d = dir_at (tree (home ss)) (config_path ++ [x]).
Proof.
  eexists. split; [apply display_loop|].
  split; [by rewrite length_imap|].
  intros idx d x. rewrite elem_of_lookup_imap. split.
  - intros (i & y & [= -> -> ->] & Hi). split; [lia|]. split; [|done].
    unfold py_index. apply lookup_lt_Some in Hi as Hlt.
    rewrite (proj2 (Z.ltb_ge _ _)) by lia.
    rewrite (proj2 (Z.leb_le _ _)), (proj2 (Z.ltb_lt _ _)) by lia.
    replace (Z.to_nat (Z.of_nat i + 1 - 1)) with i by lia.
    by rewrite Hi.
  - intros (Hidx & Hx & ->). unfold py_index in Hx.
    rewrite (proj2 (Z.ltb_ge _ _)) in Hx by lia.
    destruct (_ && _) eqn:Hb in Hx; [|done].
    destruct (items !! Z.to_nat (idx - 1)) as [y|] eqn:Hi; [|done].
    injection Hx as ->. exists (Z.to_nat (idx - 1)), x.
    split; [|done]. f_equal. lia.
Qed.

(** *** An empty [~/.config] *)

(** X19. With no [~/.config], or with nothing in it, [main] returns at once: it
    reads no input and makes no backup folder. *)
Theorem nothing_to_back_up int now fuel ss :
  fs_get (tree (home ss)) config_path = None
  ∨ fs_get (tree (home ss)) config_path = Some (Dir ∅) →
  ∃ lines, main int now fuel ss = Some (Ret tt, with_lines lines ss)
           ∧ (lines = [ConfigNotFound] ∨ lines = []).
Proof.
  intros Hcfg. unfold main, get_config_items. rewrite bind_unfold_u.
  rewrite lift_reads by apply reads_exists. unfold exists_ at 1, present.
  destruct Hcfg as [Hcfg|Hcfg]; rewrite Hcfg; cbn [fst negb].
  - rewrite bind_unfold_u, say_unfold. exists [ConfigNotFound]. by auto.
  - rewrite try_unfold_u, bind_unfold_u.
    rewrite lift_reads by apply reads_iterdir. unfold iterdir at 1.
    rewrite Hcfg. cbn [fst]. rewrite map_to_list_empty. simpl.
    exists []. split; [|by auto]. unfold with_lines.
    rewrite app_nil_r. by destruct ss.
Qed.

Lemma nothing_to_back_up_witness :
  (fs_get (tree (State (Dir ∅) [] [] 0 0)) config_path = None
   ∨ fs_get (tree (State (Dir ∅) [] [] 0 0)) config_path = Some (Dir ∅))
  ∧ ∃ lines,
      main int_ascii (λ _, stamp) 0
        (Session (State (Dir ∅) [] [] 0 0) [] ["all"] 0)
      = Some (Ret tt, with_lines lines
                        (Session (State (Dir ∅) [] [] 0 0) [] ["all"] 0))
      ∧ (lines = [ConfigNotFound] ∨ lines = []).
Proof.
  assert (fs_get (tree (State (Dir ∅) [] [] 0 0)) config_path = None
          ∨ fs_get (tree (State (Dir ∅) [] [] 0 0)) config_path = Some (Dir ∅))
    as H by (left; reflexivity).
  split; [exact H|].
  exact (nothing_to_back_up int_ascii (λ _, stamp) 0
           (Session (State (Dir ∅) [] [] 0 0) [] ["all"] 0) H).
Defined.

(** *** Sample runs of the menu *)

Lemma menu_changes_dotfiles_only_witness :
  main int_ascii (λ _, stamp) 3 one_backup = Some (Ret tt, after_one_backup)
  ∧ fs_get (tree (home after_one_backup)) (dotfiles_path ++ ["nvim"; stamp; "nvim"])
    = Some (Dir {[ "init.lua" := File "set number" ]})
  ∧ outside_dotfiles one_backup after_one_backup
  ∧ fs_get (tree (home after_one_backup)) (config_path ++ ["nvim"])
    = Some (Dir {[ "init.lua" := File "set number" ]}).
Proof.
  assert (main int_ascii (λ _, stamp) 3 one_backup
          = Some (Ret tt, after_one_backup)) as H by (vm_compute; reflexivity).
  split; [exact H|]. split; [vm_compute; reflexivity|].
  destruct (menu_changes_dotfiles_only _ _ _ _ _ _ H) as [Ho Hc].
  split; [exact Ho|]. rewrite Hc. vm_compute. reflexivity.
Defined.

Lemma menu_ends_with_the_input_witness :
  (length (stdin one_backup) < 3)%nat
  ∧ (∃ r ss', main int_ascii (λ _, stamp) 3 one_backup = Some (r, ss'))
  ∧ is_Some (script int_ascii (λ _, stamp) 3 one_backup).
Proof.
  assert (length (stdin one_backup) < 3)%nat as H by (simpl; lia).
  split; [exact H|].
  exact (menu_ends_with_the_input int_ascii (λ _, stamp) 3 one_backup H).
Defined.

Lemma menu_input_never_crashes_witness :
  main int_ascii (λ _, stamp) 2 (Session fresh [] ["7, x"] 0)
  = Some (Raise EOFError,
          Session (State (tree fresh) [] [OutOfRange 7; ValidNumbersOnly] 0 0)
            [ItemLine 1 false "bashrc"; ItemLine 2 true "nvim"] [] 0)
  ∧ (EOFError = EOFError ∨ os_error EOFError)
  ∧ EOFError ≠ IndexError ∧ EOFError ≠ ValueError.
Proof.
  assert (main int_ascii (λ _, stamp) 2 (Session fresh [] ["7, x"] 0)
          = Some (Raise EOFError,
                  Session (State (tree fresh) [] [OutOfRange 7; ValidNumbersOnly] 0 0)
                    [ItemLine 1 false "bashrc"; ItemLine 2 true "nvim"] [] 0))
    as H by (vm_compute; reflexivity).
  split; [exact H|].
  exact (menu_input_never_crashes _ _ _ _ _ _ H).
Defined.

(** *** The history *)














End MenuFacts.
